(** * nl2sql: the query-synthesis-and-repair pipeline of the matrimonial
    backend, embedded in Rocq.

    The development follows the TypeScript sources:
    - [services/planner.service.ts]   intent extraction and the deterministic
      builder ([fallbackExtractIntent], [buildSqlFromIntent]);
    - [services/sql-validator.service.ts]   [validateAndFixSql];
    - [services/executor.service.ts]        [executeMatrimonialQuery];
    - [app.ts]                              the two HTTP handlers.

    Strings are modelled as [string], read as the UTF-8 bytes of the
    JavaScript string.  The character classes [\s], [\w], [\d], the word
    boundary [\b], case folding (flag [i], [toLowerCase]) and [trim] are
    the ASCII ones; on ASCII text the model and JavaScript agree. *)

From Stdlib Require Import String Ascii List Bool Arith Lia NArith.
From Stdlib Require Import DecimalString.
Import ListNotations.
Local Open Scope string_scope.
Local Open Scope nat_scope.

(** ** JavaScript string primitives *)

Module JsString.

Definition code (c : ascii) : nat := nat_of_ascii c.

Definition in_range (lo hi : nat) (c : ascii) : bool :=
  (lo <=? code c) && (code c <=? hi).

Definition is_upper (c : ascii) : bool := in_range 65 90 c.
Definition is_lower (c : ascii) : bool := in_range 97 122 c.
Definition is_digit (c : ascii) : bool := in_range 48 57 c.

(** [\w]: letters, digits and the underscore. *)
Definition is_word (c : ascii) : bool :=
  is_upper c || is_lower c || is_digit c || (code c =? 95).

(** [\s] and the characters removed by [trim]: tab, line feed, vertical
    tab, form feed, carriage return, space. *)
Definition is_space (c : ascii) : bool :=
  in_range 9 13 c || (code c =? 32).

Definition lower_char (c : ascii) : ascii :=
  if is_upper c then ascii_of_nat (code c + 32) else c.

Definition upper_char (c : ascii) : ascii :=
  if is_lower c then ascii_of_nat (code c - 32) else c.

Fixpoint toLowerCase (s : string) : string :=
  match s with
  | EmptyString => EmptyString
  | String c r => String (lower_char c) (toLowerCase r)
  end.

Definition is_empty (s : string) : bool :=
  match s with EmptyString => true | _ => false end.

Fixpoint trimStart (s : string) : string :=
  match s with
  | EmptyString => EmptyString
  | String c r => if is_space c then trimStart r else s
  end.

Fixpoint trimEnd (s : string) : string :=
  match s with
  | EmptyString => EmptyString
  | String c r =>
      let r' := trimEnd r in
      if is_space c && is_empty r' then EmptyString else String c r'
  end.

Definition trim (s : string) : string := trimEnd (trimStart s).

Fixpoint starts_with (p s : string) : bool :=
  match p, s with
  | EmptyString, _ => true
  | String a p', String b s' => Ascii.eqb a b && starts_with p' s'
  | String _ _, EmptyString => false
  end.

(** [s.includes(p)] *)
Fixpoint includes (p s : string) : bool :=
  starts_with p s ||
  match s with
  | EmptyString => false
  | String _ r => includes p r
  end.

Fixpoint take (n : nat) (s : string) : string :=
  match n, s with
  | S n', String c r => String c (take n' r)
  | _, _ => EmptyString
  end.

Fixpoint drop (n : nat) (s : string) : string :=
  match n, s with
  | S n', String _ r => drop n' r
  | _, _ => s
  end.

Fixpoint last_char (d : option ascii) (s : string) : option ascii :=
  match s with
  | EmptyString => d
  | String c r => last_char (Some c) r
  end.

(** [xs.join(sep)] *)
Fixpoint join (sep : string) (xs : list string) : string :=
  match xs with
  | [] => EmptyString
  | [x] => x
  | x :: rest => x ++ sep ++ join sep rest
  end.

(** Decimal rendering of a number inside a template literal. *)
Definition of_N (n : N) : string := NilEmpty.string_of_uint (N.to_uint n).

(** [parseInt(ds, 10)] on a string of decimal digits. *)
Definition parseInt (ds : string) : N :=
  match NilEmpty.uint_of_string ds with
  | Some u => N.of_uint u
  | None => 0%N
  end.

(** JavaScript truthiness of a string. *)
Definition truthy (s : string) : bool := negb (is_empty s).

End JsString.

(** ** Regular expressions

    A backtracking matcher with the ECMAScript priorities (leftmost match,
    alternatives tried left to right, greedy and lazy quantifiers), and a
    reader for the pattern syntax, so that every pattern below is quoted
    as it stands in the source. *)

Module Regex.
Import JsString.

Inductive citem : Type :=
| CChar (c : ascii)
| CRange (lo hi : ascii)
| CSeq (bytes : string)          (* one non-ASCII character, as its bytes *)
| CSpace | CDigit | CWord.

Inductive regex : Type :=
| Eps
| Lit (c : ascii)
| Dot
| Cls (neg : bool) (items : list citem)
| Cat (r1 r2 : regex)
| Alt (r1 r2 : regex)
| Rep (greedy : bool) (lo : nat) (hi : option nat) (r : regex)
| Grp (i : nat) (r : regex)
| WordB
| Bos
| Eos
| Fail.

(** *** Reading a pattern *)

Definition is_cont_byte (c : ascii) : bool := in_range 128 191 c.

Fixpoint take_cont (s : string) : string * string :=
  match s with
  | String c r =>
      if is_cont_byte c then let '(a, b) := take_cont r in (String c a, b)
      else (EmptyString, s)
  | EmptyString => (EmptyString, EmptyString)
  end.

Definition esc_item (c : ascii) : citem :=
  if Ascii.eqb c "s" then CSpace
  else if Ascii.eqb c "d" then CDigit
  else if Ascii.eqb c "w" then CWord
  else if Ascii.eqb c "n" then CChar (ascii_of_nat 10)
  else if Ascii.eqb c "t" then CChar (ascii_of_nat 9)
  else CChar c.

(** Items of a character class, up to the closing bracket. *)
Fixpoint p_class (fuel : nat) (s : string) : option (list citem * string) :=
  match fuel with
  | 0 => None
  | S f =>
      match s with
      | EmptyString => None
      | String "]" r => Some ([], r)
      | String "\" (String c r) =>
          match p_class f r with
          | Some (items, r') => Some (esc_item c :: items, r')
          | None => None
          end
      | String a (String "-" (String b r)) =>
          if Ascii.eqb b "]" then
            match p_class f (String "-" (String b r)) with
            | Some (items, r') => Some (CChar a :: items, r')
            | None => None
            end
          else
            match p_class f r with
            | Some (items, r') => Some (CRange a b :: items, r')
            | None => None
            end
      | String a r =>
          if 192 <=? code a then
            let '(cont, r1) := take_cont r in
            match p_class f r1 with
            | Some (items, r') => Some (CSeq (String a cont) :: items, r')
            | None => None
            end
          else
            match p_class f r with
            | Some (items, r') => Some (CChar a :: items, r')
            | None => None
            end
      end
  end.

Fixpoint p_digits (s : string) : string * string :=
  match s with
  | String c r =>
      if is_digit c then let '(a, b) := p_digits r in (String c a, b)
      else (EmptyString, s)
  | EmptyString => (EmptyString, EmptyString)
  end.

Definition p_lazy (s : string) : bool * string :=
  match s with
  | String "?" r => (false, r)
  | _ => (true, s)
  end.

(** Braces [{m}], [{m,}], [{m,n}]. *)
Definition p_braces (s : string) : option (nat * option nat * string) :=
  let '(m, r) := p_digits s in
  if is_empty m then None else
  let lo := N.to_nat (parseInt m) in
  match r with
  | String "}" r' => Some (lo, Some lo, r')
  | String "," r1 =>
      let '(n, r2) := p_digits r1 in
      match r2 with
      | String "}" r' =>
          Some (lo, if is_empty n then None else Some (N.to_nat (parseInt n)), r')
      | _ => None
      end
  | _ => None
  end.

(** A quantifier, if one follows the atom. *)
Definition p_quant (a : regex) (s : string) : regex * string :=
  match s with
  | String "*" r => let '(g, r') := p_lazy r in (Rep g 0 None a, r')
  | String "+" r => let '(g, r') := p_lazy r in (Rep g 1 None a, r')
  | String "?" r => let '(g, r') := p_lazy r in (Rep g 0 (Some 1) a, r')
  | String "{" r =>
      match p_braces r with
      | Some (lo, hi, r1) => let '(g, r') := p_lazy r1 in (Rep g lo hi a, r')
      | None => (a, s)
      end
  | _ => (a, s)
  end.

Definition esc_atom (c : ascii) : regex :=
  if Ascii.eqb c "b" then WordB
  else match esc_item c with
       | CChar x => Lit x
       | it => Cls false [it]
       end.

(** [g] counts the capturing groups opened so far. *)
Fixpoint p_alt (fuel : nat) (s : string) (g : nat) : option (regex * string * nat) :=
  match fuel with
  | 0 => None
  | S f =>
      match p_seq f s g with
      | Some (r1, String "|" s1, g1) =>
          match p_alt f s1 g1 with
          | Some (r2, s2, g2) => Some (Alt r1 r2, s2, g2)
          | None => None
          end
      | other => other
      end
  end
with p_seq (fuel : nat) (s : string) (g : nat) : option (regex * string * nat) :=
  match fuel with
  | 0 => None
  | S f =>
      match s with
      | EmptyString => Some (Eps, s, g)
      | String "|" _ => Some (Eps, s, g)
      | String ")" _ => Some (Eps, s, g)
      | _ =>
          match p_atom f s g with
          | Some (a, s1, g1) =>
              let '(q, s2) := p_quant a s1 in
              match p_seq f s2 g1 with
              | Some (Eps, s3, g3) => Some (q, s3, g3)
              | Some (r, s3, g3) => Some (Cat q r, s3, g3)
              | None => None
              end
          | None => None
          end
      end
  end
with p_atom (fuel : nat) (s : string) (g : nat) : option (regex * string * nat) :=
  match fuel with
  | 0 => None
  | S f =>
      match s with
      | EmptyString => None
      | String "(" (String "?" (String ":" s1)) =>
          match p_alt f s1 g with
          | Some (r, String ")" s2, g2) => Some (r, s2, g2)
          | _ => None
          end
      | String "(" s1 =>
          match p_alt f s1 (S g) with
          | Some (r, String ")" s2, g2) => Some (Grp (S g) r, s2, g2)
          | _ => None
          end
      | String "[" (String "^" s1) =>
          match p_class (S (String.length s1)) s1 with
          | Some (items, s2) => Some (Cls true items, s2, g)
          | None => None
          end
      | String "[" s1 =>
          match p_class (S (String.length s1)) s1 with
          | Some (items, s2) => Some (Cls false items, s2, g)
          | None => None
          end
      | String "\" (String c s1) => Some (esc_atom c, s1, g)
      | String "^" s1 => Some (Bos, s1, g)
      | String "$" s1 => Some (Eos, s1, g)
      | String "." s1 => Some (Dot, s1, g)
      | String c s1 => Some (Lit c, s1, g)
      end
  end.

(** The pattern between the slashes of a regular-expression literal. *)
Definition rx (src : string) : regex :=
  match p_alt (4 * String.length src + 4) src 0 with
  | Some (r, EmptyString, _) => r
  | _ => Fail
  end.

(** *** Matching *)

(** A position in the subject: the character just before it (for [\b] and
    [^]), the text still to read, and the groups captured so far. *)
Record mstate : Type := MState {
  prev : option ascii;
  rest : string;
  caps : list (nat * string)
}.

Definition char_eq (ci : bool) (a b : ascii) : bool :=
  if ci then Ascii.eqb (upper_char a) (upper_char b) else Ascii.eqb a b.

Definition item_has (it : citem) (c : ascii) : bool :=
  match it with
  | CChar x => Ascii.eqb x c
  | CRange lo hi => in_range (code lo) (code hi) c
  | CSeq _ => false
  | CSpace => is_space c
  | CDigit => is_digit c
  | CWord => is_word c
  end.

Definition item_match (ci : bool) (it : citem) (c : ascii) : bool :=
  if ci then item_has it c || item_has it (upper_char c) || item_has it (lower_char c)
  else item_has it c.

(** The text left after one character of the class, if the text starts
    with one. *)
Fixpoint class_step (ci : bool) (items : list citem) (s : string) : option string :=
  match items with
  | [] => None
  | CSeq bytes :: more =>
      if starts_with bytes s then Some (drop (String.length bytes) s)
      else class_step ci more s
  | it :: more =>
      match s with
      | String c r => if item_match ci it c then Some r else class_step ci more s
      | EmptyString => None
      end
  end.

Definition is_word_opt (c : option ascii) : bool :=
  match c with Some x => is_word x | None => false end.

Definition next_char (s : string) : option ascii :=
  match s with String c _ => Some c | EmptyString => None end.

Definition at_boundary (st : mstate) : bool :=
  xorb (is_word_opt (prev st)) (is_word_opt (next_char (rest st))).

Definition advance (st : mstate) (r : string) : mstate :=
  MState (last_char (prev st) (take (String.length (rest st) - String.length r) (rest st)))
         r (caps st).

Definition set_cap (i : nat) (txt : string) (cs : list (nat * string)) : list (nat * string) :=
  (i, txt) :: filter (fun p => negb (Nat.eqb (fst p) i)) cs.

Definition orelse {A : Type} (a b : option A) : option A :=
  match a with Some _ => a | None => b end.

Definition below (n : nat) (hi : option nat) : bool :=
  match hi with Some h => n <? h | None => true end.

(** [run ci r st k]: match [r] at [st], then the continuation [k]; the
    first success in priority order. *)
Fixpoint run (ci : bool) (r : regex) (st : mstate)
         (k : mstate -> option mstate) {struct r} : option mstate :=
  match r with
  | Eps => k st
  | Fail => None
  | Lit c =>
      match rest st with
      | String x r' =>
          if char_eq ci c x then k (MState (Some x) r' (caps st)) else None
      | EmptyString => None
      end
  | Dot =>
      match rest st with
      | String x r' =>
          if (code x =? 10) || (code x =? 13) then None
          else k (MState (Some x) r' (caps st))
      | EmptyString => None
      end
  | Cls neg items =>
      match class_step ci items (rest st), neg with
      | Some r', false => k (advance st r')
      | None, true =>
          match rest st with
          | String x r' => k (MState (Some x) r' (caps st))
          | EmptyString => None
          end
      | _, _ => None
      end
  | Cat r1 r2 => run ci r1 st (fun st1 => run ci r2 st1 k)
  | Alt r1 r2 => orelse (run ci r1 st k) (run ci r2 st k)
  | Grp i r1 =>
      run ci r1 st (fun st1 =>
        k (MState (prev st1) (rest st1)
             (set_cap i (take (String.length (rest st) - String.length (rest st1)) (rest st))
                      (caps st1))))
  | WordB => if at_boundary st then k st else None
  | Bos => match prev st with None => k st | Some _ => None end
  | Eos => if is_empty (rest st) then k st else None
  | Rep greedy lo hi r1 =>
      (fix loop (fuel : nat) (n : nat) (st0 : mstate) {struct fuel} : option mstate :=
         match fuel with
         | 0 => None
         | S f =>
             let more :=
               if below n hi then
                 run ci r1 st0 (fun st1 =>
                   if (n <? lo) || (String.length (rest st1) <? String.length (rest st0))
                   then loop f (S n) st1 else None)
               else None in
             let stop := if lo <=? n then k st0 else None in
             if greedy then orelse more stop else orelse stop more
         end) (S (String.length (rest st) + lo)) 0 st
  end.

(** The result of [exec]: the text before the match, the matched text,
    the text after it, and the captured groups. *)
Record rmatch : Type := RMatch {
  m_pre : string;
  m_text : string;
  m_post : string;
  m_caps : list (nat * string)
}.

(** Group [i] of a match; [None] is JavaScript's [undefined]. *)
Definition group (m : rmatch) (i : nat) : option string :=
  match find (fun p => Nat.eqb (fst p) i) (m_caps m) with
  | Some (_, txt) => Some txt
  | None => None
  end.

(** One attempt anchored at the current position. *)
Definition match_here (ci : bool) (r : regex) (p : option ascii) (s : string)
  : option (string * string * list (nat * string)) :=
  match run ci r (MState p s []) (fun st => Some st) with
  | Some st => Some (take (String.length s - String.length (rest st)) s, rest st, caps st)
  | None => None
  end.

(** Leftmost match in [s], which is preceded by [p]; [acc] is the text
    already skipped, reversed. *)
Fixpoint rev_onto (a b : string) : string :=
  match a with
  | EmptyString => b
  | String c r => rev_onto r (String c b)
  end.

Fixpoint search (ci : bool) (r : regex) (p : option ascii) (acc s : string) : option rmatch :=
  match match_here ci r p s with
  | Some (txt, post, cs) => Some (RMatch (rev_onto acc EmptyString) txt post cs)
  | None =>
      match s with
      | String c s' => search ci r (Some c) (String c acc) s'
      | EmptyString => None
      end
  end.

(** [s.match(re)] for a pattern without the [g] flag. *)
Definition exec (ci : bool) (r : regex) (s : string) : option rmatch :=
  search ci r None EmptyString s.

(** [re.test(s)] *)
Definition test (ci : bool) (r : regex) (s : string) : bool :=
  match exec ci r s with Some _ => true | None => false end.

(** *** Replacing *)

(** A replacement string: [$$], [$&], [$1] .. [$9], [$01] .. [$09], the
    backtick and quote forms are expanded, the rest is copied. A reference
    to a group that the match does not hold is copied as it stands (no
    template here goes with a pattern whose group can stay out of a
    match, for which JavaScript inserts nothing), and so is the second
    digit of [$10] .. [$99]: no pattern here has ten groups, and
    JavaScript then reads [$n] followed by a digit. *)
Fixpoint expand (tmpl : string) (m : rmatch) : string :=
  match tmpl with
  | EmptyString => EmptyString
  | String "$" (String c r) =>
      if Ascii.eqb c "$" then String "$" (expand r m)
      else if Ascii.eqb c "&" then m_text m ++ expand r m
      else if Ascii.eqb c "`" then m_pre m ++ expand r m
      else if Ascii.eqb c "'" then m_post m ++ expand r m
      else if is_digit c && negb (Ascii.eqb c "0") then
        match find (fun p => Nat.eqb (fst p) (code c - 48)) (m_caps m) with
        | Some (_, txt) => txt ++ expand r m
        | None => String "$" (String c (expand r m))
        end
      else if Ascii.eqb c "0" then
        match r with
        | String d r' =>
            if is_digit d && negb (Ascii.eqb d "0") then
              match find (fun p => Nat.eqb (fst p) (code d - 48)) (m_caps m) with
              | Some (_, txt) => txt ++ expand r' m
              | None => String "$" (String c (expand r m))
              end
            else String "$" (String c (expand r m))
        | EmptyString => String "$" (String c (expand r m))
        end
      else String "$" (String c (expand r m))
  | String c r => String c (expand r m)
  end.

(** [s.replace(re, f)] without the [g] flag: the first match only. *)
Definition replace_fn (ci : bool) (r : regex) (f : rmatch -> string) (s : string) : string :=
  match exec ci r s with
  | Some m => m_pre m ++ f m ++ m_post m
  | None => s
  end.

Definition replace (ci : bool) (r : regex) (tmpl : string) (s : string) : string :=
  replace_fn ci r (expand tmpl) s.

(** [s.replace(re, f)] with the [g] flag; the callback threads a state
    (the closure variables it updates). [done] is the text before [s]. *)
Fixpoint replace_all_from {A : Type} (fuel : nat) (ci : bool) (r : regex)
         (f : A -> rmatch -> A * string) (a : A) (p : option ascii) (done s : string)
  : A * string :=
  match fuel with
  | 0 => (a, s)
  | S fuel' =>
      match search ci r p EmptyString s with
      | None => (a, s)
      | Some m =>
          let whole := RMatch (done ++ m_pre m) (m_text m) (m_post m) (m_caps m) in
          let '(a1, out) := f a whole in
          match m_text m, m_post m with
          | EmptyString, EmptyString => (a1, m_pre m ++ out)
          | EmptyString, String c post' =>
              let '(a2, tail) :=
                replace_all_from fuel' ci r f a1 (Some c)
                                 (done ++ m_pre m ++ String c EmptyString) post' in
              (a2, m_pre m ++ out ++ String c tail)
          | _, _ =>
              let '(a2, tail) :=
                replace_all_from fuel' ci r f a1
                                 (last_char p (m_pre m ++ m_text m))
                                 (done ++ m_pre m ++ m_text m) (m_post m) in
              (a2, m_pre m ++ out ++ tail)
          end
      end
  end.

Definition replace_all_st {A : Type} (ci : bool) (r : regex)
           (f : A -> rmatch -> A * string) (a : A) (s : string) : A * string :=
  replace_all_from (S (String.length s)) ci r f a None EmptyString s.

Definition replace_all_fn (ci : bool) (r : regex) (f : rmatch -> string) (s : string) : string :=
  snd (replace_all_st ci r (fun (_ : unit) m => (tt, f m)) tt s).

Definition replace_all (ci : bool) (r : regex) (tmpl : string) (s : string) : string :=
  replace_all_fn ci r (expand tmpl) s.

(** [s.split(re)[0]]: the text before the first match. *)
Definition split_head (ci : bool) (r : regex) (s : string) : string :=
  match exec ci r s with
  | Some m => m_pre m
  | None => s
  end.

End Regex.

(** ** planner.service.ts: intent extraction and the deterministic builder *)

Module Planner.
Import JsString Regex.

(** Extracted intent item: attribute (e.g. gender, profession) and value
    (e.g. male, doctor). *)
Record ExtractedIntent : Type := Intent {
  attribute : string;
  value : string
}.

Definition nl : string := String (ascii_of_nat 10) EmptyString.

(** [m?.[1]] used as a condition: group 1 is defined and not empty. *)
Definition group1 (m : option rmatch) : option string :=
  match m with
  | Some r =>
      match group r 1 with
      | Some txt => if truthy txt then Some txt else None
      | None => None
      end
  | None => None
  end.

Definition group2 (m : option rmatch) : option string :=
  match m with
  | Some r =>
      match group r 2 with
      | Some txt => if truthy txt then Some txt else None
      | None => None
      end
  | None => None
  end.

(** [intents.push(...)] when the optional value is present. *)
Definition push_if (attr : string) (v : option string) (intents : list ExtractedIntent)
  : list ExtractedIntent :=
  match v with
  | Some txt => (intents ++ [Intent attr txt])%list
  | None => intents
  end.

Definition some_attr (attr : string) (intents : list ExtractedIntent) : bool :=
  existsb (fun i => String.eqb (attribute i) attr) intents.

(** Rule-based fallback when the model returns [[]] or invalid JSON. *)
Definition fallbackExtractIntent (question : string) : list ExtractedIntent :=
  let q := trim question in
  let lower := toLowerCase q in
  let intents : list ExtractedIntent := [] in
  (* Profession *)
  let professionMatch :=
    exec true (rx "\b(software\s+engineers?|chartered\s+accountants?|doctors?|engineers?|lawyers?|teachers?|accountants?)\b") lower in
  let intents := push_if "profession" (option_map trim (group1 professionMatch)) intents in
  (* Native place: originally from X, hails from X, native of X *)
  let nativeMatch :=
    orelse
      (exec true (rx "\b(?:originally\s+from|hails?\s+from|native\s+of)\s+([a-z][a-z\s]{0,40}?)(?:\s*\.|$)") lower)
      (exec true (rx "(?:originally\s+from|hails?\s+from|native\s+of)\s+([A-Za-z][A-Za-z\s]{0,40}?)(?:\s*\.|$)") q) in
  let intents := push_if "native_place" (option_map trim (group1 nativeMatch)) intents in
  (* City, unless native_place was found *)
  let intents :=
    if negb (some_attr "native_place" intents) then
      let cityMatch :=
        orelse
          (exec true (rx "\b(?:in|from|at|lives?\s+in)\s+([A-Za-z][A-Za-z\s]{1,40}?)(?:\s+earning|\s+who|\s+speak|\.|$)") q)
          (exec true (rx "\b(?:in|from)\s+([A-Za-z]+)\b") q) in
      push_if "city" (option_map trim (group1 cityMatch)) intents
    else intents in
  (* Income *)
  let incomeMatch :=
    orelse
      (exec true (rx "(?:earning\s+)?(?:more than|above|over)\s*(\d+)\s*lpa") lower)
      (exec true (rx "\b(\d+)\s*lpa") lower) in
  let intents := push_if "income" (option_map (fun n => n ++ " LPA") (group1 incomeMatch)) intents in
  (* Religion *)
  let religionMatch :=
    exec true (rx "\b(hindu|islam|muslim|christianity|christian|sikh|jain|buddhist)\b") lower in
  let intents := push_if "religion" (option_map trim (group1 religionMatch)) intents in
  (* Caste *)
  let casteMatch :=
    exec true (rx "\b(brahmin|rajput|maratha|kayasta|bania|vaishya|kshatriya)\b") lower in
  let intents := push_if "caste" (option_map trim (group1 casteMatch)) intents in
  (* Mother tongue *)
  let langMatch :=
    orelse
      (exec true (rx "(?:speak|who speak|mother tongue)\s+([a-z]+)") lower)
      (exec true (rx "(?:speak|who speak)\s+([A-Za-z]+)") q) in
  let intents := push_if "mother_tongue" (option_map trim (group1 langMatch)) intents in
  (* First name from X's profile or profile of X *)
  let profileNameMatch :=
    orelse
      (exec true (rx "([A-Za-z][a-z]+)'s\s+profile") q)
      (orelse
         (exec true (rx "(?:show\s+me|profile\s+of)\s+([A-Za-z][a-z]+)\.?\s*$") q)
         (exec true (rx "(?:profile\s+of)\s+([A-Za-z][a-z]+)") q)) in
  let intents := push_if "first_name" (option_map trim (group1 profileNameMatch)) intents in
  (* Age range *)
  let ageMatch :=
    orelse
      (exec true (rx "(?:between|ages?)\s+(\d+)\s+(?:and|to|-)\s+(\d+)") lower)
      (exec false (rx "(\d+)\s*-\s*(\d+)\s*(?:years?)?") lower) in
  let intents :=
    match group1 ageMatch, group2 ageMatch with
    | Some a, Some b => push_if "age" (Some (a ++ "-" ++ b)) intents
    | _, _ => intents
    end in
  intents.

(** *** Object literals used as tables

    [INTENT_TO_SQL[attr]] on an object literal also finds the properties
    inherited from [Object.prototype]; for those keys the value is a
    function or an object, neither a string nor an array. *)

Inductive lookup (A : Type) : Type :=
| Own (a : A)       (* a property of the literal *)
| Inherited         (* found on Object.prototype *)
| Missing.          (* undefined *)
Arguments Own {A} a.
Arguments Inherited {A}.
Arguments Missing {A}.

Definition object_prototype_keys : list string :=
  ["constructor"; "__proto__"; "hasOwnProperty"; "isPrototypeOf";
   "propertyIsEnumerable"; "toLocaleString"; "toString"; "valueOf";
   "__defineGetter__"; "__defineSetter__"; "__lookupGetter__"; "__lookupSetter__"].

Definition has (x : string) (xs : list string) : bool :=
  existsb (String.eqb x) xs.

Fixpoint assoc {A : Type} (key : string) (table : list (string * A)) : option A :=
  match table with
  | [] => None
  | (k, v) :: more => if String.eqb k key then Some v else assoc key more
  end.

Definition js_get {A : Type} (table : list (string * A)) (key : string) : lookup A :=
  match assoc key table with
  | Some v => Own v
  | None => if has key object_prototype_keys then Inherited else Missing
  end.

(** A call that either returns or throws a [TypeError]. *)
Inductive outcome (A : Type) : Type :=
| Ok (a : A)
| TypeError.
Arguments Ok {A} a.
Arguments TypeError {A}.

(** Map extracted intent attribute to table.column and SQL pattern. *)
Definition INTENT_TO_SQL : list (string * string) :=
  [ ("first_name", "LOWER(p.first_name) = LOWER('<value>') OR LOWER(p.last_name) = LOWER('<value>')");
    ("last_name", "LOWER(p.last_name) LIKE LOWER('%<value>%')");
    ("gender", "LOWER(p.gender) = LOWER('<value>') or p.gender ILIKE '%<value>%'");
    ("marital_status", "LOWER(p.marital_status) = LOWER('<value>') or p.marital_status ILIKE '%<value>%'");
    ("profession", "LOWER(c.profession) LIKE LOWER('%<value>%') — career_details c only, never master_castes");
    ("city", "LOWER(pl.city) LIKE LOWER('%<value>%') or pl.state ILIKE '%<value>%' — profile_locations pl");
    ("state", "LOWER(pl.state) LIKE LOWER('%<value>%')");
    ("country", "LOWER(pl.country) LIKE LOWER('%<value>%') — profile_locations pl");
    ("work_country", "LOWER(c.work_location) LIKE LOWER('%<value>%') or LOWER(pl.country) LIKE LOWER('%<value>%')");
    ("mother_tongue", "LOWER(p.mother_tongue) LIKE LOWER('%<value>%') — profiles only");
    ("religion", "LOWER(sb.religion) LIKE LOWER('%<value>%') — social_background sb");
    ("caste", "LOWER(sb.caste) LIKE LOWER('%<value>%') or sb.sub_caste ILIKE '%<value>%'");
    ("diet", "LOWER(lh.diet) LIKE LOWER('%<value>%') — lifestyle_habits lh, join ON p.profile_id = lh.profile_id");
    ("smoking", "LOWER(lh.smoking) = LOWER('<value>')");
    ("drinking", "LOWER(lh.drinking) = LOWER('<value>')");
    ("degree_type", "LOWER(ed.degree_type) LIKE LOWER('%<value>%') or ed.specialization ILIKE '%<value>%'");
    ("income", "c.annual_income >= <number> (e.g. 15 LPA = 1500000)");
    ("age", "EXTRACT(YEAR FROM AGE(CURRENT_DATE, p.date_of_birth)) BETWEEN <min> AND <max>");
    ("height", "p.height_cm >= <value> or BETWEEN");
    ("weight", "p.weight_kg <= <value> or BETWEEN");
    ("subscription_plan", "LOWER(us.plan_name) LIKE LOWER('%<value>%') — join users u, user_subscriptions us");
    ("native_place", "LOWER(f.native_place) LIKE LOWER('%<value>%') OR LOWER(uh.place_of_birth) LIKE LOWER('%<value>%') — family_origin f or user_horoscopes uh") ].

(** Normalize intent attribute names so INTENT_TO_SQL and JOIN rules match
    (e.g. location.city becomes city). *)
Definition normalizeIntentAttribute (attr : string) : string :=
  let lower := trim (toLowerCase attr) in
  if String.eqb lower "location.city" || String.eqb lower "location" || String.eqb lower "city"
  then "city"
  else if String.eqb lower "income.value" || String.eqb lower "income"
  then "income"
  else
    let r := trim (replace true (rx "^location\.") EmptyString lower) in
    if truthy r then r else attr.

(** SQL fragment only (before the dash or the example). *)
Definition getSqlPattern (attr : string) : outcome string :=
  match js_get INTENT_TO_SQL attr with
  | Inherited => TypeError              (* raw.split is not a function *)
  | Own raw => Ok (trim (split_head false (rx "\s+—\s+|\s+\(e\.g\.") raw))
  | Missing => Ok (trim (split_head false (rx "\s+—\s+|\s+\(e\.g\.") EmptyString))
  end.

(** Which tables are required for this attribute (alias name). *)
Definition INTENT_TABLES : list (string * list string) :=
  [ ("first_name", []); ("last_name", []); ("gender", []); ("marital_status", []);
    ("mother_tongue", []); ("age", []); ("height", []); ("weight", []);
    ("profession", ["c"]); ("income", ["c"]); ("degree_type", ["ed"]);
    ("work_country", ["c"; "pl"]);
    ("city", ["pl"]); ("state", ["pl"]); ("country", ["pl"]);
    ("religion", ["sb"]); ("caste", ["sb"]);
    ("diet", ["lh"]); ("smoking", ["lh"]); ("drinking", ["lh"]);
    ("native_place", ["f"; "uh"]); ("subscription_plan", ["u"; "us"]) ].

(** [set.add(t)] on a set kept in insertion order. *)
Definition add (t : string) (set : list string) : list string :=
  if has t set then set else (set ++ [t])%list.

Definition push_when (b : bool) (items : list string) (xs : list string) : list string :=
  if b then (xs ++ items)%list else xs.

(** Build SELECT columns for intent (minimal: only tables we join). *)
Definition selectColumnsForIntent (intentAttrs joins : list string) : list string :=
  let cols := ["p.profile_id"; "p.first_name"; "p.last_name"] in
  let cols := push_when (has "pl" joins || has "city" intentAttrs || has "state" intentAttrs
                         || has "country" intentAttrs) ["pl.city"; "pl.state"] cols in
  let cols := if has "c" joins
              then push_when (has "income" intentAttrs) ["c.annual_income"]
                     (push_when (has "profession" intentAttrs) ["c.profession"] cols)
              else cols in
  let cols := push_when (has "sb" joins) ["sb.religion"; "sb.caste"] cols in
  let cols := push_when (has "lh" joins) ["lh.diet"; "lh.smoking"; "lh.drinking"] cols in
  let cols := push_when (has "mother_tongue" intentAttrs) ["p.mother_tongue"] cols in
  let cols := push_when (has "gender" intentAttrs) ["p.gender"] cols in
  let cols := push_when (has "marital_status" intentAttrs) ["p.marital_status"] cols in
  let cols := push_when (has "f" joins) ["f.native_place"] cols in
  let cols := push_when (has "uh" joins) ["uh.place_of_birth"] cols in
  let cols := push_when (has "ed" joins) ["ed.degree_type"] cols in
  cols.

(** The first loop of [buildSqlFromIntent]: the union of the tables of
    every attribute. [tables.forEach] throws when the lookup finds an
    inherited property. *)
Fixpoint collectJoins (normalized : list ExtractedIntent) (joins : list string)
  : outcome (list string) :=
  match normalized with
  | [] => Ok joins
  | i :: more =>
      match js_get INTENT_TABLES (attribute i) with
      | Inherited => TypeError
      | Own tables => collectJoins more (fold_left (fun js t => add t js) tables joins)
      | Missing => collectJoins more joins
      end
  end.

Definition joinLinesFor (joins : list string) : list string :=
  let joinLines : list string := [] in
  let joinLines := push_when (has "pl" joins) ["LEFT JOIN profile_locations pl ON p.profile_id = pl.profile_id"] joinLines in
  let joinLines := push_when (has "c" joins) ["LEFT JOIN career_details c ON p.profile_id = c.profile_id"] joinLines in
  let joinLines := push_when (has "sb" joins) ["LEFT JOIN social_background sb ON p.profile_id = sb.profile_id"] joinLines in
  let joinLines := push_when (has "lh" joins) ["LEFT JOIN lifestyle_habits lh ON p.profile_id = lh.profile_id"] joinLines in
  let joinLines := push_when (has "ed" joins) ["LEFT JOIN education_details ed ON p.profile_id = ed.profile_id"] joinLines in
  let joinLines := push_when (has "f" joins) ["LEFT JOIN family_origin f ON p.profile_id = f.profile_id"] joinLines in
  let joinLines := push_when (has "uh" joins) ["LEFT JOIN user_horoscopes uh ON p.profile_id = uh.profile_id"] joinLines in
  joinLines.

(** [value.replace(/'/g, "''")] *)
Definition escapeQuotes (v : string) : string :=
  replace_all false (rx "'") "''" v.

(** The expression of one intent item, given its non-empty pattern. Numbers
    are naturals rendered in decimal; JavaScript agrees as long as the
    number stays below 2^53 (above, it rounds, and from 1e21 on it switches
    to exponent notation). *)
Definition renderCondition (i : ExtractedIntent) (pattern : string) : string :=
  let attr := attribute i in
  let val := escapeQuotes (value i) in
  let expr :=
    if String.eqb attr "income" then
      let num :=
        match exec true (rx "(\d+)\s*LPA") (value i) with
        | Some m =>
            (parseInt (match group m 1 with Some d => d | None => "0" end) * 100000)%N
        | None => 1000000%N
        end in
      "c.annual_income >= " ++ of_N num
    else if String.eqb attr "age" then
      let range := exec false (rx "(\d+)\s*[-–]\s*(\d+)") (value i) in
      let min := match range with
                 | Some m => match group m 1 with Some d => d | None => "25" end
                 | None => "25" end in
      let max := match range with
                 | Some m => match group m 2 with Some d => d | None => "30" end
                 | None => "30" end in
      "(EXTRACT(YEAR FROM AGE(CURRENT_DATE, p.date_of_birth)) BETWEEN " ++ min ++ " AND " ++ max ++ ")"
    else
      replace_all false (rx "\s+or\s+") " OR "
        (replace_all true (rx "<value>") val
           (replace_all true (rx "%<value>%") ("%" ++ val ++ "%") pattern)) in
  (* Wrap in parentheses if condition contains OR *)
  if includes " OR " expr then "(" ++ expr ++ ")" else expr.

(** The second loop: one condition per intent item that has a pattern;
    an item without one is skipped ([continue]). *)
Fixpoint buildConditions (normalized : list ExtractedIntent) : outcome (list string) :=
  match normalized with
  | [] => Ok []
  | i :: more =>
      match getSqlPattern (attribute i) with
      | TypeError => TypeError
      | Ok pattern =>
          match buildConditions more with
          | TypeError => TypeError
          | Ok conds =>
              if truthy pattern then Ok (renderCondition i pattern :: conds)
              else Ok conds
          end
      end
  end.

Definition normalizeAll (extractedIntent : list ExtractedIntent) : list ExtractedIntent :=
  map (fun i => Intent (normalizeIntentAttribute (attribute i)) (value i)) extractedIntent.

(** Build a SQL query deterministically from extracted intent. *)
Definition buildSqlFromIntent (extractedIntent : list ExtractedIntent) : outcome string :=
  let normalized := normalizeAll extractedIntent in
  if List.length normalized =? 0 then Ok EmptyString else
  let intentAttrs := map attribute normalized in
  match collectJoins normalized [] with
  | TypeError => TypeError
  | Ok joins =>
      let selectCols := selectColumnsForIntent intentAttrs joins in
      let joinLines := joinLinesFor joins in
      match buildConditions normalized with
      | TypeError => TypeError
      | Ok conditions =>
          let whereClause :=
            if 0 <? List.length conditions then " WHERE " ++ join " AND " conditions
            else EmptyString in
          Ok ("SELECT " ++ join ", " selectCols ++ nl ++ "FROM profiles p" ++ nl
              ++ join nl joinLines ++ whereClause ++ nl ++ "LIMIT 50")
      end
  end.

End Planner.

(** ** sql-validator.service.ts *)

Module Validator.
Import JsString Regex Planner.

Record ValidationResult : Type := Result {
  valid : bool;
  sql : string;
  error : option string;
  fixed : option bool          (* [None]: the field is absent *)
}.

(** The query being repaired and the fixes recorded so far. *)
Definition work : Type := (string * list string)%type.

Definition push (fix_ : string) (w : work) (s' : string) : work :=
  (s', (snd w ++ [fix_])%list).

(** 1) Ensure FROM profiles p *)
Definition fixCareerBase (w : work) : work :=
  let s := fst w in
  if test true (rx "\bFROM\s+career_details\s+c\b") s
     && negb (test true (rx "\bFROM\s+profiles\s+p\b") s)
  then push "base table set to profiles p" w
         (replace true (rx "\bFROM\s+career_details\s+c\b")
            ("FROM profiles p" ++ nl ++ "LEFT JOIN career_details c ON p.profile_id = c.profile_id") s)
  else w.

Definition fixLocationBase (w : work) : work :=
  let s := fst w in
  if test true (rx "\bFROM\s+profile_locations\s+pl\b") s
     && negb (test true (rx "\bFROM\s+profiles\s+p\b") s)
  then push "base table set to profiles p" w
         (replace true (rx "\bFROM\s+profile_locations\s+pl\b")
            ("FROM profiles p" ++ nl ++ "LEFT JOIN profile_locations pl ON p.profile_id = pl.profile_id") s)
  else w.

(** The third rewrite of step 1 records no fix. *)
Definition fixMissingAlias (w : work) : work :=
  let s := fst w in
  if test true (rx "\bFROM\s+profiles\b") s
     && negb (test true (rx "\bFROM\s+profiles\s+\w+\s*\n") s)
     && negb (test true (rx "\bFROM\s+profiles\s+p\b") s)
  then
    (replace_fn true (rx "\bFROM\s+profiles\s*(\n|LEFT|JOIN|$)")
       (fun m =>
          if test true (rx "\bFROM\s+profiles\s+p\b") s then m_text m
          else replace true (rx "FROM\s+profiles\s*") "FROM profiles p " (m_text m))
       s,
     snd w)
  else w.

(** 2) Substitute intent values *)
Definition intentValues (extractedIntent : list ExtractedIntent) : list string :=
  map (fun i => escapeQuotes (value i)) extractedIntent.

(** [byAttr]: a later item overwrites an earlier one with the same key. *)
Definition byAttr (extractedIntent : list ExtractedIntent) (key : string) : option string :=
  assoc key (rev (map (fun i => (toLowerCase (attribute i), escapeQuotes (value i)))
                      extractedIntent)).

Definition truthy_opt (v : option string) : bool :=
  match v with Some x => truthy x | None => false end.

Definition text_of (v : option string) : string :=
  match v with Some x => x | None => "undefined" end.

Definition alignCity (extractedIntent : list ExtractedIntent) (w : work) : work :=
  let city := byAttr extractedIntent "city" in
  if truthy_opt city then
    let prev_s := fst w in
    let s :=
      replace_all_fn true (rx "(pl\.city|pl\.state)\s+LIKE\s+LOWER\s*\(\s*'%[^%']+%'\s*\)")
        (fun m => text_of (group m 1) ++ " LIKE LOWER('%" ++ text_of city ++ "%')") prev_s in
    if negb (String.eqb s prev_s) then push "aligned city with intent" w s else (s, snd w)
  else w.

Definition alignProfession (extractedIntent : list ExtractedIntent) (w : work) : work :=
  let profession := byAttr extractedIntent "profession" in
  if truthy_opt profession then
    let prev_s := fst w in
    let pro := text_of profession in
    let s :=
      replace_all_fn true (rx "c\.profession\s+LIKE\s+LOWER\s*\(\s*'%[^%']+%'\s*\)")
        (fun _ => "c.profession LIKE LOWER('%" ++ pro ++ "%')") prev_s in
    let s :=
      replace_all_fn true (rx "LOWER\s*\(\s*c\.profession\s*\)\s+LIKE\s+LOWER\s*\(\s*'%[^%']+%'\s*\)")
        (fun _ => "LOWER(c.profession) LIKE LOWER('%" ++ pro ++ "%')") s in
    if negb (String.eqb s prev_s) then push "aligned profession with intent" w s else (s, snd w)
  else w.

(** [values[idx % values.length]] *)
Definition pick (values : list string) (idx : nat) : string :=
  nth (idx mod List.length values) values "undefined".

Definition substitutePlaceholders (extractedIntent : list ExtractedIntent) (w : work) : work :=
  let values := intentValues extractedIntent in
  let s := fst w in
  if (0 <? List.length values) && (includes "%value%" s || includes "'value'" s) then
    let idx := 0 in
    let '(idx, s) :=
      replace_all_st true (rx "'%value%'")
        (fun idx _ => (S idx, "'%" ++ pick values idx ++ "%'")) idx s in
    let idx := 0 in
    let '(idx, s) :=
      replace_all_st true (rx "%value%")
        (fun idx _ => (S idx, "%" ++ pick values idx ++ "%")) idx s in
    let '(idx, s) :=
      replace_all_st false (rx "'value'")
        (fun idx _ => (S idx, "'" ++ pick values idx ++ "'")) idx s in
    push "substituted intent values for placeholders" w s
  else w.

(** 3) Remove extra closing parenthesis immediately before LIMIT *)
Definition stripParenBeforeLimit (w : work) : work :=
  let s := fst w in
  match exec true (rx "\bLIMIT\s+\d+\s*;?\s*$") s with
  | Some limitMatch =>
      let beforeLimit := take (String.length s - String.length (m_text limitMatch)) s in
      let trimmed := trimEnd beforeLimit in
      if test false (rx "\)\s*\)\s*$") trimmed then
        push "removed extra parenthesis before LIMIT" w
          (replace false (rx "\)\s*\)\s*$") ") " trimmed ++ m_text limitMatch)
      else if test false (rx "\b(AND|OR)\s+[^)]+\)\s*\)\s*$") trimmed then
        push "removed extra parenthesis before LIMIT" w
          (replace false (rx "\)\s*\)\s*$") ") " trimmed ++ m_text limitMatch)
      else w
  | None => w
  end.

(** 4) Remove semicolon before LIMIT *)
Definition stripSemicolonBeforeLimit (w : work) : work :=
  let s := fst w in
  if test true (rx "\;\s*LIMIT\s+\d+") s then
    push "removed semicolon before LIMIT" w
      (replace true (rx "\;\s*(LIMIT\s+\d+)") " $1" s)
  else w.

(** Steps 1 to 4, in the order of the source. *)
Definition applyFixes (extractedIntent : list ExtractedIntent) (s : string) : work :=
  stripSemicolonBeforeLimit
    (stripParenBeforeLimit
       (substitutePlaceholders extractedIntent
          (alignProfession extractedIntent
             (alignCity extractedIntent
                (fixMissingAlias (fixLocationBase (fixCareerBase (s, [])))))))).

Definition was_fixed (fixes : list string) : bool := 0 <? List.length fixes.

Definition reject (w : work) (msg : string) : ValidationResult :=
  Result false (fst w) (Some msg) (Some (was_fixed (snd w))).

Definition accept (w : work) : ValidationResult :=
  Result true (fst w) None (if was_fixed (snd w) then Some true else None).

Definition lowerAttrs (extractedIntent : list ExtractedIntent) : list string :=
  map (fun i => toLowerCase (attribute i)) extractedIntent.

(** [s.replace(/\bWHERE\b/i, `WHERE ${cond} AND (`)] followed by the
    closing parenthesis before LIMIT; or a new WHERE clause before LIMIT. *)
Definition injectCondition (cond : string) (s : string) : string :=
  if test true (rx "\bWHERE\b") s then
    replace_fn true (rx "\s+LIMIT\s+(\d+)\s*$") (fun m => ") " ++ m_text m)
      (replace true (rx "\bWHERE\b") ("WHERE " ++ cond ++ " AND (") s)
  else
    replace true (rx "\s+LIMIT\s+(\d+)\s*$") (" WHERE " ++ cond ++ " $&") s.

Definition nameError : string :=
  "Intent has first_name or last_name but SQL WHERE does not filter by p.first_name or p.last_name. Add WHERE (LOWER(p.first_name) = LOWER('<value>') OR LOWER(p.last_name) = LOWER('<value>')) using the exact value from the intent list.".

Definition ageError : string :=
  "Intent has age but SQL WHERE does not filter by date_of_birth/age. Use (EXTRACT(YEAR FROM AGE(CURRENT_DATE, p.date_of_birth)) BETWEEN min AND max) with the numbers from the intent.".

Definition uhError : string :=
  "SQL uses uh. (e.g. uh.place_of_birth) but has no JOIN user_horoscopes uh. Add LEFT JOIN user_horoscopes uh ON p.profile_id = uh.profile_id.".

Definition fError : string :=
  "SQL uses f. (e.g. f.native_place) but has no JOIN family_origin f. Add LEFT JOIN family_origin f ON p.profile_id = f.profile_id.".

Definition residueError : string :=
  "SQL still contains literal '%value%' or 'value'; replace with actual intent values.".

Definition baseError : string := "Query must start from FROM profiles p.".

(** 8) If SQL uses uh. or f., the corresponding JOIN must exist *)
Definition checkJoins (w : work) : ValidationResult :=
  let s := fst w in
  if test true (rx "\buh\.") s && negb (test true (rx "\bJOIN\s+user_horoscopes\s+uh\b") s)
  then reject w uhError
  else if test true (rx "\bf\.") s && negb (test true (rx "\bJOIN\s+family_origin\s+f\b") s)
  then reject w fError
  else accept w.

(** 7) the age part *)
Definition checkAge (extractedIntent : list ExtractedIntent) (w : work) : ValidationResult :=
  let s := fst w in
  if has "age" (lowerAttrs extractedIntent) then
    let hasAgeInWhere :=
      test true (rx "\bWHERE\b") s
      && (test true (rx "\bdate_of_birth\b") s || test true (rx "\bAGE\s*\(") s
          || test true (rx "\bEXTRACT\s*\(\s*YEAR") s) in
    let ageIntent := find (fun i => String.eqb (toLowerCase (attribute i)) "age") extractedIntent in
    let ageRange :=
      match ageIntent with
      | Some i => exec false (rx "(\d+)\s*[-–]\s*(\d+)") (value i)
      | None => None
      end in
    match hasAgeInWhere, ageRange with
    | false, Some m =>
        let ageCond :=
          "(EXTRACT(YEAR FROM AGE(CURRENT_DATE, p.date_of_birth)) BETWEEN "
          ++ text_of (group m 1) ++ " AND " ++ text_of (group m 2) ++ ")" in
        checkJoins (push "injected age filter from intent" w (injectCondition ageCond s))
    | false, None => reject w ageError
    | true, _ => checkJoins w
    end
  else checkJoins w.

(** 7) the name part *)
Definition checkName (extractedIntent : list ExtractedIntent) (w : work) : ValidationResult :=
  let s := fst w in
  let attrs := lowerAttrs extractedIntent in
  let nameIntent :=
    find (fun i => String.eqb (toLowerCase (attribute i)) "first_name"
                   || String.eqb (toLowerCase (attribute i)) "last_name") extractedIntent in
  let nameValue := option_map (fun i => escapeQuotes (value i)) nameIntent in
  if has "first_name" attrs || has "last_name" attrs then
    let hasNameInWhere :=
      test true (rx "\bWHERE\b") s
      && (test true (rx "\bp\.first_name\b") s || test true (rx "\bp\.last_name\b") s) in
    if negb hasNameInWhere && truthy_opt nameValue then
      let nameCond :=
        "(LOWER(p.first_name) = LOWER('" ++ text_of nameValue
        ++ "') OR LOWER(p.last_name) = LOWER('" ++ text_of nameValue ++ "'))" in
      checkAge extractedIntent
        (push "injected name filter from intent" w (injectCondition nameCond s))
    else if negb hasNameInWhere then reject w nameError
    else checkAge extractedIntent w
  else checkAge extractedIntent w.

(** Steps 5 to 8. *)
Definition checkAll (extractedIntent : list ExtractedIntent) (w : work) : ValidationResult :=
  let s := fst w in
  (* 5) must contain FROM profiles *)
  if negb (test true (rx "\bFROM\s+profiles\b") s) then reject w baseError
  (* 6) remaining placeholder *)
  else if test false (rx "%value%|'value'") s && (0 <? List.length extractedIntent)
  then reject w residueError
  else checkName extractedIntent w.

Definition validateAndFixSql (sql : string) (extractedIntent : list ExtractedIntent)
  : ValidationResult :=
  checkAll extractedIntent (applyFixes extractedIntent (trim sql)).

End Validator.

(** ** executor.service.ts and app.ts: the pipeline and its collaborators *)

Module App.
Import JsString Regex Planner Validator.

(** A result row: column name and rendered value. *)
Definition Row : Type := list (string * string).

(** What a collaborator can throw: an [Error] with its message, or any
    other value, given by its [String(...)] rendering. *)
Inductive Thrown : Type :=
| ErrorObject (message : string)
| OtherValue (rendered : string).

(** What [readonlyDb.raw(sql)] resolves to: a result whose [rows] is an
    array, or a result without such an array. *)
Inductive RawResult : Type :=
| WithRows (rows : list Row)
| WithoutRows.

(** [Record<string, unknown>[] | { error: string }] *)
Inductive ExecResult : Type :=
| Rows (rows : list Row)
| ErrorObj (error : string).

(** The external collaborators, over a world [W] that they read and
    change: schema retrieval, the text generator, the database, the
    optional UI rendering step, JSON reading of the intent reply, and the
    prompt texts (not expanded here). *)
Record Collaborators (W : Type) : Type := {
  (* the context, as JSON.stringify renders it *)
  getRelevantContext : string -> W -> W * (Thrown + string);
  generateText : string -> W -> W * (Thrown + string);
  readonlyDb_raw : string -> W -> W * (Thrown + RawResult);
  getC1ResponseForData : string -> string -> list Row -> W -> W * (Thrown + option string);
  THESYS_API_KEY : bool;
  (* JSON.parse, Array.isArray and the filter on well-formed pairs *)
  parseIntentArray : string -> option (list ExtractedIntent);
  intentPrompt : string -> string;
  sqlPrompt : string -> string -> string;
  correctionPrompt : string -> string -> string -> string -> list ExtractedIntent -> string;
  sqlToSupabaseQuery : string -> string
}.
Arguments getRelevantContext {W}.
Arguments generateText {W}.
Arguments readonlyDb_raw {W}.
Arguments getC1ResponseForData {W}.
Arguments THESYS_API_KEY {W}.
Arguments parseIntentArray {W}.
Arguments intentPrompt {W}.
Arguments sqlPrompt {W}.
Arguments correctionPrompt {W}.
Arguments sqlToSupabaseQuery {W}.

(** Calls observed along a request, oldest first. *)
Inductive Event : Type :=
| Synthesized (sql : string)      (* generateMatrimonialSQL or generateCorrectedSQL returned *)
| Validated (sql : string)        (* validateAndFixSql was applied to it *)
| Executed (sql : string).        (* forwarded to executeMatrimonialQuery *)

Record PState (W : Type) : Type := St {
  world : W;
  events : list Event
}.
Arguments St {W}.
Arguments world {W}.
Arguments events {W}.

(** How a computation ends: with a value, with an exception, or with the
    loop budget of the model used up. *)
Inductive res (A : Type) : Type :=
| Val (a : A)
| Exn (t : Thrown)
| OutOfFuel.
Arguments Val {A} a.
Arguments Exn {A} t.
Arguments OutOfFuel {A}.

Section Pipeline.
Context {W : Type}.
Variable env : Collaborators W.

Definition M (A : Type) : Type := PState W -> PState W * res A.

Definition ret {A : Type} (a : A) : M A := fun st => (st, Val a).

Definition bind {A B : Type} (c : M A) (k : A -> M B) : M B :=
  fun st =>
    match c st with
    | (st1, Val a) => k a st1
    | (st1, Exn t) => (st1, Exn t)
    | (st1, OutOfFuel) => (st1, OutOfFuel)
    end.

Definition throw {A : Type} (t : Thrown) : M A := fun st => (st, Exn t).

Definition tryCatch {A : Type} (c : M A) (handler : Thrown -> M A) : M A :=
  fun st =>
    match c st with
    | (st1, Exn t) => handler t st1
    | other => other
    end.

Definition emit (e : Event) : M unit :=
  fun st => (St (world st) (events st ++ [e])%list, Val tt).

(** [await collaborator(...)] *)
Definition call {A : Type} (f : W -> W * (Thrown + A)) : M A :=
  fun st =>
    match f (world st) with
    | (w1, inr a) => (St w1 (events st), Val a)
    | (w1, inl t) => (St w1 (events st), Exn t)
    end.

Notation "x <- c ;; k" := (bind c (fun x => k))
  (at level 61, c at next level, right associativity).
Notation "c ;;; k" := (bind c (fun _ => k))
  (at level 61, right associativity).

(** *** executor.service.ts *)

Definition executeMatrimonialQuery (sql : string) : M ExecResult :=
  emit (Executed sql) ;;;
  tryCatch
    (result <- call (readonlyDb_raw env sql) ;;
     ret (match result with
          | WithRows rows => Rows rows
          | WithoutRows => Rows []
          end))
    (fun error =>
       match error with
       | ErrorObject message => ret (ErrorObj message)
       | OtherValue _ => ret (ErrorObj "Unknown error occurred")
       end).

(** *** planner.service.ts, the generative part *)

(** [text.replace(/^```\w*\n?|```\s*$/g, '').trim()] *)
Definition stripFences (text : string) : string :=
  trim (replace_all false (rx "^```\w*\n?|```\s*$") EmptyString text).

Definition extractIntentFromQuestion (question : string) : M (list ExtractedIntent) :=
  text <- call (generateText env (intentPrompt env question)) ;;
  let cleaned := stripFences text in
  match parseIntentArray env cleaned with
  | None => ret (fallbackExtractIntent question)
  | Some result =>
      ret (if 0 <? List.length result then result else fallbackExtractIntent question)
  end.

Definition generateMatrimonialSQL (question schemaContext : string)
           (extractedIntent : list ExtractedIntent) : M string :=
  let normalizedIntents := normalizeAll extractedIntent in
  sql <- (if 0 <? List.length normalizedIntents then
            match buildSqlFromIntent extractedIntent with
            | Ok sql => ret sql
            | TypeError => throw (ErrorObject "tables.forEach is not a function")
            end
          else
            text <- call (generateText env (sqlPrompt env question schemaContext)) ;;
            ret (stripFences text)) ;;
  emit (Synthesized sql) ;;;
  ret sql.

Definition generateCorrectedSQL (question schemaContext previousSql executionError : string)
           (extractedIntent : list ExtractedIntent) : M string :=
  text <- call (generateText env
                  (correctionPrompt env question schemaContext previousSql executionError
                                    extractedIntent)) ;;
  emit (Synthesized (stripFences text)) ;;;
  ret (stripFences text).

(** *** app.ts *)

(** The JSON body of a response with its status code. [None] is an absent
    field. The fields [results] (a copy of [data]) and [token_usage]
    (telemetry) are left out. *)
Record Response : Type := Resp {
  status : nat;
  success : option bool;
  generated_sql : option string;
  executed_sql : option string;
  supabase_query : option string;
  resp_error : option string;
  detail : option string;
  extracted_intent : option (list ExtractedIntent);
  data : option (list Row);
  row_count : option nat;
  c1_response : option string
}.

Definition emptyResponse (code : nat) : Response :=
  Resp code None None None None None None None None None None.

Definition MAX_CORRECTION_ATTEMPTS : nat := 3.

(** ['error' in results && results.error] *)
Definition failing (results : ExecResult) : option string :=
  match results with
  | ErrorObj e => if truthy e then Some e else None
  | Rows _ => None
  end.

(** [Array.isArray(results) ? results : []] *)
Definition rowsOf (results : ExecResult) : list Row :=
  match results with
  | Rows rows => rows
  | ErrorObj _ => []
  end.

Definition missingWhere : string :=
  "Missing WHERE clause. Add a WHERE clause with one condition per extracted intent (e.g. profession â†’ c.profession, city â†’ pl.city, income â†’ c.annual_income, religion â†’ sb.religion, caste â†’ sb.caste, mother_tongue â†’ p.mother_tongue). Use only JOINs needed for those filters.".

(** [validateAndFixSql] followed by execution unless validation failed. *)
Definition validated (sql : string) (extractedIntent : list ExtractedIntent)
  : M ValidationResult :=
  emit (Validated sql) ;;;
  ret (validateAndFixSql sql extractedIntent).

Definition rejected (v : ValidationResult) : option string :=
  if negb (valid v) then
    match error v with
    | Some e => if truthy e then Some e else None
    | None => None
    end
  else None.

(** The state of the correction loop: [sql], [results], [attempts]. *)
Definition LoopState : Type := (string * ExecResult * nat)%type.

(** The [while] loop of the handler; [fuel] bounds the iterations the
    model may unfold. *)
Fixpoint correctionLoop (fuel : nat) (question schemaContext : string)
         (extractedIntent : list ExtractedIntent) (ls : LoopState) : M LoopState :=
  let '(sql, results, attempts) := ls in
  match failing results with
  | Some err =>
      if attempts <? MAX_CORRECTION_ATTEMPTS then
        match fuel with
        | 0 => fun st => (st, OutOfFuel)
        | S fuel' =>
            corrected <- generateCorrectedSQL question schemaContext sql err extractedIntent ;;
            revalidate <- validated corrected extractedIntent ;;
            let sql := Validator.sql revalidate in
            results <- match rejected revalidate with
                       | Some e => ret (ErrorObj e)
                       | None => executeMatrimonialQuery sql
                       end ;;
            correctionLoop fuel' question schemaContext extractedIntent
                           (sql, results, S attempts)
        end
      else ret ls
  | None => ret ls
  end.

Definition rateLimitMessage : string :=
  "Gemini API rate limit or quota exceeded. Wait a minute and retry, or check your plan at https://ai.google.dev/gemini-api/docs/rate-limits".

(** The body of the [try] block of POST /api/ask. The two calls under
    [Promise.all] are taken in the order they are listed. *)
Definition askBody (fuel : nat) (question : string) : M Response :=
  context <- call (getRelevantContext env question) ;;
  extracted_intent <- extractIntentFromQuestion question ;;
  let schemaContext := context in
  sql <- generateMatrimonialSQL question schemaContext extracted_intent ;;
  validation <- validated sql extracted_intent ;;
  let sql := Validator.sql validation in
  results <- match rejected validation with
             | Some e => ret (ErrorObj e)
             | None =>
                 if (0 <? List.length extracted_intent) && negb (test true (rx "\bWHERE\b") sql)
                 then ret (ErrorObj missingWhere)
                 else executeMatrimonialQuery sql
             end ;;
  let attempts := 1 in
  final <- correctionLoop fuel question schemaContext extracted_intent (sql, results, attempts) ;;
  let '(sql, results, attempts) := final in
  match failing results with
  | Some err =>
      ret (Resp 422 (Some false) (Some sql) None (Some (sqlToSupabaseQuery env sql))
                (Some err) None (Some extracted_intent) None None None)
  | None =>
      let rows := rowsOf results in
      c1 <- (if THESYS_API_KEY env
             then call (getC1ResponseForData env question sql rows)
             else ret None) ;;
      ret (Resp 200 (Some true) (Some sql) None (Some (sqlToSupabaseQuery env sql))
                None None (Some extracted_intent) (Some rows) (Some (List.length rows))
                (match c1 with
                 | Some txt => if truthy txt then Some txt else None
                 | None => None
                 end))
  end.

Definition messageOf (t : Thrown) : string :=
  match t with
  | ErrorObject message => message
  | OtherValue rendered => rendered
  end.

(** POST /api/ask *)
Definition askHandler (fuel : nat) (question : string) : M Response :=
  if negb (truthy question) then
    ret (Resp 400 None None None None
              (Some "Please provide a matrimonial search question.")
              None None None None None)
  else
    tryCatch (askBody fuel question)
      (fun error =>
         let message := messageOf error in
         let isRateLimit := test true (rx "429|quota|rate limit|Too Many Requests") message in
         if isRateLimit then
           ret (Resp 429 (Some false) None None None (Some rateLimitMessage)
                     (Some (take 500 message)) None None None None)
         else
           ret (Resp 500 (Some false) None None None
                     (Some "Failed to process your request. Our AI is learning!")
                     (Some message) None None None None)).

(** The [sql] field of the body of POST /api/execute. *)
Inductive BodyField : Type :=
| Absent
| Text (s : string)
| NotText.

Definition dq : string := String (ascii_of_nat 34) EmptyString.

(** POST /api/execute *)
Definition executeHandler (rawSql : BodyField) : M Response :=
  match rawSql with
  | Text raw =>
      if negb (truthy raw) then
        ret (Resp 400 None None None None
                  (Some ("Please provide " ++ dq ++ "sql" ++ dq ++ " in the request body."))
                  None None None None None)
      else
        let sql := trim raw in
        if negb (test true (rx "^\s*SELECT\s+") sql) then
          ret (Resp 400 None None None None
                    (Some "Only SELECT queries are allowed. Use /api/ask for natural language.")
                    None None None None None)
        else
          tryCatch
            (results <- executeMatrimonialQuery sql ;;
             match failing results with
             | Some err =>
                 ret (Resp 422 (Some false) None (Some sql) None (Some err)
                           None None None None None)
             | None =>
                 let rows := rowsOf results in
                 ret (Resp 200 (Some true) None (Some sql) None None None None
                           (Some rows) (Some (List.length rows)) None)
             end)
            (fun error =>
               ret (Resp 500 (Some false) None None None (Some "Failed to execute query.")
                         (Some (messageOf error)) None None None None))
  | _ =>
      ret (Resp 400 None None None None
                (Some ("Please provide " ++ dq ++ "sql" ++ dq ++ " in the request body."))
                None None None None None)
  end.

End Pipeline.

End App.

(** ** Concrete collaborators, for running the handlers *)

Module Scenario.
Import JsString Regex Planner Validator App.

(** Collaborators that always behave the same way: the schema service
    answers [ctx], the text generator answers [llm] to every prompt and its
    reply is never a JSON array of intents, the database answers [db]. *)
Definition fixedEnv (ctx : Thrown + string) (llm : Thrown + string)
           (db : Thrown + RawResult) : Collaborators unit :=
  {| getRelevantContext := fun _ w => (w, ctx);
     generateText := fun _ w => (w, llm);
     readonlyDb_raw := fun _ w => (w, db);
     getC1ResponseForData := fun _ _ _ w => (w, inr None);
     THESYS_API_KEY := false;
     parseIntentArray := fun _ => None;
     intentPrompt := fun q => q;
     sqlPrompt := fun q _ => q;
     correctionPrompt := fun q _ _ _ _ => q;
     sqlToSupabaseQuery := fun sql => sql |}.

Definition start : PState unit := St tt [].

(** The generator keeps returning a query the database refuses. *)
Definition alwaysFailing : Collaborators unit :=
  fixedEnv (inr "[]") (inr "SELECT * FROM profiles p LIMIT 50")
           (inl (ErrorObject "relation does not exist")).

(** The generator returns a statement that is not a SELECT. *)
Definition deleting : Collaborators unit :=
  fixedEnv (inr "[]") (inr "DELETE FROM profiles p") (inr (WithRows [])).

(** The schema service is down. *)
Definition contextDown : Collaborators unit :=
  fixedEnv (inl (ErrorObject "connect ECONNREFUSED")) (inr "SELECT 1")
           (inr (WithRows [])).

End Scenario.

(** * Properties *)

(** ** The execution gateway and the correction loop *)

Module AppFacts.
Import JsString Regex Planner Validator App.

Section Logic.
Context {W : Type}.
Variable env : Collaborators W.

(** A triple over the event log: from a log satisfying [P], the
    computation ends with a value and a log satisfying [Q], or with an
    exception and a log satisfying [E]; it does not run out of fuel. *)
Definition triple {A : Type} (P : list Event -> Prop) (c : @M W A)
           (Q : A -> list Event -> Prop) (E : Thrown -> list Event -> Prop) : Prop :=
  forall st, P (events st) ->
    match c st with
    | (st', Val a) => Q a (events st')
    | (st', Exn t) => E t (events st')
    | (_, OutOfFuel) => False
    end.

Lemma triple_ret {A : Type} (a : A) (Q : A -> list Event -> Prop) E :
  triple (Q a) (@ret W A a) Q E.
Proof. intros st H. exact H. Qed.

Lemma triple_throw {A : Type} (t : Thrown) (Q : A -> list Event -> Prop)
      (E : Thrown -> list Event -> Prop) :
  triple (E t) (@throw W A t) Q E.
Proof. intros st H. exact H. Qed.

Lemma triple_bind {A B : Type} P (c : @M W A) (k : A -> @M W B) R Q E :
  triple P c R E ->
  (forall a, triple (R a) (k a) Q E) ->
  triple P (bind c k) Q E.
Proof.
  intros Hc Hk st HP. unfold bind.
  specialize (Hc st HP).
  destruct (c st) as [st1 [a | t |]]; auto.
  apply Hk. exact Hc.
Qed.

Lemma triple_conseq {A : Type} (P P' : list Event -> Prop) (c : @M W A)
      (Q Q' : A -> list Event -> Prop) (E E' : Thrown -> list Event -> Prop) :
  triple P' c Q' E' ->
  (forall evs, P evs -> P' evs) ->
  (forall a evs, Q' a evs -> Q a evs) ->
  (forall t evs, E' t evs -> E t evs) ->
  triple P c Q E.
Proof.
  intros Hc HP HQ HE st H.
  specialize (Hc st (HP _ H)).
  destruct (c st) as [st1 [a | t |]]; auto.
Qed.

(** A collaborator leaves the log as it is. *)
Lemma triple_call {A : Type} (f : W -> W * (Thrown + A)) (P : list Event -> Prop) :
  triple P (call f) (fun _ => P) (fun _ => P).
Proof.
  intros st H. unfold call.
  destruct (f (world st)) as [w1 [t | a]]; exact H.
Qed.

Lemma triple_emit (e : Event) (Q : unit -> list Event -> Prop) E :
  triple (fun evs => Q tt (evs ++ [e])%list) (@emit W e) Q E.
Proof. intros st H. exact H. Qed.

Lemma triple_catch {A : Type} P (c : @M W A) (h : Thrown -> @M W A) Q E' E :
  triple P c Q E' ->
  (forall t, triple (E' t) (h t) Q E) ->
  triple P (tryCatch c h) Q E.
Proof.
  intros Hc Hh st HP. unfold tryCatch.
  specialize (Hc st HP).
  destruct (c st) as [st1 [a | t |]]; auto.
  apply Hh. exact Hc.
Qed.

End Logic.

(** Counting the calls of each kind in a log. *)
Definition isSynthesized (e : Event) : bool :=
  match e with Synthesized _ => true | _ => false end.
Definition isValidated (e : Event) : bool :=
  match e with Validated _ => true | _ => false end.
Definition isExecuted (e : Event) : bool :=
  match e with Executed _ => true | _ => false end.

Definition count (kind : Event -> bool) (evs : list Event) : nat :=
  List.length (filter kind evs).

Lemma count_app kind (a b : list Event) :
  count kind (a ++ b) = count kind a + count kind b.
Proof. unfold count. rewrite filter_app, length_app. reflexivity. Qed.

(** [base] extended by at most [s] syntheses, [v] validations and [e]
    executions. *)
Definition within (base : list Event) (s v e : nat) (evs : list Event) : Prop :=
  exists new, evs = (base ++ new)%list
    /\ count isSynthesized new <= s
    /\ count isValidated new <= v
    /\ count isExecuted new <= e.

Lemma within_refl base : within base 0 0 0 base.
Proof. exists []. rewrite app_nil_r. cbn. auto. Qed.

Lemma within_mono base s v e s' v' e' evs :
  within base s v e evs -> s <= s' -> v <= v' -> e <= e' -> within base s' v' e' evs.
Proof. intros (new & -> & ? & ? & ?) ? ? ?. exists new. repeat split; lia. Qed.

Lemma within_snoc base s v e evs ev :
  within base s v e evs ->
  within base (s + count isSynthesized [ev]) (v + count isValidated [ev])
         (e + count isExecuted [ev]) (evs ++ [ev]).
Proof.
  intros (new & -> & ? & ? & ?). exists (new ++ [ev])%list.
  rewrite app_assoc, !count_app. repeat split; lia.
Qed.

Lemma within_step base s v e evs ev s' v' e' :
  within base s v e evs ->
  s + count isSynthesized [ev] <= s' ->
  v + count isValidated [ev] <= v' ->
  e + count isExecuted [ev] <= e' ->
  within base s' v' e' (evs ++ [ev]).
Proof.
  intros H ? ? ?. eapply within_mono; [apply within_snoc; exact H | lia ..].
Qed.

(** What one call of [executeMatrimonialQuery] does. *)
Lemma executeMatrimonialQuery_run {W : Type} (env : Collaborators W) sql (st : PState W) :
  executeMatrimonialQuery env sql st =
  (St (fst (readonlyDb_raw env sql (world st))) (events st ++ [Executed sql]),
   Val (match snd (readonlyDb_raw env sql (world st)) with
        | inr (WithRows rows) => Rows rows
        | inr WithoutRows => Rows []
        | inl (ErrorObject message) => ErrorObj message
        | inl (OtherValue _) => ErrorObj "Unknown error occurred"
        end)).
Proof.
  unfold executeMatrimonialQuery, bind, tryCatch, emit, call, ret. cbn.
  destruct (readonlyDb_raw env sql (world st)) as [w1 [[m | o] | [rows |]]]; reflexivity.
Qed.

Section Bounds.
Context {W : Type}.
Variable env : Collaborators W.
Variable base : list Event.

Local Abbreviation MAX := MAX_CORRECTION_ATTEMPTS.

(** The logs a request may reach: at most [MAX] calls of each kind. *)
Definition ceiling (evs : list Event) : Prop := within base MAX MAX MAX evs.

Ltac widen H := eapply within_mono; [exact H | unfold MAX_CORRECTION_ATTEMPTS in *; lia ..].
Ltac grow H :=
  eapply within_step; [exact H | cbn; unfold MAX_CORRECTION_ATTEMPTS in *; lia ..].

Lemma executeMatrimonialQuery_within s v e sql :
  triple (within base s v e) (executeMatrimonialQuery env sql)
         (fun _ => within base s v (S e)) (fun _ _ => False).
Proof.
  intros st H. rewrite executeMatrimonialQuery_run. cbn. grow H.
Qed.

Lemma generateCorrectedSQL_within s v e question ctx prevSql err intent :
  S s <= MAX -> v <= MAX -> e <= MAX ->
  triple (within base s v e)
         (generateCorrectedSQL env question ctx prevSql err intent)
         (fun _ => within base (S s) v e) (fun _ => ceiling).
Proof.
  intros Hs Hv He st H.
  unfold generateCorrectedSQL, bind, call, emit, ret.
  destruct (generateText env _ (world st)) as [w1 [t | text]]; cbn.
  - widen H.
  - grow H.
Qed.

Lemma generateMatrimonialSQL_within s v e question ctx intent :
  S s <= MAX -> v <= MAX -> e <= MAX ->
  triple (within base s v e)
         (generateMatrimonialSQL env question ctx intent)
         (fun _ => within base (S s) v e) (fun _ => ceiling).
Proof.
  intros Hs Hv He st H.
  unfold generateMatrimonialSQL, bind, call, emit, ret, throw.
  destruct (0 <? List.length (normalizeAll intent)).
  - destruct (buildSqlFromIntent intent); cbn.
    + grow H.
    + widen H.
  - destruct (generateText env _ (world st)) as [w1 [t | text]]; cbn.
    + widen H.
    + grow H.
Qed.

Lemma validated_within s v e sql intent :
  triple (within base s v e) (validated (W := W) sql intent)
         (fun _ => within base s (S v) e) (fun _ _ => False).
Proof.
  intros st H. unfold validated, bind, emit, ret. cbn. grow H.
Qed.

Lemma extractIntentFromQuestion_within s v e question :
  s <= MAX -> v <= MAX -> e <= MAX ->
  triple (within base s v e) (extractIntentFromQuestion env question)
         (fun _ => within base s v e) (fun _ => ceiling).
Proof.
  intros Hs Hv He st H.
  unfold extractIntentFromQuestion, bind, call, ret.
  destruct (generateText env _ (world st)) as [w1 [t | text]]; cbn.
  - widen H.
  - destruct (parseIntentArray env (stripFences text)); exact H.
Qed.

(** One attempt of the loop body after the corrective synthesis: the
    validation, then the execution unless the query was rejected. *)
Definition attemptAfter (v : ValidationResult) : M ExecResult :=
  match rejected v with
  | Some e => ret (ErrorObj e)
  | None => executeMatrimonialQuery env (Validator.sql v)
  end.

Lemma attemptAfter_within s v e r :
  triple (within base s v e) (attemptAfter r)
         (fun _ => within base s v (S e)) (fun _ _ => False).
Proof.
  unfold attemptAfter. destruct (rejected r).
  - intros st H. cbn. widen H.
  - apply executeMatrimonialQuery_within.
Qed.

(** The loop: entered with [attempts] calls of each kind at most, it ends
    with at most [MAX] of each, for any fuel that covers the attempts
    left. *)
Lemma correctionLoop_within fuel :
  forall question ctx intent sql results attempts,
    attempts <= MAX -> MAX <= fuel + attempts ->
    triple (within base attempts attempts attempts)
           (correctionLoop env fuel question ctx intent (sql, results, attempts))
           (fun ls evs => ceiling evs /\ snd ls <= MAX) (fun _ => ceiling).
Proof.
  induction fuel as [| fuel IH]; intros question ctx intent sql results attempts Hle Hfuel.
  - cbn [correctionLoop]. destruct (failing results) as [err |].
    + destruct (attempts <? MAX) eqn:Hlt.
      * apply Nat.ltb_lt in Hlt. lia.
      * intros st H. cbn. split; [widen H | exact Hle].
    + intros st H. cbn. split; [widen H | exact Hle].
  - cbn [correctionLoop]. destruct (failing results) as [err |].
    + destruct (attempts <? MAX) eqn:Hlt.
      * apply Nat.ltb_lt in Hlt.
        eapply triple_bind with (R := fun _ => within base (S attempts) attempts attempts).
        { apply generateCorrectedSQL_within; lia. }
        intros corrected.
        eapply triple_bind with (R := fun _ => within base (S attempts) (S attempts) attempts).
        { eapply triple_conseq;
            [apply validated_within | intros evs H; exact H | intros a evs H; exact H
            | intros t evs []]. }
        intros revalidate.
        eapply triple_bind
          with (R := fun _ => within base (S attempts) (S attempts) (S attempts)).
        { eapply triple_conseq;
            [apply (attemptAfter_within (S attempts) (S attempts) attempts revalidate)
            | intros evs H; exact H | intros a evs H; exact H | intros t evs []]. }
        intros results'. apply IH; lia.
      * intros st H. cbn. split; [widen H | exact Hle].
    + intros st H. cbn. split; [widen H | exact Hle].
Qed.

Lemma askBody_within fuel question :
  MAX <= S fuel ->
  triple (within base 0 0 0) (askBody env fuel question)
         (fun _ => ceiling) (fun _ => ceiling).
Proof.
  intros Hfuel. unfold askBody.
  eapply triple_bind with (R := fun _ => within base 0 0 0).
  { eapply triple_conseq; [apply triple_call | intros evs H; exact H | intros a evs H; exact H |].
    intros t evs H. widen H. }
  intros context. eapply triple_bind with (R := fun _ => within base 0 0 0).
  { apply extractIntentFromQuestion_within; unfold MAX_CORRECTION_ATTEMPTS; lia. }
  intros intent. eapply triple_bind with (R := fun _ => within base 1 0 0).
  { apply generateMatrimonialSQL_within; unfold MAX_CORRECTION_ATTEMPTS; lia. }
  intros sql. eapply triple_bind with (R := fun _ => within base 1 1 0).
  { eapply triple_conseq;
      [apply validated_within | intros evs H; exact H | intros a evs H; exact H
      | intros t evs []]. }
  intros validation. eapply triple_bind with (R := fun _ => within base 1 1 1).
  { destruct (rejected validation).
    - intros st H. cbn. widen H.
    - destruct ((0 <? List.length intent)
                && negb (test true (rx "\bWHERE\b") (Validator.sql validation))).
      + intros st H. cbn. widen H.
      + eapply triple_conseq;
          [apply executeMatrimonialQuery_within
          | intros evs H; exact H | intros a evs H; exact H | intros t evs []]. }
  intros results.
  eapply triple_bind with (R := fun ls evs => ceiling evs /\ snd ls <= MAX).
  { apply correctionLoop_within; unfold MAX_CORRECTION_ATTEMPTS in *; lia. }
  intros [[sql' results'] attempts'].
  destruct (failing results') as [err |].
  - intros st [H _]. exact H.
  - eapply triple_bind with (R := fun _ => ceiling).
    + destruct (THESYS_API_KEY env).
      * eapply triple_conseq;
          [apply triple_call with (P := ceiling)
          | | intros a evs H; exact H | intros t evs H; exact H].
        intros evs [H _]. exact H.
      * intros st [H _]. exact H.
    + intros c1 st H. exact H.
Qed.

Lemma askHandler_within fuel question :
  MAX <= S fuel ->
  triple (within base 0 0 0) (askHandler env fuel question)
         (fun _ => ceiling) (fun _ _ => False).
Proof.
  intros Hfuel. unfold askHandler.
  destruct (negb (truthy question)).
  - intros st H. cbn. widen H.
  - eapply triple_catch with (E' := fun _ => ceiling);
      [apply askBody_within; exact Hfuel |].
    intros t.
    destruct (test true (rx "429|quota|rate limit|Too Many Requests") (messageOf t));
      intros st H; exact H.
Qed.

End Bounds.

(** C10. [executeMatrimonialQuery] returns for every query and every
    behaviour of the database, and never throws: the rows when the result
    carries an array of rows, the empty array when it carries none, the
    message of a thrown [Error], and a fixed message for any other thrown
    value. *)
Theorem executeMatrimonialQuery_total :
  forall (W : Type) (env : Collaborators W) (sql : string) (st : PState W),
    executeMatrimonialQuery env sql st =
    (St (fst (readonlyDb_raw env sql (world st))) (events st ++ [Executed sql]),
     Val (match snd (readonlyDb_raw env sql (world st)) with
          | inr (WithRows rows) => Rows rows
          | inr WithoutRows => Rows []
          | inl (ErrorObject message) => ErrorObj message
          | inl (OtherValue _) => ErrorObj "Unknown error occurred"
          end)).
Proof.
  intros W env sql st. apply executeMatrimonialQuery_run.
Qed.

(** C2. The handler of POST /api/ask returns a response for every
    question and every behaviour of its collaborators, whenever the fuel
    covers the [MAX_CORRECTION_ATTEMPTS - 1] iterations the loop can make;
    the request adds at most [MAX_CORRECTION_ATTEMPTS] syntheses, as many
    validations and as many executions to the log. *)
Theorem askHandler_halts_within_max_attempts :
  forall (W : Type) (env : Collaborators W) (fuel : nat) (question : string) (st : PState W),
    MAX_CORRECTION_ATTEMPTS <= S fuel ->
    exists st' resp,
      askHandler env fuel question st = (st', Val resp)
      /\ within (events st) MAX_CORRECTION_ATTEMPTS MAX_CORRECTION_ATTEMPTS
                MAX_CORRECTION_ATTEMPTS (events st').
Proof.
  intros W env fuel question st Hfuel.
  pose proof (askHandler_within env (events st) fuel question Hfuel st (within_refl _)) as H.
  destruct (askHandler env fuel question st) as [st' [resp | t |]].
  - exists st', resp. split; [reflexivity | exact H].
  - destruct H.
  - destruct H.
Qed.

Lemma askHandler_halts_witness :
  exists st' resp,
    askHandler Scenario.alwaysFailing 2 "show everyone" Scenario.start = (st', Val resp)
    /\ within (events Scenario.start) MAX_CORRECTION_ATTEMPTS MAX_CORRECTION_ATTEMPTS
              MAX_CORRECTION_ATTEMPTS (events st').
Proof.
  exact (askHandler_halts_within_max_attempts unit Scenario.alwaysFailing 2
           "show everyone" Scenario.start (le_n 3)).
Defined.

(** *** What a request forwards to the database, and what a failure
    response carries *)

(** The guard of POST /api/execute. *)
Definition selectGuard (q : string) : Prop :=
  test true (rx "^\s*SELECT\s+") q = true.

(** [q] is the text returned by a validation that accepted it. *)
Definition passedValidation (q : string) : Prop :=
  exists raw intent,
    q = Validator.sql (validateAndFixSql raw intent)
    /\ valid (validateAndFixSql raw intent) = true.

(** Every query executed since [base] satisfies [ok]. *)
Definition executedOnly (ok : string -> Prop) (base evs : list Event) : Prop :=
  forall q, In (Executed q) evs -> In (Executed q) base \/ ok q.

(** The text handed to the validator by the latest attempt. *)
Definition lastAttempt (evs : list Event) : option string :=
  fold_left (fun acc e => match e with Validated q => Some q | _ => acc end) evs None.

(** [sql] is what the validator returned for the latest attempt. *)
Definition carries (intent : list ExtractedIntent) (sql : string) (evs : list Event) : Prop :=
  exists raw, lastAttempt evs = Some raw
              /\ sql = Validator.sql (validateAndFixSql raw intent).

Lemma lastAttempt_snoc evs e :
  lastAttempt (evs ++ [e]) =
  match e with Validated q => Some q | _ => lastAttempt evs end.
Proof. unfold lastAttempt. rewrite fold_left_app. destruct e; reflexivity. Qed.

Lemma executedOnly_refl ok base : executedOnly ok base base.
Proof. intros q H. left. exact H. Qed.

Lemma executedOnly_snoc ok base evs e :
  executedOnly ok base evs ->
  (forall q, e = Executed q -> ok q) ->
  executedOnly ok base (evs ++ [e]).
Proof.
  intros H He q Hin. apply in_app_or in Hin. destruct Hin as [Hin | [Heq | []]].
  - apply H. exact Hin.
  - right. apply He. exact Heq.
Qed.

(** A rejection always comes with a message. *)
Definition decided (r : ValidationResult) : Prop :=
  valid r = true \/ exists e, error r = Some e /\ truthy e = true.

Lemma checkJoins_decided w : decided (checkJoins w).
Proof.
  unfold checkJoins.
  destruct (_ && _); [right; eexists; split; reflexivity |].
  destruct (_ && _); [right; eexists; split; reflexivity |].
  left. reflexivity.
Qed.

Lemma checkAge_decided intent w : decided (checkAge intent w).
Proof.
  unfold checkAge.
  destruct (has "age" (lowerAttrs intent)); [| apply checkJoins_decided].
  destruct (_ && _); [apply checkJoins_decided |].
  destruct (match find _ intent with Some _ => _ | None => _ end).
  - apply checkJoins_decided.
  - right. eexists. split; reflexivity.
Qed.

Lemma checkName_decided intent w : decided (checkName intent w).
Proof.
  unfold checkName.
  destruct (_ || _); [| apply checkAge_decided].
  destruct (negb _ && _); [apply checkAge_decided |].
  destruct (negb _); [| apply checkAge_decided].
  right. eexists. split; reflexivity.
Qed.

Lemma validateAndFixSql_decided q intent : decided (validateAndFixSql q intent).
Proof.
  unfold validateAndFixSql, checkAll.
  destruct (negb _); [right; eexists; split; reflexivity |].
  destruct (_ && _); [right; eexists; split; reflexivity |].
  apply checkName_decided.
Qed.

Lemma rejected_none_valid q intent :
  rejected (validateAndFixSql q intent) = None ->
  valid (validateAndFixSql q intent) = true.
Proof.
  intros H. destruct (validateAndFixSql_decided q intent) as [Hv | (e & He & Ht)]; [exact Hv |].
  unfold rejected in H. destruct (valid (validateAndFixSql q intent)); [reflexivity |].
  cbn in H. rewrite He, Ht in H. discriminate.
Qed.

Section Tracking.
Context {W : Type}.
Variable env : Collaborators W.
Variable base : list Event.

Local Abbreviation MAX := MAX_CORRECTION_ATTEMPTS.

Definition sound (evs : list Event) : Prop := executedOnly passedValidation base evs.

Definition tracked (intent : list ExtractedIntent) (sql : string) (evs : list Event) : Prop :=
  sound evs /\ carries intent sql evs.

Ltac other_event H :=
  apply executedOnly_snoc; [exact H | intros q Hq; discriminate Hq].

Lemma generateCorrectedSQL_tracked intent sql question ctx prevSql err :
  triple (tracked intent sql)
         (generateCorrectedSQL env question ctx prevSql err intent)
         (fun _ => tracked intent sql) (fun _ => sound).
Proof.
  intros st [Hs Hc].
  unfold generateCorrectedSQL, bind, call, emit, ret.
  destruct (generateText env _ (world st)) as [w1 [t | text]]; cbn.
  - exact Hs.
  - split; [other_event Hs |].
    destruct Hc as (raw & Hl & Heq). exists raw. rewrite lastAttempt_snoc. auto.
Qed.

Lemma generateMatrimonialSQL_sound question ctx intent :
  triple sound (generateMatrimonialSQL env question ctx intent)
         (fun _ => sound) (fun _ => sound).
Proof.
  intros st Hs.
  unfold generateMatrimonialSQL, bind, call, emit, ret, throw.
  destruct (0 <? List.length (normalizeAll intent)).
  - destruct (buildSqlFromIntent intent); cbn; [other_event Hs | exact Hs].
  - destruct (generateText env _ (world st)) as [w1 [t | text]]; cbn;
      [exact Hs | other_event Hs].
Qed.

Lemma extractIntentFromQuestion_sound question :
  triple sound (extractIntentFromQuestion env question) (fun _ => sound) (fun _ => sound).
Proof.
  intros st Hs.
  unfold extractIntentFromQuestion, bind, call, ret.
  destruct (generateText env _ (world st)) as [w1 [t | text]]; cbn; [exact Hs |].
  destruct (parseIntentArray env (stripFences text)); exact Hs.
Qed.

Lemma validated_tracked raw intent :
  triple sound (validated (W := W) raw intent)
         (fun v evs => v = validateAndFixSql raw intent /\ tracked intent (Validator.sql v) evs)
         (fun _ _ => False).
Proof.
  intros st Hs. unfold validated, bind, emit, ret. cbn.
  split; [reflexivity |]. split; [other_event Hs |].
  exists raw. rewrite lastAttempt_snoc. auto.
Qed.

Lemma executeMatrimonialQuery_tracked intent sql :
  passedValidation sql ->
  triple (tracked intent sql) (executeMatrimonialQuery env sql)
         (fun _ => tracked intent sql) (fun _ _ => False).
Proof.
  intros Hok st [Hs Hc]. rewrite executeMatrimonialQuery_run. cbn. split.
  - apply executedOnly_snoc; [exact Hs |]. intros q Hq. injection Hq as <-. exact Hok.
  - destruct Hc as (raw & Hl & Heq). exists raw. rewrite lastAttempt_snoc. auto.
Qed.

Lemma correctionLoop_tracked fuel :
  forall question ctx intent sql results attempts,
    MAX <= fuel + attempts ->
    triple (tracked intent sql)
           (correctionLoop env fuel question ctx intent (sql, results, attempts))
           (fun ls => tracked intent (fst (fst ls))) (fun _ => sound).
Proof.
  induction fuel as [| fuel IH]; intros question ctx intent sql results attempts Hfuel.
  - cbn [correctionLoop]. destruct (failing results) as [err |].
    + destruct (attempts <? MAX) eqn:Hlt.
      * apply Nat.ltb_lt in Hlt. lia.
      * intros st H. exact H.
    + intros st H. exact H.
  - cbn [correctionLoop]. destruct (failing results) as [err |].
    + destruct (attempts <? MAX) eqn:Hlt.
      * eapply triple_bind with (R := fun _ => tracked intent sql).
        { apply generateCorrectedSQL_tracked. }
        intros corrected.
        eapply triple_bind
          with (R := fun v evs => v = validateAndFixSql corrected intent
                                  /\ tracked intent (Validator.sql v) evs).
        { eapply triple_conseq;
            [apply validated_tracked | intros evs [H _]; exact H | intros a evs H; exact H
            | intros t evs []]. }
        intros revalidate.
        eapply triple_bind with (R := fun _ => tracked intent (Validator.sql revalidate)).
        { destruct (rejected revalidate) eqn:Hrej.
          - intros st [_ H]. exact H.
          - eapply triple_conseq with (P' := fun evs => revalidate = validateAndFixSql corrected intent /\ tracked intent (Validator.sql revalidate) evs).
            2: { intros evs H; exact H. }
            2: { intros a evs H; exact H. }
            2: { intros t evs H; exact H. }
            intros st [Heq H]. revert st H.
            change (triple (tracked intent (Validator.sql revalidate))
                           (executeMatrimonialQuery env (Validator.sql revalidate))
                           (fun _ => tracked intent (Validator.sql revalidate))
                           (fun _ => sound)).
            eapply triple_conseq;
              [apply executeMatrimonialQuery_tracked
              | intros evs H; exact H | intros a evs H; exact H | intros t evs []].
            exists corrected, intent. subst revalidate. split; [reflexivity |].
            apply rejected_none_valid. exact Hrej. }
        intros results'. apply IH. lia.
      * intros st H. exact H.
    + intros st H. exact H.
Qed.

Local Notation "x <- c ;; k" := (bind c (fun x => k))
  (at level 61, c at next level, right associativity).

(** The attempts of POST /api/ask: the [try] block up to the end of the
    correction loop, with the extracted intent and the [sql], [results]
    and [attempts] that the loop leaves. *)
Definition askAttempts (fuel : nat) (question : string)
  : M (W := W) (list ExtractedIntent * LoopState) :=
  context <- call (getRelevantContext env question) ;;
  extracted_intent <- extractIntentFromQuestion env question ;;
  let schemaContext := context in
  sql <- generateMatrimonialSQL env question schemaContext extracted_intent ;;
  validation <- validated sql extracted_intent ;;
  let sql := Validator.sql validation in
  results <- match rejected validation with
             | Some e => ret (ErrorObj e)
             | None =>
                 if (0 <? List.length extracted_intent) && negb (test true (rx "\bWHERE\b") sql)
                 then ret (ErrorObj missingWhere)
                 else executeMatrimonialQuery env sql
             end ;;
  let attempts := 1 in
  final <- correctionLoop env fuel question schemaContext extracted_intent
             (sql, results, attempts) ;;
  ret (extracted_intent, final).

(** The rest of the [try] block: the response written from what the loop
    left. *)
Definition askRespond (question : string) (extracted_intent : list ExtractedIntent)
           (final : LoopState) : M (W := W) Response :=
  let '(sql, results, attempts) := final in
  match failing results with
  | Some err =>
      ret (Resp 422 (Some false) (Some sql) None (Some (sqlToSupabaseQuery env sql))
                (Some err) None (Some extracted_intent) None None None)
  | None =>
      let rows := rowsOf results in
      c1 <- (if THESYS_API_KEY env
             then call (getC1ResponseForData env question sql rows)
             else ret None) ;;
      ret (Resp 200 (Some true) (Some sql) None (Some (sqlToSupabaseQuery env sql))
                None None (Some extracted_intent) (Some rows) (Some (List.length rows))
                (match c1 with
                 | Some txt => if truthy txt then Some txt else None
                 | None => None
                 end))
  end.


(** The [try] block is the attempts followed by the response. *)
Lemma askBody_split fuel question st :
  askBody env fuel question st
  = bind (askAttempts fuel question) (fun p => askRespond question (fst p) (snd p)) st.
Proof.
  unfold askBody, askAttempts, askRespond, bind, ret.
  repeat match goal with
         | |- context [match ?c st with _ => _ end] => destruct (c st) as [? [? | ? |]]
         | |- context [match ?c ?s with (_, _) => _ end] =>
             destruct (c s) as [? [? | ? |]]
         end; try reflexivity.
Qed.


Lemma askAttempts_tracked fuel question :
  MAX <= S fuel ->
  triple sound (askAttempts fuel question)
         (fun p => tracked (fst p) (fst (fst (snd p)))) (fun _ => sound).
Proof.
  intros Hfuel. unfold askAttempts.
  eapply triple_bind with (R := fun _ => sound); [apply triple_call |].
  intros context.
  eapply triple_bind with (R := fun _ => sound); [apply extractIntentFromQuestion_sound |].
  intros intent.
  eapply triple_bind with (R := fun _ => sound); [apply generateMatrimonialSQL_sound |].
  intros sql.
  eapply triple_bind
    with (R := fun v evs => v = validateAndFixSql sql intent
                            /\ tracked intent (Validator.sql v) evs).
  { eapply triple_conseq;
      [apply validated_tracked | intros evs H; exact H | intros a evs H; exact H
      | intros t evs []]. }
  intros validation.
  eapply triple_bind with (R := fun _ => tracked intent (Validator.sql validation)).
  { destruct (rejected validation) eqn:Hrej.
    - intros st [_ H]. exact H.
    - destruct ((0 <? List.length intent)
                && negb (test true (rx "\bWHERE\b") (Validator.sql validation))).
      + intros st [_ H]. exact H.
      + intros st [Heq H]. revert st H.
        change (triple (tracked intent (Validator.sql validation))
                       (executeMatrimonialQuery env (Validator.sql validation))
                       (fun _ => tracked intent (Validator.sql validation))
                       (fun _ => sound)).
        eapply triple_conseq;
          [apply executeMatrimonialQuery_tracked
          | intros evs H; exact H | intros a evs H; exact H | intros t evs []].
        exists sql, intent. subst validation. split; [reflexivity |].
        apply rejected_none_valid. exact Hrej. }
  intros results.
  eapply triple_bind with (R := fun ls => tracked intent (fst (fst ls))).
  { apply correctionLoop_tracked. unfold MAX_CORRECTION_ATTEMPTS in *. lia. }
  intros [[sql' results'] attempts'] st H. exact H.
Qed.

Lemma askBody_tracked fuel question :
  MAX <= S fuel ->
  triple sound (askBody env fuel question) (fun _ => sound) (fun _ => sound).
Proof.
  intros Hfuel st Hs. rewrite askBody_split. revert st Hs.
  change (triple sound
                 (bind (askAttempts fuel question)
                       (fun p => askRespond question (fst p) (snd p)))
                 (fun _ => sound) (fun _ => sound)).
  eapply triple_bind; [apply askAttempts_tracked; exact Hfuel |].
  intros [intent [[sql results] attempts]]. cbn [fst snd]. unfold askRespond.
  destruct (failing results) as [err |].
  - intros st [Hs _]. exact Hs.
  - eapply triple_bind with (R := fun _ => sound).
    + destruct (THESYS_API_KEY env).
      * eapply triple_conseq;
          [apply triple_call with (P := sound)
          | | intros a evs H; exact H | intros t evs H; exact H].
        intros evs [H _]. exact H.
      * intros st [H _]. exact H.
    + intros c1 st H. exact H.
Qed.

Lemma askHandler_tracked fuel question :
  MAX <= S fuel ->
  triple sound (askHandler env fuel question) (fun _ => sound) (fun _ _ => False).
Proof.
  intros Hfuel. unfold askHandler.
  destruct (negb (truthy question)).
  - intros st H. exact H.
  - eapply triple_catch with (E' := fun _ => sound);
      [apply askBody_tracked; exact Hfuel |].
    intros t.
    destruct (test true (rx "429|quota|rate limit|Too Many Requests") (messageOf t));
      intros st H; exact H.
Qed.

Lemma executeHandler_guarded body (st : PState W) :
  executedOnly selectGuard (events st) (events (fst (executeHandler env body st))).
Proof.
  unfold executeHandler.
  destruct body as [| raw |]; try apply executedOnly_refl.
  destruct (negb (truthy raw)); [apply executedOnly_refl |].
  destruct (negb (test true (rx "^\s*SELECT\s+") (trim raw))) eqn:Hguard;
    [apply executedOnly_refl |].
  apply negb_false_iff in Hguard.
  unfold tryCatch, bind. rewrite executeMatrimonialQuery_run.
  assert (Hlog : executedOnly selectGuard (events st) (events st ++ [Executed (trim raw)])).
  { apply executedOnly_snoc; [apply executedOnly_refl |].
    intros q Hq. injection Hq as <-. exact Hguard. }
  destruct (failing _); exact Hlog.
Qed.

End Tracking.


(** X20. Every query that POST /api/execute forwards to
    [executeMatrimonialQuery] passed the guard [/^\s*SELECT\s+/i]; every
    query that POST /api/ask forwards is the text returned by a run of
    [validateAndFixSql] that reported [valid = true] (a run that does not
    look at the leading verb). *)
Theorem forwarded_queries_are_guarded :
  forall (W : Type) (env : Collaborators W) (fuel : nat) (question : string)
         (body : BodyField) (st : PState W),
    MAX_CORRECTION_ATTEMPTS <= S fuel ->
    executedOnly selectGuard (events st) (events (fst (executeHandler env body st)))
    /\ executedOnly passedValidation (events st)
                    (events (fst (askHandler env fuel question st))).
Proof.
  intros W env fuel question body st Hfuel. split.
  - apply executeHandler_guarded.
  - pose proof (askHandler_tracked env (events st) fuel question Hfuel st
                                   (executedOnly_refl _ _)) as H.
    destruct (askHandler env fuel question st) as [st' [resp | t |]]; cbn.
    + apply H.
    + destruct H.
    + destruct H.
Qed.






Lemma forwarded_queries_witness :
  executedOnly selectGuard (events Scenario.start)
               (events (fst (executeHandler Scenario.deleting (Text "SELECT 1") Scenario.start)))
  /\ executedOnly passedValidation (events Scenario.start)
                  (events (fst (askHandler Scenario.deleting 2 "show everyone" Scenario.start))).
Proof.
  exact (forwarded_queries_are_guarded unit Scenario.deleting 2 "show everyone"
           (Text "SELECT 1") Scenario.start (le_n 3)).
Defined.

(** C5. POST /api/ask forwards a statement that does not begin with
    SELECT: with no intent extracted, the text of the generator is
    validated and forwarded as it is, and a DELETE over profiles passes
    the validator and reaches [executeMatrimonialQuery], although the
    guard of POST /api/execute refuses the same text. *)
Lemma ask_forwards_a_delete :
  In (Executed "DELETE FROM profiles p")
     (events (fst (askHandler Scenario.deleting 2 "show everyone" Scenario.start)))
  /\ test true (rx "^\s*SELECT\s+") "DELETE FROM profiles p" = false
  /\ events (fst (executeHandler Scenario.deleting (Text "DELETE FROM profiles p")
                                  Scenario.start)) = [].
Proof.
  split; [vm_compute; auto | split; vm_compute; reflexivity].
Qed.

End AppFacts.

(** ** The fallback extractor and the deterministic builder *)

Module PlannerFacts.
Import JsString Regex Planner.

(** The attributes the fallback can produce. *)
Definition fallbackVocabulary : list string :=
  ["profession"; "native_place"; "city"; "income"; "religion"; "caste";
   "mother_tongue"; "first_name"; "age"].

(** The list the fallback builds from the outcome of its nine rules. *)
Definition assemble (profession native city income religion caste tongue name age1 age2
                     : option string) : list ExtractedIntent :=
  let intents := push_if "profession" profession [] in
  let intents := push_if "native_place" native intents in
  let intents := if negb (some_attr "native_place" intents)
                 then push_if "city" city intents else intents in
  let intents := push_if "income" income intents in
  let intents := push_if "religion" religion intents in
  let intents := push_if "caste" caste intents in
  let intents := push_if "mother_tongue" tongue intents in
  let intents := push_if "first_name" name intents in
  match age1, age2 with
  | Some a, Some b => push_if "age" (Some (a ++ "-" ++ b)) intents
  | _, _ => intents
  end.

Lemma fallbackExtractIntent_assembled question :
  exists p n c i r ca t f a1 a2,
    fallbackExtractIntent question = assemble p n c i r ca t f a1 a2.
Proof.
  unfold fallbackExtractIntent. do 10 eexists. unfold assemble. reflexivity.
Qed.

Lemma assemble_exclusive p n c i r ca t f a1 a2 :
  some_attr "native_place" (assemble p n c i r ca t f a1 a2)
    && some_attr "city" (assemble p n c i r ca t f a1 a2) = false.
Proof. destruct p, n, c, i, r, ca, t, f, a1, a2; reflexivity. Qed.

Lemma assemble_vocabulary p n c i r ca t f a1 a2 :
  forallb (fun x => has (attribute x) fallbackVocabulary)
          (assemble p n c i r ca t f a1 a2) = true.
Proof. destruct p, n, c, i, r, ca, t, f, a1, a2; reflexivity. Qed.

(** C8. For every question the fallback extractor returns a list (it is a
    total function and has no failing branch); the list never holds both
    [native_place] and [city], every attribute in it is one of the nine of
    the fallback, and a question that matches no rule gives the empty
    list. *)
Theorem fallbackExtractIntent_origin_excludes_city :
  forall question : string,
    some_attr "native_place" (fallbackExtractIntent question)
      && some_attr "city" (fallbackExtractIntent question) = false
    /\ forallb (fun i => has (attribute i) fallbackVocabulary)
               (fallbackExtractIntent question) = true
    /\ fallbackExtractIntent "show everyone" = [].
Proof.
  intros question.
  destruct (fallbackExtractIntent_assembled question)
    as (p & n & c & i & r & ca & t & f & a1 & a2 & ->).
  split; [apply assemble_exclusive |].
  split; [apply assemble_vocabulary |].
  vm_compute. reflexivity.
Qed.

(** *** The deterministic builder *)

(** The attribute has an entry in [INTENT_TO_SQL]. *)
Definition isMapped (attr : string) : bool :=
  match assoc attr INTENT_TO_SQL with Some _ => true | None => false end.

Definition mappedItems (items : list ExtractedIntent) : list ExtractedIntent :=
  filter (fun i => isMapped (attribute i)) items.

(** No attribute of the intent normalises to a name that an object
    literal inherits from [Object.prototype]. *)
Definition noPrototypeKey (intent : list ExtractedIntent) : Prop :=
  Forall (fun i => has (attribute i) object_prototype_keys = false) (normalizeAll intent).

Definition whereOf (conds : list string) : string :=
  if 0 <? List.length conds then " WHERE " ++ join " AND " conds else EmptyString.

(** The text of a built query. *)
Definition queryText (selectCols joinLines conds : list string) : string :=
  "SELECT " ++ join ", " selectCols ++ nl ++ "FROM profiles p" ++ nl
  ++ join nl joinLines ++ whereOf conds ++ nl ++ "LIMIT 50".

(** The attributes of an intent, each once. *)
Definition distinctAttributes (intent : list ExtractedIntent) : list string :=
  nodup string_dec (map attribute (normalizeAll intent)).

Lemma assoc_In {A : Type} key (table : list (string * A)) v :
  assoc key table = Some v -> In (key, v) table.
Proof.
  induction table as [| [k x] more IH]; cbn; [discriminate |].
  destruct (String.eqb k key) eqn:Hk.
  - apply String.eqb_eq in Hk. intros [= ->]. left. subst. reflexivity.
  - intros H. right. apply IH. exact H.
Qed.

Lemma patterns_not_empty :
  forall key raw, In (key, raw) INTENT_TO_SQL ->
    truthy (trim (split_head false (rx "\s+—\s+|\s+\(e\.g\.") raw)) = true.
Proof.
  assert (H : forallb (fun kv => truthy (trim (split_head false (rx "\s+—\s+|\s+\(e\.g\.") (snd kv))))
                      INTENT_TO_SQL = true) by (vm_compute; reflexivity).
  intros key raw Hin. rewrite forallb_forall in H. apply (H (key, raw) Hin).
Qed.

(** A pattern is found, and is not empty, exactly for the mapped
    attributes. *)
Lemma getSqlPattern_mapped attr :
  has attr object_prototype_keys = false ->
  exists pattern, getSqlPattern attr = Ok pattern /\ truthy pattern = isMapped attr.
Proof.
  intros Hkey. unfold getSqlPattern, js_get, isMapped.
  destruct (assoc attr INTENT_TO_SQL) as [raw |] eqn:Hraw.
  - eexists. split; [reflexivity |].
    apply (patterns_not_empty attr raw). apply assoc_In. exact Hraw.
  - rewrite Hkey. eexists. split; [reflexivity |]. vm_compute. reflexivity.
Qed.

Lemma tables_found attr :
  has attr object_prototype_keys = false ->
  js_get INTENT_TABLES attr <> Inherited.
Proof.
  intros Hkey. unfold js_get.
  destruct (assoc attr INTENT_TABLES); [discriminate |].
  rewrite Hkey. discriminate.
Qed.

Lemma collectJoins_returns items :
  Forall (fun i => has (attribute i) object_prototype_keys = false) items ->
  forall joins, exists joins', collectJoins items joins = Ok joins'.
Proof.
  induction 1 as [| i more Hi _ IH]; intros joins; cbn [collectJoins].
  - exists joins. reflexivity.
  - pose proof (tables_found _ Hi) as Hfound.
    destruct (js_get INTENT_TABLES (attribute i)); [apply IH | contradiction | apply IH].
Qed.

(** The conditions: one per mapped item, in order; the other items are
    skipped. *)
Lemma buildConditions_returns items :
  Forall (fun i => has (attribute i) object_prototype_keys = false) items ->
  exists conds,
    buildConditions items = Ok conds
    /\ buildConditions (mappedItems items) = Ok conds
    /\ List.length conds = List.length (mappedItems items).
Proof.
  induction 1 as [| i more Hi _ IH]; cbn [buildConditions mappedItems filter].
  - exists []. repeat split; constructor.
  - destruct IH as (conds & Hall & Hmapped & Hlen).
    destruct (getSqlPattern_mapped _ Hi) as (pattern & Hp & Ht).
    fold (mappedItems more). rewrite Hp, Hall.
    destruct (isMapped (attribute i)) eqn:Hm; rewrite Ht.
    + exists (renderCondition i pattern :: conds).
      cbn [buildConditions]. rewrite Hp, Hmapped, Ht. cbn [List.length].
      repeat split. congruence.
    + exists conds. repeat split; assumption.
Qed.

Lemma buildSqlFromIntent_returns intent :
  noPrototypeKey intent -> intent <> [] ->
  exists selectCols joinLines conds,
    buildSqlFromIntent intent = Ok (queryText selectCols joinLines conds)
    /\ buildConditions (mappedItems (normalizeAll intent)) = Ok conds
    /\ List.length conds = List.length (mappedItems (normalizeAll intent)).
Proof.
  intros Hkeys Hne. unfold buildSqlFromIntent.
  destruct (List.length (normalizeAll intent) =? 0) eqn:Hlen.
  - apply Nat.eqb_eq in Hlen. unfold normalizeAll in Hlen. rewrite length_map in Hlen.
    destruct intent; [contradiction | discriminate].
  - destruct (collectJoins_returns _ Hkeys []) as (joins & ->).
    destruct (buildConditions_returns _ Hkeys) as (conds & -> & Hmapped & Hcount).
    exists (selectColumnsForIntent (map attribute (normalizeAll intent)) joins),
           (joinLinesFor joins), conds.
    repeat split; assumption.
Qed.

(** The pattern of an attribute and the predicate of an intent item, as
    the second loop of [buildSqlFromIntent] computes them. *)
Definition patternOf (attr : string) : string :=
  match getSqlPattern attr with Ok pattern => pattern | TypeError => EmptyString end.

Definition predicateOf (i : ExtractedIntent) : string :=
  renderCondition i (patternOf (attribute i)).

Lemma getSqlPattern_found attr :
  isMapped attr = true ->
  getSqlPattern attr = Ok (patternOf attr) /\ truthy (patternOf attr) = true.
Proof.
  unfold patternOf, getSqlPattern, js_get, isMapped.
  destruct (assoc attr INTENT_TO_SQL) as [raw |] eqn:Hraw; [| discriminate].
  intros _. split; [reflexivity |].
  apply (patterns_not_empty attr raw). apply assoc_In. exact Hraw.
Qed.

(** When every item is mapped, the second loop pushes the predicate of
    each item, in order. *)
Lemma buildConditions_mapped items :
  forallb (fun i => isMapped (attribute i)) items = true ->
  buildConditions items = Ok (map predicateOf items).
Proof.
  induction items as [| i more IH]; cbn [forallb]; intros H; [reflexivity |].
  apply andb_true_iff in H. destruct H as [Hi Hmore].
  destruct (getSqlPattern_found _ Hi) as [Hp Ht].
  cbn [buildConditions map]. rewrite Hp, (IH Hmore), Ht. reflexivity.
Qed.

Lemma mapped_not_inherited attr :
  isMapped attr = true -> has attr object_prototype_keys = false.
Proof.
  assert (H : forallb (fun kv => negb (has (fst kv) object_prototype_keys)) INTENT_TO_SQL
              = true) by (vm_compute; reflexivity).
  unfold isMapped. destruct (assoc attr INTENT_TO_SQL) as [raw |] eqn:Hraw; [| discriminate].
  intros _. rewrite forallb_forall in H.
  apply negb_true_iff. apply (H (attr, raw)). apply assoc_In. exact Hraw.
Qed.

Lemma mapped_returns items :
  forallb (fun i => isMapped (attribute i)) items = true ->
  Forall (fun i => has (attribute i) object_prototype_keys = false) items.
Proof.
  induction items as [| i more IH]; cbn [forallb]; intros H; constructor.
  - apply andb_true_iff in H. apply mapped_not_inherited, H.
  - apply andb_true_iff in H. apply IH, H.
Qed.

(** The builder on an intent whose attributes are all mapped: the joins
    of the first loop, one predicate per item from the second. *)
Lemma buildSqlFromIntent_mapped intent :
  intent <> [] ->
  forallb (fun i => isMapped (attribute i)) (normalizeAll intent) = true ->
  exists joins,
    collectJoins (normalizeAll intent) [] = Ok joins
    /\ buildConditions (normalizeAll intent) = Ok (map predicateOf (normalizeAll intent))
    /\ buildSqlFromIntent intent
       = Ok (queryText (selectColumnsForIntent (map attribute (normalizeAll intent)) joins)
                       (joinLinesFor joins) (map predicateOf (normalizeAll intent))).
Proof.
  intros Hne Hmapped.
  destruct (collectJoins_returns _ (mapped_returns _ Hmapped) []) as (joins & Hjoins).
  pose proof (buildConditions_mapped _ Hmapped) as Hconds.
  exists joins. split; [exact Hjoins |]. split; [exact Hconds |].
  unfold buildSqlFromIntent. rewrite Hjoins, Hconds.
  destruct (List.length (normalizeAll intent) =? 0) eqn:Hlen; [| reflexivity].
  apply Nat.eqb_eq in Hlen. unfold normalizeAll in Hlen. rewrite length_map in Hlen.
  destruct intent; [contradiction | discriminate].
Qed.

Definition doctorInPune : list ExtractedIntent :=
  [Intent "profession" "doctor"; Intent "city" "Pune"].

Definition twoCities : list ExtractedIntent :=
  [Intent "city" "Pune"; Intent "city" "Mumbai"].

Definition femaleManglik : list ExtractedIntent :=
  [Intent "gender" "female"; Intent "manglik" "yes"].

(** C4, the claim as stated fails: an attribute given twice yields two
    predicates joined by AND, for one distinct attribute. *)
Lemma repeated_attribute_gives_two_predicates :
  buildSqlFromIntent twoCities =
    Ok (queryText
          ["p.profile_id"; "p.first_name"; "p.last_name"; "pl.city"; "pl.state"]
          ["LEFT JOIN profile_locations pl ON p.profile_id = pl.profile_id"]
          ["(LOWER(pl.city) LIKE LOWER('%Pune%') OR pl.state ILIKE '%Pune%')";
           "(LOWER(pl.city) LIKE LOWER('%Mumbai%') OR pl.state ILIKE '%Mumbai%')"])
  /\ distinctAttributes twoCities = ["city"].
Proof. split; vm_compute; reflexivity. Qed.

(** C6. The builder returns a complete query that leaves out the filter
    of an attribute without a mapping, and gives no signal of it:
    [manglik] has no entry in [INTENT_TO_SQL], and the query built for
    [gender = female, manglik = yes] is the text built for
    [gender = female] alone. *)
Lemma unmapped_attribute_is_dropped_silently :
  isMapped (normalizeIntentAttribute "manglik") = false
  /\ buildSqlFromIntent femaleManglik =
       Ok (queryText
             ["p.profile_id"; "p.first_name"; "p.last_name"; "p.gender"] []
             ["(LOWER(p.gender) = LOWER('female') OR p.gender ILIKE '%female%')"])
  /\ buildSqlFromIntent femaleManglik = buildSqlFromIntent [Intent "gender" "female"].
Proof. split; [| split]; vm_compute; reflexivity. Qed.

End PlannerFacts.


(** ** The validator *)

Module ValidatorFacts.
Import JsString Regex Planner Validator.

(** *** [trim] *)

Definition noLeadingSpace (s : string) : Prop :=
  match s with
  | EmptyString => True
  | String c _ => is_space c = false
  end.

Lemma trimStart_noLeadingSpace s : noLeadingSpace (trimStart s).
Proof.
  induction s as [| c r IH]; cbn; [exact I |].
  destruct (is_space c) eqn:Hc; [exact IH | cbn; exact Hc].
Qed.

Lemma trimStart_fixed s : noLeadingSpace s -> trimStart s = s.
Proof. destruct s as [| c r]; cbn; [reflexivity |]. intros ->. reflexivity. Qed.

Lemma trimEnd_noLeadingSpace s : noLeadingSpace s -> noLeadingSpace (trimEnd s).
Proof.
  destruct s as [| c r]; cbn; [trivial |].
  intros Hc. rewrite Hc. cbn. exact Hc.
Qed.

Lemma trimEnd_idempotent s : trimEnd (trimEnd s) = trimEnd s.
Proof.
  induction s as [| c r IH]; cbn; [reflexivity |].
  destruct (is_space c && is_empty (trimEnd r)) eqn:Hc; cbn; [reflexivity |].
  rewrite IH, Hc. reflexivity.
Qed.

Lemma trim_idempotent s : trim (trim s) = trim s.
Proof.
  unfold trim.
  rewrite (trimStart_fixed (trimEnd (trimStart s))).
  - apply trimEnd_idempotent.
  - apply trimEnd_noLeadingSpace, trimStart_noLeadingSpace.
Qed.

(** *** A run that records no fix leaves the query as it is *)

Lemma push_loud fix_ w s' : snd (push fix_ w s') <> [].
Proof. unfold push. cbn. destruct (snd w); discriminate. Qed.

Ltac quiet_or_loud H :=
  first [ reflexivity
        | exfalso; exact (push_loud _ _ _ H) ].

Lemma fixCareerBase_quiet w : snd (fixCareerBase w) = [] -> fixCareerBase w = w.
Proof. unfold fixCareerBase. destruct (_ && _); intros H; quiet_or_loud H. Qed.

Lemma fixLocationBase_quiet w : snd (fixLocationBase w) = [] -> fixLocationBase w = w.
Proof. unfold fixLocationBase. destruct (_ && _); intros H; quiet_or_loud H. Qed.

Lemma fixMissingAlias_based w :
  test true (rx "\bFROM\s+profiles\s+p\b") (fst w) = true -> fixMissingAlias w = w.
Proof.
  intros Hp. unfold fixMissingAlias. rewrite Hp.
  rewrite andb_false_r. reflexivity.
Qed.

Lemma fixMissingAlias_fixes w : snd (fixMissingAlias w) = snd w.
Proof. unfold fixMissingAlias. destruct (_ && _); reflexivity. Qed.

Lemma alignCity_quiet intent w : snd (alignCity intent w) = [] -> alignCity intent w = w.
Proof.
  unfold alignCity. destruct (truthy_opt _); [| reflexivity].
  destruct (negb (String.eqb _ _)) eqn:Hsame; intros H; [quiet_or_loud H |].
  apply negb_false_iff, String.eqb_eq in Hsame. rewrite Hsame.
  destruct w; reflexivity.
Qed.

Lemma alignProfession_quiet intent w :
  snd (alignProfession intent w) = [] -> alignProfession intent w = w.
Proof.
  unfold alignProfession. destruct (truthy_opt _); [| reflexivity].
  destruct (negb (String.eqb _ _)) eqn:Hsame; intros H; [quiet_or_loud H |].
  apply negb_false_iff, String.eqb_eq in Hsame. rewrite Hsame.
  destruct w; reflexivity.
Qed.

Lemma substitutePlaceholders_quiet intent w :
  snd (substitutePlaceholders intent w) = [] -> substitutePlaceholders intent w = w.
Proof.
  unfold substitutePlaceholders. destruct (_ && _); [| reflexivity].
  destruct (replace_all_st true _ _ _ _) as [i1 s1].
  destruct (replace_all_st true _ _ _ _) as [i2 s2].
  destruct (replace_all_st false _ _ _ _) as [i3 s3].
  intros H. quiet_or_loud H.
Qed.

Lemma stripParenBeforeLimit_quiet w :
  snd (stripParenBeforeLimit w) = [] -> stripParenBeforeLimit w = w.
Proof.
  unfold stripParenBeforeLimit. destruct (exec true _ _); [| reflexivity].
  destruct (test false _ _); [intros H; quiet_or_loud H |].
  destruct (test false _ _); intros H; quiet_or_loud H.
Qed.

Lemma stripSemicolonBeforeLimit_quiet w :
  snd (stripSemicolonBeforeLimit w) = [] -> stripSemicolonBeforeLimit w = w.
Proof.
  unfold stripSemicolonBeforeLimit. destruct (test true _ _); intros H; quiet_or_loud H.
Qed.

(** With the base alias in place, a run of steps 1 to 4 that records no
    fix returns the text it was given. *)
Lemma applyFixes_quiet intent s :
  test true (rx "\bFROM\s+profiles\s+p\b") s = true ->
  snd (applyFixes intent s) = [] ->
  applyFixes intent s = (s, []).
Proof.
  intros Hbase. unfold applyFixes.
  assert (H1 : fixMissingAlias (fixLocationBase (fixCareerBase (s, []))) = (s, [])).
  { assert (Hc : fixCareerBase (s, []) = (s, [])).
    { unfold fixCareerBase. cbn [fst]. rewrite Hbase, andb_false_r. reflexivity. }
    assert (Hl : fixLocationBase (s, []) = (s, [])).
    { unfold fixLocationBase. cbn [fst]. rewrite Hbase, andb_false_r. reflexivity. }
    rewrite Hc, Hl. apply fixMissingAlias_based. exact Hbase. }
  rewrite H1. intros H.
  apply stripSemicolonBeforeLimit_quiet in H as H4. rewrite H4 in *.
  apply stripParenBeforeLimit_quiet in H as H3. rewrite H3 in *.
  apply substitutePlaceholders_quiet in H as H2. rewrite H2 in *.
  apply alignProfession_quiet in H as H0. rewrite H0 in *.
  apply alignCity_quiet in H. exact H.
Qed.

(** Steps 5 to 8 report [fixed = true] as soon as a fix is on record, and
    return the text they were given unless they inject a filter. *)
Lemma was_fixed_loud fixes : fixes <> [] -> was_fixed fixes = true.
Proof. destruct fixes; [contradiction | reflexivity]. Qed.

Lemma reject_fixed w msg : snd w <> [] -> fixed (reject w msg) = Some true.
Proof. intros H. unfold reject. cbn [fixed]. rewrite (was_fixed_loud _ H). reflexivity. Qed.

Lemma checkJoins_fixed w : snd w <> [] -> fixed (checkJoins w) = Some true.
Proof.
  intros H. unfold checkJoins.
  destruct (_ && _); [apply reject_fixed; exact H |].
  destruct (_ && _); [apply reject_fixed; exact H |].
  unfold accept. cbn [fixed]. rewrite (was_fixed_loud _ H). reflexivity.
Qed.

Lemma checkJoins_sql w : Validator.sql (checkJoins w) = fst w.
Proof.
  unfold checkJoins. destruct (_ && _); [reflexivity |].
  destruct (_ && _); reflexivity.
Qed.

Lemma checkAge_fixed intent w : snd w <> [] -> fixed (checkAge intent w) = Some true.
Proof.
  intros H. unfold checkAge.
  destruct (has "age" (lowerAttrs intent)); [| apply checkJoins_fixed; exact H].
  destruct (_ && _); [apply checkJoins_fixed; exact H |].
  destruct (match find _ intent with Some _ => _ | None => _ end).
  - apply checkJoins_fixed, push_loud.
  - apply reject_fixed. exact H.
Qed.

Lemma checkAge_sql intent w :
  fixed (checkAge intent w) <> Some true -> Validator.sql (checkAge intent w) = fst w.
Proof.
  unfold checkAge.
  destruct (has "age" (lowerAttrs intent)); [| intros _; apply checkJoins_sql].
  destruct (_ && _); [intros _; apply checkJoins_sql |].
  destruct (match find _ intent with Some _ => _ | None => _ end).
  - intros H. exfalso. apply H. apply checkJoins_fixed, push_loud.
  - reflexivity.
Qed.

Lemma checkName_fixed intent w : snd w <> [] -> fixed (checkName intent w) = Some true.
Proof.
  intros H. unfold checkName.
  destruct (_ || _); [| apply checkAge_fixed; exact H].
  destruct (negb _ && _); [apply checkAge_fixed, push_loud |].
  destruct (negb _); [apply reject_fixed; exact H | apply checkAge_fixed; exact H].
Qed.

Lemma checkName_sql intent w :
  fixed (checkName intent w) <> Some true -> Validator.sql (checkName intent w) = fst w.
Proof.
  unfold checkName.
  destruct (_ || _); [| apply checkAge_sql].
  destruct (negb _ && _).
  - intros H. exfalso. apply H. apply checkAge_fixed, push_loud.
  - destruct (negb _); [reflexivity | apply checkAge_sql].
Qed.

Lemma checkAll_fixed intent w : snd w <> [] -> fixed (checkAll intent w) = Some true.
Proof.
  intros H. unfold checkAll.
  destruct (negb _); [apply reject_fixed; exact H |].
  destruct (_ && _); [apply reject_fixed; exact H |].
  apply checkName_fixed. exact H.
Qed.

Lemma checkAll_sql intent w :
  fixed (checkAll intent w) <> Some true -> Validator.sql (checkAll intent w) = fst w.
Proof.
  unfold checkAll.
  destruct (negb _); [reflexivity |].
  destruct (_ && _); [reflexivity |].
  apply checkName_sql.
Qed.

Lemma quiet_run_fixes intent s :
  fixed (checkAll intent (applyFixes intent s)) <> Some true ->
  snd (applyFixes intent s) = [].
Proof.
  intros H. destruct (snd (applyFixes intent s)) as [| f more] eqn:Hfixes; [reflexivity |].
  exfalso. apply H. apply checkAll_fixed. rewrite Hfixes. discriminate.
Qed.

(** X21. A run that repairs nothing is stable: for every query already
    based on [FROM profiles p] and every intent list, if a run of the
    validator does not report [fixed = true], it returns the trimmed
    query, and a second run on the returned text gives the same result as
    the first (so it does not report a fix either). *)
Theorem validateAndFixSql_stable_when_nothing_fixed :
  forall (q : string) (intent : list ExtractedIntent),
    test true (rx "\bFROM\s+profiles\s+p\b") (trim q) = true ->
    fixed (validateAndFixSql q intent) <> Some true ->
    Validator.sql (validateAndFixSql q intent) = trim q
    /\ validateAndFixSql (Validator.sql (validateAndFixSql q intent)) intent
       = validateAndFixSql q intent.
Proof.
  intros q intent Hbase Hquiet.
  assert (Hsql : Validator.sql (validateAndFixSql q intent) = trim q).
  { unfold validateAndFixSql in *.
    rewrite (checkAll_sql _ _ Hquiet).
    rewrite (applyFixes_quiet intent (trim q) Hbase (quiet_run_fixes _ _ Hquiet)).
    reflexivity. }
  split; [exact Hsql |].
  rewrite Hsql. unfold validateAndFixSql. rewrite trim_idempotent. reflexivity.
Qed.

Definition doctorInPuneQuery : string :=
  "SELECT p.profile_id, p.first_name, p.last_name, pl.city, pl.state, c.profession FROM profiles p LEFT JOIN profile_locations pl ON p.profile_id = pl.profile_id LEFT JOIN career_details c ON p.profile_id = c.profile_id WHERE LOWER(c.profession) LIKE LOWER('%doctor%') AND (LOWER(pl.city) LIKE LOWER('%Pune%') OR pl.state ILIKE '%Pune%') LIMIT 50".

Definition doctorInPune : list ExtractedIntent :=
  [Intent "profession" "doctor"; Intent "city" "Pune"].

Lemma validateAndFixSql_stable_witness :
  Validator.sql (validateAndFixSql doctorInPuneQuery doctorInPune) = trim doctorInPuneQuery
  /\ validateAndFixSql (Validator.sql (validateAndFixSql doctorInPuneQuery doctorInPune))
                       doctorInPune
     = validateAndFixSql doctorInPuneQuery doctorInPune.
Proof.
  apply (validateAndFixSql_stable_when_nothing_fixed doctorInPuneQuery doctorInPune).
  - vm_compute. reflexivity.
  - vm_compute. discriminate.
Defined.

(** A query with two stray closing parentheses before LIMIT. *)
Definition strayParens : string :=
  "SELECT p.first_name FROM profiles p WHERE (p.gender = 'female'))) LIMIT 50".

(** C1. The validator is not idempotent: each run strips one closing
    parenthesis before LIMIT, so on a query with two stray parentheses the
    first run reports a fix and the second run, on the text the first
    returned, reports a fix again and returns another text. *)
Lemma second_run_fixes_again :
  validateAndFixSql strayParens [] =
    Result true
      "SELECT p.first_name FROM profiles p WHERE (p.gender = 'female')) LIMIT 50"
      None (Some true)
  /\ validateAndFixSql (Validator.sql (validateAndFixSql strayParens [])) [] =
    Result true
      "SELECT p.first_name FROM profiles p WHERE (p.gender = 'female') LIMIT 50"
      None (Some true).
Proof. split; vm_compute; reflexivity. Qed.

(** *** Placeholders *)

Definition residue (s : string) : bool := test false (rx "%value%|'value'") s.


















(** The values are taken in the order of the intent list. *)
Example placeholders_take_values_in_order :
  validateAndFixSql
    "SELECT * FROM profiles p WHERE p.gender = 'value' AND p.marital_status = 'value' LIMIT 50"
    [Intent "gender" "female"; Intent "marital_status" "single"]
  = Result true
      "SELECT * FROM profiles p WHERE p.gender = 'female' AND p.marital_status = 'single' LIMIT 50"
      None (Some true).
Proof. vm_compute. reflexivity. Qed.

(** *** The validator on the output of the builder *)

Definition askForNeha : list ExtractedIntent := [Intent "first_name" "Neha"].

(** C3, at the failing input: the query built for a name ends in two
    closing parentheses, the validator takes the last one for a stray one,
    reports [fixed = true] and returns a text whose parentheses no longer
    balance. *)
Theorem validateAndFixSql_rewrites_built_name_query :
  buildSqlFromIntent askForNeha =
    Ok ("SELECT p.profile_id, p.first_name, p.last_name" ++ nl ++ "FROM profiles p" ++ nl
        ++ " WHERE (LOWER(p.first_name) = LOWER('Neha') OR LOWER(p.last_name) = LOWER('Neha'))"
        ++ nl ++ "LIMIT 50")
  /\ validateAndFixSql
       ("SELECT p.profile_id, p.first_name, p.last_name" ++ nl ++ "FROM profiles p" ++ nl
        ++ " WHERE (LOWER(p.first_name) = LOWER('Neha') OR LOWER(p.last_name) = LOWER('Neha'))"
        ++ nl ++ "LIMIT 50")
       askForNeha
     = Result true
         ("SELECT p.profile_id, p.first_name, p.last_name" ++ nl ++ "FROM profiles p" ++ nl
          ++ " WHERE (LOWER(p.first_name) = LOWER('Neha') OR LOWER(p.last_name) = LOWER('Neha') LIMIT 50")
         None (Some true).
Proof. split; vm_compute; reflexivity. Qed.

End ValidatorFacts.

(** * Further properties of the validator *)

Module ValidatorMore.
Import JsString Regex Planner Validator ValidatorFacts.

(** The six messages a rejection can carry. *)
Definition rejectionMessages : list string :=
  [baseError; residueError; nameError; ageError; uhError; fError].

(** How a run ends: accepted, or rejected with one of the six messages,
    on the text and fixes reached at that point. *)
Definition verdict (r : ValidationResult) : Prop :=
  exists w, r = accept w \/ exists msg, In msg rejectionMessages /\ r = reject w msg.

(** Every alias of a horoscope or family-origin column has its JOIN. *)
Definition joinsComplete (s : string) : Prop :=
  (test true (rx "\buh\.") s = true ->
   test true (rx "\bJOIN\s+user_horoscopes\s+uh\b") s = true)
  /\ (test true (rx "\bf\.") s = true ->
      test true (rx "\bJOIN\s+family_origin\s+f\b") s = true).

Ltac rejected_with w :=
  exists w; right; eexists; split; [| reflexivity]; cbn; tauto.

Lemma checkJoins_verdict w : verdict (checkJoins w).
Proof.
  unfold checkJoins.
  destruct (_ && _); [rejected_with w |].
  destruct (_ && _); [rejected_with w |].
  exists w. left. reflexivity.
Qed.

Lemma checkAge_verdict intent w : verdict (checkAge intent w).
Proof.
  unfold checkAge.
  destruct (has "age" (lowerAttrs intent)); [| apply checkJoins_verdict].
  destruct (_ && _); [apply checkJoins_verdict |].
  destruct (match find _ intent with Some _ => _ | None => _ end).
  - apply checkJoins_verdict.
  - rejected_with w.
Qed.

Lemma checkName_verdict intent w : verdict (checkName intent w).
Proof.
  unfold checkName.
  destruct (_ || _); [| apply checkAge_verdict].
  destruct (negb _ && _); [apply checkAge_verdict |].
  destruct (negb _); [rejected_with w | apply checkAge_verdict].
Qed.

Lemma validateAndFixSql_verdict q intent : verdict (validateAndFixSql q intent).
Proof.
  unfold validateAndFixSql, checkAll.
  destruct (negb _); [rejected_with (applyFixes intent (trim q)) |].
  destruct (_ && _); [rejected_with (applyFixes intent (trim q)) |].
  apply checkName_verdict.
Qed.

(** X1. The result of a run is well formed: an accepted query carries no
    error and never [fixed = false]; a rejected one carries one of the six
    messages of the validator and always a [fixed] flag. *)
Theorem validateAndFixSql_result_shape :
  forall (q : string) (intent : list ExtractedIntent),
    if valid (validateAndFixSql q intent)
    then error (validateAndFixSql q intent) = None
         /\ fixed (validateAndFixSql q intent) <> Some false
    else (exists msg, In msg rejectionMessages
                      /\ error (validateAndFixSql q intent) = Some msg)
         /\ fixed (validateAndFixSql q intent) <> None.
Proof.
  intros q intent.
  destruct (validateAndFixSql_verdict q intent) as (w & [-> | (msg & Hmsg & ->)]).
  - unfold accept. cbn [valid error fixed]. split; [reflexivity |].
    destruct (was_fixed (snd w)); discriminate.
  - unfold reject. cbn [valid error fixed]. split; [exists msg; auto | discriminate].
Qed.

Lemma checkJoins_complete w :
  valid (checkJoins w) = true -> joinsComplete (Validator.sql (checkJoins w)).
Proof.
  rewrite checkJoins_sql. unfold checkJoins, joinsComplete.
  destruct (test true (rx "\buh\.") (fst w)); cbn [andb].
  - destruct (test true (rx "\bJOIN\s+user_horoscopes\s+uh\b") (fst w)); cbn [negb];
      [| discriminate].
    destruct (test true (rx "\bf\.") (fst w)); cbn [andb]; [| intros _; split; auto; discriminate].
    destruct (test true (rx "\bJOIN\s+family_origin\s+f\b") (fst w)); cbn [negb];
      [intros _; split; auto | discriminate].
  - destruct (test true (rx "\bf\.") (fst w)); cbn [andb];
      [| intros _; split; discriminate].
    destruct (test true (rx "\bJOIN\s+family_origin\s+f\b") (fst w)); cbn [negb];
      [intros _; split; [discriminate | auto] | discriminate].
Qed.

Lemma checkAge_complete intent w :
  valid (checkAge intent w) = true -> joinsComplete (Validator.sql (checkAge intent w)).
Proof.
  unfold checkAge.
  destruct (has "age" (lowerAttrs intent)); [| apply checkJoins_complete].
  destruct (_ && _); [apply checkJoins_complete |].
  destruct (match find _ intent with Some _ => _ | None => _ end).
  - apply checkJoins_complete.
  - discriminate.
Qed.

Lemma checkName_complete intent w :
  valid (checkName intent w) = true -> joinsComplete (Validator.sql (checkName intent w)).
Proof.
  unfold checkName.
  destruct (_ || _); [| apply checkAge_complete].
  destruct (negb _ && _); [apply checkAge_complete |].
  destruct (negb _); [discriminate | apply checkAge_complete].
Qed.

(** X2. Join completeness holds of every accepted query, whatever was
    repaired or injected on the way: if the returned text uses [uh.] it has
    [JOIN user_horoscopes uh], and if it uses [f.] it has
    [JOIN family_origin f]. *)
Theorem accepted_query_joins_complete :
  forall (q : string) (intent : list ExtractedIntent),
    valid (validateAndFixSql q intent) = true ->
    joinsComplete (Validator.sql (validateAndFixSql q intent)).
Proof.
  intros q intent. unfold validateAndFixSql, checkAll.
  destruct (negb _); [discriminate |].
  destruct (_ && _); [discriminate |].
  apply checkName_complete.
Qed.

Definition nativeQuery : string :=
  "SELECT p.first_name, f.native_place FROM profiles p LEFT JOIN family_origin f ON p.profile_id = f.profile_id WHERE LOWER(f.native_place) LIKE LOWER('%pune%') LIMIT 50".

Lemma accepted_query_joins_complete_witness :
  joinsComplete (Validator.sql (validateAndFixSql nativeQuery [Intent "native_place" "pune"])).
Proof.
  apply (accepted_query_joins_complete nativeQuery [Intent "native_place" "pune"]).
  vm_compute. reflexivity.
Defined.

(** The intent asks for no name and no age: steps 7 has nothing to
    inject. *)
Definition noInjection (intent : list ExtractedIntent) : Prop :=
  has "first_name" (lowerAttrs intent) = false
  /\ has "last_name" (lowerAttrs intent) = false
  /\ has "age" (lowerAttrs intent) = false.

(** X3. When the intent names neither a person nor an age, an accepted
    query is the repaired text itself; it contains [FROM profiles], and,
    when the intent is not empty, no placeholder token. *)
Theorem accepted_query_has_base_and_no_placeholder :
  forall (q : string) (intent : list ExtractedIntent),
    noInjection intent ->
    valid (validateAndFixSql q intent) = true ->
    Validator.sql (validateAndFixSql q intent) = fst (applyFixes intent (trim q))
    /\ test true (rx "\bFROM\s+profiles\b") (Validator.sql (validateAndFixSql q intent)) = true
    /\ (intent <> [] -> residue (Validator.sql (validateAndFixSql q intent)) = false).
Proof.
  intros q intent (Hfirst & Hlast & Hage).
  unfold validateAndFixSql, checkAll.
  set (w := applyFixes intent (trim q)).
  destruct (test true (rx "\bFROM\s+profiles\b") (fst w)) eqn:Hbase; cbn [negb];
    [| discriminate].
  destruct (test false (rx "%value%|'value'") (fst w) && (0 <? List.length intent)) eqn:Hres;
    [discriminate |].
  unfold checkName. rewrite Hfirst, Hlast. cbn [orb].
  unfold checkAge. rewrite Hage. rewrite checkJoins_sql.
  intros _. split; [reflexivity |]. split; [exact Hbase |].
  intros Hne. unfold residue.
  destruct intent; [contradiction |]. cbn in Hres. rewrite andb_true_r in Hres. exact Hres.
Qed.

Definition puneQuery : string :=
  "SELECT p.first_name, pl.city FROM profiles p LEFT JOIN profile_locations pl ON p.profile_id = pl.profile_id WHERE LOWER(pl.city) LIKE LOWER('%value%') LIMIT 50".

Lemma accepted_query_has_base_witness :
  Validator.sql (validateAndFixSql puneQuery [Intent "city" "Pune"])
  = fst (applyFixes [Intent "city" "Pune"] (trim puneQuery))
  /\ test true (rx "\bFROM\s+profiles\b")
          (Validator.sql (validateAndFixSql puneQuery [Intent "city" "Pune"])) = true
  /\ ([Intent "city" "Pune"] <> [] ->
      residue (Validator.sql (validateAndFixSql puneQuery [Intent "city" "Pune"])) = false).
Proof.
  apply (accepted_query_has_base_and_no_placeholder puneQuery [Intent "city" "Pune"]).
  - vm_compute. repeat split.
  - vm_compute. reflexivity.
Defined.

(** X4. White space around the query handed to the validator never
    changes the result: the run on the trimmed text and the run on the
    text itself return the same verdict, text, message and flag. *)
Theorem validateAndFixSql_ignores_outer_spaces :
  forall (q : string) (intent : list ExtractedIntent),
    validateAndFixSql (trim q) intent = validateAndFixSql q intent.
Proof.
  intros q intent. unfold validateAndFixSql. rewrite trim_idempotent. reflexivity.
Qed.

End ValidatorMore.

(** * Further properties of the planner *)

Module PlannerMore.
Import JsString Regex Planner PlannerFacts.

(** *** The fallback extractor *)

(** [xs] can be read off [ys] from left to right, skipping entries. *)
Fixpoint subsequence (xs ys : list string) : bool :=
  match xs, ys with
  | [], _ => true
  | _ :: _, [] => false
  | x :: xs', y :: ys' =>
      if String.eqb x y then subsequence xs' ys' else subsequence xs ys'
  end.

Lemma assemble_ordered p n c i r ca t f a1 a2 :
  subsequence (map attribute (assemble p n c i r ca t f a1 a2)) fallbackVocabulary = true
  /\ List.length (assemble p n c i r ca t f a1 a2) <= 8.
Proof.
  destruct p, n, c, i, r, ca, t, f, a1, a2; (split; [reflexivity | cbn; lia]).
Qed.

Lemma subsequence_In xs : forall ys x,
  subsequence xs ys = true -> In x xs -> In x ys.
Proof.
  induction xs as [| a xs IH]; intros ys x Hs Hin; [destruct Hin |].
  induction ys as [| y ys IHy]; cbn in Hs; [discriminate |].
  destruct (String.eqb a y) eqn:Hay.
  - apply String.eqb_eq in Hay. subst y. destruct Hin as [<- | Hin].
    + left. reflexivity.
    + right. apply (IH ys x Hs Hin).
  - right. apply IHy. exact Hs.
Qed.

Lemma subsequence_NoDup xs : forall ys,
  subsequence xs ys = true -> NoDup ys -> NoDup xs.
Proof.
  induction xs as [| a xs IH]; intros ys Hs Hnd; [constructor |].
  induction ys as [| y ys IHy]; cbn in Hs; [discriminate |].
  inversion Hnd as [| ? ? Hnotin Hnd']; subst.
  destruct (String.eqb a y) eqn:Hay.
  - apply String.eqb_eq in Hay. subst y. constructor.
    + intros Hin. apply Hnotin. apply (subsequence_In xs ys a Hs Hin).
    + apply (IH ys Hs Hnd').
  - apply IHy; assumption.
Qed.

Lemma fallbackExtractIntent_in_vocabulary question :
  forallb (fun i => has (attribute i) fallbackVocabulary)
          (fallbackExtractIntent question) = true.
Proof.
  destruct (fallbackExtractIntent_assembled question)
    as (p & n & c & i & r & ca & t & f & a1 & a2 & ->).
  apply assemble_vocabulary.
Qed.

(** X5. Whatever the question, the fallback returns at most eight items,
    in the fixed order profession, native_place or city, income, religion,
    caste, mother_tongue, first_name, age, and no attribute twice. *)
Theorem fallbackExtractIntent_ordered_without_repeats :
  forall question : string,
    subsequence (map attribute (fallbackExtractIntent question)) fallbackVocabulary = true
    /\ NoDup (map attribute (fallbackExtractIntent question))
    /\ List.length (fallbackExtractIntent question) <= 8.
Proof.
  intros question.
  destruct (fallbackExtractIntent_assembled question)
    as (p & n & c & i & r & ca & t & f & a1 & a2 & ->).
  destruct (assemble_ordered p n c i r ca t f a1 a2) as [Hsub Hlen].
  split; [exact Hsub |]. split; [| exact Hlen].
  apply (subsequence_NoDup _ fallbackVocabulary Hsub).
  unfold fallbackVocabulary.
  repeat (constructor; [cbn; intuition discriminate |]). constructor.
Qed.

(** The attributes of the fallback are keys of the builder's tables as
    they stand. *)
Lemma fallbackVocabulary_covered attr :
  has attr fallbackVocabulary = true ->
  normalizeIntentAttribute attr = attr
  /\ isMapped attr = true
  /\ has attr object_prototype_keys = false.
Proof.
  unfold has at 1, fallbackVocabulary. cbn [existsb]. intros H.
  repeat (apply orb_true_iff in H; destruct H as [H | H]);
    try discriminate H;
    apply String.eqb_eq in H; subst attr; vm_compute; auto.
Qed.

Lemma covered_items items :
  forallb (fun i => has (attribute i) fallbackVocabulary) items = true ->
  normalizeAll items = items
  /\ mappedItems items = items
  /\ Forall (fun i => has (attribute i) object_prototype_keys = false) items.
Proof.
  induction items as [| [attr val] more IH]; cbn [forallb]; [repeat split; constructor |].
  intros H. apply andb_true_iff in H. destruct H as [Hi Hmore]. cbn [attribute] in Hi.
  destruct (fallbackVocabulary_covered attr Hi) as (Hn & Hm & Hk).
  destruct (IH Hmore) as (IHn & IHm & IHk).
  unfold normalizeAll, mappedItems in *. cbn [map filter attribute value].
  rewrite Hn, Hm, IHn, IHm. repeat split. constructor; assumption.
Qed.

(** X6. The fallback and the builder fit together: for every question
    from which the fallback extracts something, the builder returns a
    complete query whose WHERE clause holds the predicate of every
    extracted item, one per item and in the order of the list. *)
Theorem fallback_intent_is_fully_covered :
  forall question : string,
    fallbackExtractIntent question <> [] ->
    exists joins,
      collectJoins (fallbackExtractIntent question) [] = Ok joins
      /\ buildConditions (fallbackExtractIntent question)
         = Ok (map predicateOf (fallbackExtractIntent question))
      /\ buildSqlFromIntent (fallbackExtractIntent question)
         = Ok (queryText
                 (selectColumnsForIntent (map attribute (fallbackExtractIntent question)) joins)
                 (joinLinesFor joins)
                 (map predicateOf (fallbackExtractIntent question))).
Proof.
  intros question Hne.
  pose proof (fallbackExtractIntent_in_vocabulary question) as Hvocab.
  destruct (covered_items _ Hvocab) as (Hnorm & Hmapped & _).
  assert (Hall : forallb (fun i => isMapped (attribute i))
                         (normalizeAll (fallbackExtractIntent question)) = true).
  { rewrite Hnorm. apply forallb_forall. intros i Hin.
    unfold mappedItems in Hmapped. rewrite <- Hmapped in Hin.
    apply filter_In in Hin. apply Hin. }
  destruct (buildSqlFromIntent_mapped _ Hne Hall) as (joins & Hjoins & Hconds & Hsql).
  rewrite Hnorm in Hjoins, Hconds, Hsql.
  exists joins. repeat split; assumption.
Qed.

Lemma fallback_intent_is_fully_covered_witness :
  exists joins,
    collectJoins (fallbackExtractIntent "lawyers in Pune earning more than 10 LPA") [] = Ok joins
    /\ buildConditions (fallbackExtractIntent "lawyers in Pune earning more than 10 LPA")
       = Ok (map predicateOf (fallbackExtractIntent "lawyers in Pune earning more than 10 LPA"))
    /\ buildSqlFromIntent (fallbackExtractIntent "lawyers in Pune earning more than 10 LPA")
       = Ok (queryText
               (selectColumnsForIntent
                  (map attribute (fallbackExtractIntent "lawyers in Pune earning more than 10 LPA"))
                  joins)
               (joinLinesFor joins)
               (map predicateOf (fallbackExtractIntent "lawyers in Pune earning more than 10 LPA"))).
Proof.
  apply (fallback_intent_is_fully_covered "lawyers in Pune earning more than 10 LPA").
  vm_compute. discriminate.
Defined.

(** *** Attribute names *)

Lemma mapped_cases attr :
  isMapped attr = true -> exists raw, In (attr, raw) INTENT_TO_SQL.
Proof.
  unfold isMapped. destruct (assoc attr INTENT_TO_SQL) as [raw |] eqn:H; [| discriminate].
  intros _. exists raw. apply assoc_In. exact H.
Qed.

Ltac each_key H :=
  unfold INTENT_TO_SQL in H; cbn [In] in H;
  repeat (destruct H as [H | H]; [injection H as <- _ |]); [.. | destruct H].

(** X7. Coverage does not depend on the spelling of an attribute: a name
    that is a key of [INTENT_TO_SQL] once lower-cased and trimmed is
    normalised to that key, and so is the same name behind the prefix
    [location.]. *)
Theorem normalizeIntentAttribute_finds_mapped_keys :
  forall attr key : string,
    isMapped key = true ->
    trim (toLowerCase attr) = key \/ trim (toLowerCase attr) = "location." ++ key ->
    normalizeIntentAttribute attr = key.
Proof.
  intros attr key Hkey Hattr. unfold normalizeIntentAttribute.
  destruct (mapped_cases key Hkey) as (raw & Hin).
  destruct Hattr as [-> | ->]; each_key Hin; vm_compute; reflexivity.
Qed.

Lemma normalizeIntentAttribute_finds_witness :
  normalizeIntentAttribute "  Location.State " = "state".
Proof.
  apply (normalizeIntentAttribute_finds_mapped_keys "  Location.State " "state").
  - vm_compute. reflexivity.
  - right. vm_compute. reflexivity.
Defined.

(** *** Joins and selected columns *)

(** The aliases the builder can join, with their tables, in the order of
    the JOIN lines. *)
Definition joinCatalogue : list (string * string) :=
  [ ("pl", "profile_locations"); ("c", "career_details"); ("sb", "social_background");
    ("lh", "lifestyle_habits"); ("ed", "education_details"); ("f", "family_origin");
    ("uh", "user_horoscopes") ].

Definition joinLine (entry : string * string) : string :=
  "LEFT JOIN " ++ snd entry ++ " " ++ fst entry ++ " ON p.profile_id = "
  ++ fst entry ++ ".profile_id".

(** Some item of the intent requires the alias, by [INTENT_TABLES]. *)
Definition requires (alias : string) (items : list ExtractedIntent) : bool :=
  existsb (fun i => match assoc (attribute i) INTENT_TABLES with
                    | Some tables => has alias tables
                    | None => false
                    end) items.

(** The alias of a column: the text before the dot. *)
Fixpoint aliasOf (col : string) : string :=
  match col with
  | EmptyString => EmptyString
  | String c r => if Ascii.eqb c "." then EmptyString else String c (aliasOf r)
  end.

Lemma has_app x xs ys : has x (xs ++ ys) = has x xs || has x ys.
Proof. unfold has. apply existsb_app. Qed.

Lemma has_add x t set : has x (add t set) = has x set || String.eqb x t.
Proof.
  unfold add. destruct (has t set) eqn:Ht.
  - destruct (String.eqb x t) eqn:Hx; [| rewrite orb_false_r; reflexivity].
    apply String.eqb_eq in Hx. subst x. rewrite Ht. reflexivity.
  - rewrite has_app. cbn. rewrite orb_false_r. reflexivity.
Qed.

Lemma has_fold_add x tables : forall set,
  has x (fold_left (fun js t => add t js) tables set) = has x set || has x tables.
Proof.
  induction tables as [| t more IH]; intros set; cbn [fold_left].
  - cbn. rewrite orb_false_r. reflexivity.
  - rewrite IH, has_add. cbn [has existsb]. fold (has x more).
    rewrite <- orb_assoc. reflexivity.
Qed.

(** The first loop of the builder computes the union of the join
    requirements. *)
Lemma collectJoins_union alias items : forall set joins,
  collectJoins items set = Ok joins ->
  has alias joins = has alias set || requires alias items.
Proof.
  induction items as [| i more IH]; intros set joins; cbn [collectJoins requires existsb].
  - intros [= <-]. rewrite orb_false_r. reflexivity.
  - unfold js_get. fold (requires alias more).
    destruct (assoc (attribute i) INTENT_TABLES) as [tables |].
    + intros H. rewrite (IH _ _ H), has_fold_add, orb_assoc. reflexivity.
    + destruct (has (attribute i) object_prototype_keys); [discriminate |].
      intros H. rewrite (IH _ _ H). reflexivity.
Qed.

Lemma joinLinesFor_catalogue joins :
  joinLinesFor joins = map joinLine (filter (fun e => has (fst e) joins) joinCatalogue).
Proof.
  unfold joinLinesFor, joinCatalogue. cbn [filter map fst].
  destruct (has "pl" joins), (has "c" joins), (has "sb" joins), (has "lh" joins),
    (has "ed" joins), (has "f" joins), (has "uh" joins); reflexivity.
Qed.

(** X8. The join lines of a built query are those of the catalogue
    aliases that some item of the intent requires, each once, in catalogue
    order, each a LEFT JOIN on [p.profile_id = alias.profile_id]. An alias
    outside the catalogue ([u], [us], required by subscription_plan) never
    gets a join line. *)
Theorem buildSqlFromIntent_joins_are_required :
  forall intent : list ExtractedIntent,
    noPrototypeKey intent -> intent <> [] ->
    exists selectCols conds,
      buildSqlFromIntent intent =
      Ok (queryText selectCols
            (map joinLine
                 (filter (fun e => requires (fst e) (normalizeAll intent)) joinCatalogue))
            conds).
Proof.
  intros intent Hkeys Hne. unfold buildSqlFromIntent.
  destruct (List.length (normalizeAll intent) =? 0) eqn:Hlen.
  - apply Nat.eqb_eq in Hlen. unfold normalizeAll in Hlen. rewrite length_map in Hlen.
    destruct intent; [contradiction | discriminate].
  - destruct (collectJoins_returns _ Hkeys []) as (joins & Hjoins). rewrite Hjoins.
    destruct (buildConditions_returns _ Hkeys) as (conds & -> & _).
    exists (selectColumnsForIntent (map attribute (normalizeAll intent)) joins), conds.
    rewrite joinLinesFor_catalogue.
    assert (Hsame : forall e : string * string,
               has (fst e) joins = requires (fst e) (normalizeAll intent)).
    { intros e. rewrite (collectJoins_union _ _ _ _ Hjoins). reflexivity. }
    rewrite (filter_ext _ _ Hsame). reflexivity.
Qed.

Definition planAndCity : list ExtractedIntent :=
  [Intent "subscription_plan" "gold"; Intent "city" "Pune"].

Lemma buildSqlFromIntent_joins_witness :
  exists selectCols conds,
    buildSqlFromIntent planAndCity =
    Ok (queryText selectCols
          (map joinLine
               (filter (fun e => requires (fst e) (normalizeAll planAndCity)) joinCatalogue))
          conds).
Proof.
  apply (buildSqlFromIntent_joins_are_required planAndCity).
  - unfold noPrototypeKey. vm_compute. repeat constructor.
  - discriminate.
Defined.

Lemma has_attribute_requires key alias tables items :
  assoc key INTENT_TABLES = Some tables ->
  has alias tables = true ->
  has key (map attribute items) = true ->
  requires alias items = true.
Proof.
  intros Htables Halias. induction items as [| i more IH]; cbn [map has existsb requires].
  - discriminate.
  - fold (has key (map attribute more)). fold (requires alias more).
    intros H. apply orb_true_iff in H. destruct H as [H | H].
    + apply String.eqb_eq in H. subst key. rewrite Htables, Halias. reflexivity.
    + rewrite (IH H). apply orb_true_r.
Qed.

(** The columns selected for an intent, given the aliases joined. *)
Definition selectedFrom (joins : list string) (col : string) : bool :=
  String.eqb (aliasOf col) "p"
  || (has (aliasOf col) joins && has (aliasOf col) (map fst joinCatalogue)).

(** [xs] is [base] followed by columns that satisfy [ok]. *)
Definition extends (ok : string -> bool) (base xs : list string) : Prop :=
  exists more, xs = (base ++ more)%list /\ forallb ok more = true.

Lemma extends_refl ok base : extends ok base base.
Proof. exists []. rewrite app_nil_r. split; reflexivity. Qed.

Lemma extends_push ok base xs b items :
  extends ok base xs ->
  (b = true -> forallb ok items = true) ->
  extends ok base (push_when b items xs).
Proof.
  intros (more & -> & Hmore) Hitems. unfold push_when. destruct b.
  - exists (more ++ items)%list. rewrite app_assoc, forallb_app, Hmore, (Hitems eq_refl).
    split; reflexivity.
  - exists more. split; [reflexivity | exact Hmore].
Qed.

Ltac joined_alias :=
  let Hb := fresh "Hb" in
  intros Hb; unfold selectedFrom; cbn -[has]; rewrite ?Hb; reflexivity.

(** X9. The select list of a built query starts with the identifying
    columns [p.profile_id, p.first_name, p.last_name], and every further
    column comes from [p] or from an alias that is joined. *)
Theorem selected_columns_are_joined :
  forall (intent : list ExtractedIntent) (joins : list string),
    collectJoins (normalizeAll intent) [] = Ok joins ->
    exists more,
      selectColumnsForIntent (map attribute (normalizeAll intent)) joins
      = (["p.profile_id"; "p.first_name"; "p.last_name"] ++ more)%list
      /\ forallb (selectedFrom joins) more = true.
Proof.
  intros intent joins Hjoins.
  set (attrs := map attribute (normalizeAll intent)).
  assert (Hpl : forall key, In key ["city"; "state"; "country"] ->
                            has key attrs = true -> has "pl" joins = true).
  { intros key Hkey Hhas.
    rewrite (collectJoins_union "pl" _ _ _ Hjoins). cbn [has existsb orb].
    destruct Hkey as [<- | [<- | [<- | []]]];
      (eapply has_attribute_requires; [| | exact Hhas]; reflexivity). }
  change (extends (selectedFrom joins) ["p.profile_id"; "p.first_name"; "p.last_name"]
                  (selectColumnsForIntent attrs joins)).
  unfold selectColumnsForIntent.
  repeat (apply extends_push; [| joined_alias]).
  assert (Hloc : extends (selectedFrom joins) ["p.profile_id"; "p.first_name"; "p.last_name"]
                   (push_when (has "pl" joins || has "city" attrs || has "state" attrs
                               || has "country" attrs) ["pl.city"; "pl.state"]
                              ["p.profile_id"; "p.first_name"; "p.last_name"])).
  { apply extends_push; [apply extends_refl |].
    intros Hb.
    assert (Hjoined : has "pl" joins = true).
    { apply orb_true_iff in Hb. destruct Hb as [Hb | Hb];
        [| apply (Hpl "country"); [cbn; auto | exact Hb]].
      apply orb_true_iff in Hb. destruct Hb as [Hb | Hb];
        [| apply (Hpl "state"); [cbn; auto | exact Hb]].
      apply orb_true_iff in Hb. destruct Hb as [Hb | Hb];
        [exact Hb | apply (Hpl "city"); [cbn; auto | exact Hb]]. }
    unfold selectedFrom. cbn -[has]. rewrite Hjoined. reflexivity. }
  destruct (has "c" joins) eqn:Ec.
  - repeat (apply extends_push;
            [| intros _; unfold selectedFrom; cbn -[has]; rewrite Ec; reflexivity]).
    exact Hloc.
  - exact Hloc.
Qed.

Lemma selected_columns_witness :
  exists more,
    selectColumnsForIntent (map attribute (normalizeAll planAndCity)) ["u"; "us"; "pl"]
    = (["p.profile_id"; "p.first_name"; "p.last_name"] ++ more)%list
    /\ forallb (selectedFrom ["u"; "us"; "pl"]) more = true.
Proof.
  apply (selected_columns_are_joined planAndCity ["u"; "us"; "pl"]).
  vm_compute. reflexivity.
Defined.

(** *** Inherited keys *)

Lemma prototype_key_has_no_tables attr :
  has attr object_prototype_keys = true -> js_get INTENT_TABLES attr = Inherited.
Proof.
  intros H. unfold js_get. rewrite H.
  unfold has, object_prototype_keys in H. cbn [existsb] in H.
  repeat (apply orb_true_iff in H; destruct H as [H | H]);
    try discriminate H;
    apply String.eqb_eq in H; subst attr; reflexivity.
Qed.

Lemma collectJoins_throws items :
  existsb (fun i => has (attribute i) object_prototype_keys) items = true ->
  forall joins, collectJoins items joins = TypeError.
Proof.
  induction items as [| i more IH]; cbn [existsb collectJoins]; [discriminate |].
  intros H joins. destruct (has (attribute i) object_prototype_keys) eqn:Hi.
  - rewrite (prototype_key_has_no_tables _ Hi). reflexivity.
  - cbn [orb] in H. destruct (js_get INTENT_TABLES (attribute i)); auto.
Qed.

Lemma no_key_Forall items :
  existsb (fun i => has (attribute i) object_prototype_keys) items = false ->
  Forall (fun i => has (attribute i) object_prototype_keys = false) items.
Proof.
  induction items as [| i more IH]; cbn [existsb]; [constructor |].
  intros H. apply orb_false_iff in H. destruct H as [Hi Hmore]. constructor; auto.
Qed.

(** X10. The builder throws ([tables.forEach] is not a function) exactly
    when some attribute of the intent, once normalised, names a property
    inherited from [Object.prototype] (such as [constructor] or
    [__proto__]); for every other intent it returns a string. *)
Theorem buildSqlFromIntent_throws_exactly_on_inherited_keys :
  forall intent : list ExtractedIntent,
    buildSqlFromIntent intent = TypeError
    <-> existsb (fun i => has (attribute i) object_prototype_keys) (normalizeAll intent) = true.
Proof.
  intros intent. split.
  - intros Hthrow.
    destruct (existsb _ (normalizeAll intent)) eqn:Hkeys; [reflexivity |].
    apply no_key_Forall in Hkeys.
    destruct intent as [| i more]; [discriminate Hthrow |].
    destruct (buildSqlFromIntent_returns (i :: more) Hkeys) as (? & ? & ? & Hok & _);
      [discriminate |].
    rewrite Hok in Hthrow. discriminate.
  - intros Hkeys. unfold buildSqlFromIntent.
    destruct (normalizeAll intent) as [| i more] eqn:Hnorm; [discriminate |].
    cbn [List.length Nat.eqb]. rewrite (collectJoins_throws _ Hkeys). reflexivity.
Qed.

End PlannerMore.

(** * Further properties of the two handlers *)

Module AppMore.
Import JsString Regex Planner Validator App AppFacts.

(** *** POST /api/execute *)

(** A refusal: status 400 with a message and nothing else. *)
Definition refusal (resp : Response) : Prop :=
  status resp = 400 /\ success resp = None /\ executed_sql resp = None
  /\ data resp = None /\ row_count resp = None
  /\ exists msg, resp_error resp = Some msg.

(** The answer after the query [sql] was run: the rows with their count,
    or the error of the database, which is not empty. *)
Definition answered (sql : string) (resp : Response) : Prop :=
  executed_sql resp = Some sql
  /\ ((status resp = 200 /\ success resp = Some true /\ resp_error resp = None
       /\ exists rows, data resp = Some rows /\ row_count resp = Some (List.length rows))
      \/ (status resp = 422 /\ success resp = Some false /\ data resp = None
          /\ exists err, resp_error resp = Some err /\ truthy err = true)).

Lemma guard_needs_text raw : selectGuard (trim raw) -> truthy raw = true.
Proof.
  destruct raw; [| reflexivity]. unfold selectGuard. vm_compute. discriminate.
Qed.

(** X11. POST /api/execute always answers, and never with status 500:
    either it refuses with status 400 and leaves the database and the log
    untouched, which happens exactly when the body holds no text whose
    trimmed form passes the guard [/^\s*SELECT\s+/i]; or it runs the
    trimmed text once and answers 200 with the rows and their count, or 422
    with the non-empty error of the database. *)
Theorem executeHandler_answers :
  forall (W : Type) (env : Collaborators W) (body : BodyField) (st : PState W),
    exists st' resp,
      executeHandler env body st = (st', Val resp)
      /\ ((st' = st /\ refusal resp
           /\ forall raw, body = Text raw -> ~ selectGuard (trim raw))
          \/ (exists raw, body = Text raw /\ selectGuard (trim raw)
                /\ st' = St (fst (readonlyDb_raw env (trim raw) (world st)))
                            (events st ++ [Executed (trim raw)])
                /\ answered (trim raw) resp)).
Proof.
  intros W env body st. unfold executeHandler.
  destruct body as [| raw |].
  - eexists. eexists. split; [reflexivity |]. left.
    split; [reflexivity |]. split; [unfold refusal; cbn; eauto 10 |]. discriminate.
  - destruct (negb (truthy raw)) eqn:Htext.
    + eexists. eexists. split; [reflexivity |]. left.
      split; [reflexivity |]. split; [unfold refusal; cbn; eauto 10 |].
      intros raw' [= <-] Hguard. apply guard_needs_text in Hguard.
      rewrite Hguard in Htext. discriminate.
    + destruct (test true (rx "^\s*SELECT\s+") (trim raw)) eqn:Hguard; cbn [negb].
      * unfold tryCatch, bind. rewrite executeMatrimonialQuery_run.
        destruct (failing _) as [err |] eqn:Hfail;
          (eexists; eexists; split; [reflexivity |]; right; exists raw;
           split; [reflexivity |]; split; [exact Hguard |]; split; [reflexivity |]).
        -- split; [reflexivity |]. right. cbn. repeat split. exists err. split; [reflexivity |].
           unfold failing in Hfail.
           destruct (match snd (readonlyDb_raw env (trim raw) (world st)) with
                     | inr (WithRows rows) => Rows rows
                     | inr WithoutRows => Rows []
                     | inl (ErrorObject message) => ErrorObj message
                     | inl (OtherValue _) => ErrorObj "Unknown error occurred"
                     end) as [rows | e]; [discriminate |].
           destruct (truthy e) eqn:He; [| discriminate]. injection Hfail as <-. exact He.
        -- split; [reflexivity |]. left. cbn. repeat split. eexists. split; reflexivity.
      * eexists. eexists. split; [reflexivity |]. left.
        split; [reflexivity |]. split; [unfold refusal; cbn; eauto 10 |].
        intros raw' [= <-] H. unfold selectGuard in H. rewrite Hguard in H. discriminate.
  - eexists. eexists. split; [reflexivity |]. left.
    split; [reflexivity |]. split; [unfold refusal; cbn; eauto 10 |]. discriminate.
Qed.

(** X12. An [Error] with an empty message is not seen as a failure: when
    the database throws one on a query that passes the guard, POST
    /api/execute answers 200 with [success = true], no rows and a row count
    of 0. *)
Theorem executeHandler_empty_error_reads_as_success :
  forall (W : Type) (env : Collaborators W) (raw : string) (st : PState W) (w1 : W),
    selectGuard (trim raw) ->
    readonlyDb_raw env (trim raw) (world st) = (w1, inl (ErrorObject EmptyString)) ->
    executeHandler env (Text raw) st
    = (St w1 (events st ++ [Executed (trim raw)]),
       Val (Resp 200 (Some true) None (Some (trim raw)) None None None None
                 (Some []) (Some 0) None)).
Proof.
  intros W env raw st w1 Hguard Hdb. unfold executeHandler.
  rewrite (guard_needs_text raw Hguard). unfold selectGuard in Hguard. rewrite Hguard.
  cbn [negb]. unfold tryCatch, bind. rewrite executeMatrimonialQuery_run, Hdb. reflexivity.
Qed.

(** The database throws an [Error] without a message. *)
Definition silentFailure : Collaborators unit :=
  Scenario.fixedEnv (inr "[]") (inr "SELECT 1") (inl (ErrorObject EmptyString)).

Lemma executeHandler_empty_error_witness :
  executeHandler silentFailure (Text "SELECT 1 ") Scenario.start
  = (St tt (events Scenario.start ++ [Executed (trim "SELECT 1 ")]),
     Val (Resp 200 (Some true) None (Some (trim "SELECT 1 ")) None None None None
               (Some []) (Some 0) None)).
Proof.
  apply (executeHandler_empty_error_reads_as_success unit silentFailure "SELECT 1 "
           Scenario.start tt).
  - vm_compute. reflexivity.
  - reflexivity.
Defined.

(** *** POST /api/ask: the shape of the log and of the response *)

(** The log of [n] attempts under one intent.  An attempt is a synthesis
    and the validation of its text, followed by the execution of the
    validator's text when it was forwarded; only accepted text is
    forwarded. *)
Inductive attempts (intent : list ExtractedIntent) : nat -> list Event -> Prop :=
| attempts_none : attempts intent 0 []
| attempts_withheld n evs raw :
    attempts intent n evs ->
    attempts intent (S n) (evs ++ [Synthesized raw; Validated raw])
| attempts_forwarded n evs raw :
    attempts intent n evs ->
    valid (validateAndFixSql raw intent) = true ->
    attempts intent (S n)
             (evs ++ [Synthesized raw; Validated raw;
                      Executed (Validator.sql (validateAndFixSql raw intent))]).

Lemma take_length n s : String.length (take n s) <= n.
Proof.
  revert s. induction n as [| n IH]; intros s; [cbn; lia |].
  destruct s as [| c r]; cbn; [lia |]. specialize (IH r). lia.
Qed.

Section Shape.
Context {W : Type}.
Variable env : Collaborators W.

(** The five kinds of response of POST /api/ask. *)
Definition askShape (resp : Response) : Prop :=
  (status resp = 400 /\ success resp = None /\ generated_sql resp = None
   /\ data resp = None /\ resp_error resp <> None)
  \/ (status resp = 200 /\ success resp = Some true /\ resp_error resp = None
      /\ detail resp = None /\ extracted_intent resp <> None
      /\ (exists sql, generated_sql resp = Some sql
                      /\ supabase_query resp = Some (sqlToSupabaseQuery env sql))
      /\ (exists rows, data resp = Some rows /\ row_count resp = Some (List.length rows))
      /\ c1_response resp <> Some EmptyString)
  \/ (status resp = 422 /\ success resp = Some false /\ data resp = None
      /\ row_count resp = None /\ extracted_intent resp <> None
      /\ (exists sql, generated_sql resp = Some sql
                      /\ supabase_query resp = Some (sqlToSupabaseQuery env sql))
      /\ (exists err, resp_error resp = Some err /\ truthy err = true))
  \/ (status resp = 429 /\ success resp = Some false /\ generated_sql resp = None
      /\ data resp = None /\ resp_error resp = Some rateLimitMessage
      /\ (exists d, detail resp = Some d /\ String.length d <= 500))
  \/ (status resp = 500 /\ success resp = Some false /\ generated_sql resp = None
      /\ data resp = None
      /\ (exists d, detail resp = Some d
                    /\ test true (rx "429|quota|rate limit|Too Many Requests") d = false)).

Variable base : list Event.

Local Abbreviation MAX := MAX_CORRECTION_ATTEMPTS.

Section Attempts.
Variable intent : list ExtractedIntent.

(** The log since [base] is that of [k] attempts. *)
Definition logged (k : nat) (evs : list Event) : Prop :=
  exists new, evs = (base ++ new)%list /\ attempts intent k new.

(** ... followed by the synthesis of [raw]. *)
Definition pending (k : nat) (raw : string) (evs : list Event) : Prop :=
  exists new, evs = (base ++ new ++ [Synthesized raw])%list /\ attempts intent k new.

(** ... and by its validation. *)
Definition checked (k : nat) (raw : string) (evs : list Event) : Prop :=
  exists new, evs = (base ++ new ++ [Synthesized raw; Validated raw])%list
              /\ attempts intent k new.

Definition upTo (m : nat) (evs : list Event) : Prop :=
  exists k, k <= m /\ logged k evs.

Lemma logged_pending k raw evs :
  logged k evs -> pending k raw (evs ++ [Synthesized raw]).
Proof.
  intros (new & -> & H). exists new. rewrite <- app_assoc. auto.
Qed.

Lemma pending_checked k raw evs :
  pending k raw evs -> checked k raw (evs ++ [Validated raw]).
Proof.
  intros (new & -> & H). exists new. rewrite <- !app_assoc. auto.
Qed.

Lemma checked_withheld k raw evs : checked k raw evs -> logged (S k) evs.
Proof.
  intros (new & -> & H). eexists. split; [reflexivity |]. constructor. exact H.
Qed.

Lemma checked_forwarded k raw evs :
  valid (validateAndFixSql raw intent) = true ->
  checked k raw evs ->
  logged (S k) (evs ++ [Executed (Validator.sql (validateAndFixSql raw intent))]).
Proof.
  intros Hv (new & -> & H). eexists. split; [| apply attempts_forwarded; eassumption].
  rewrite <- !app_assoc. reflexivity.
Qed.

Lemma generateCorrectedSQL_logged k question ctx prevSql err :
  triple (logged k) (generateCorrectedSQL env question ctx prevSql err intent)
         (fun raw => pending k raw) (fun _ => logged k).
Proof.
  intros st H. unfold generateCorrectedSQL, bind, call, emit, ret.
  destruct (generateText env _ (world st)) as [w1 [t | text]]; cbn.
  - exact H.
  - apply logged_pending. exact H.
Qed.

Lemma generateMatrimonialSQL_logged k question ctx :
  triple (logged k) (generateMatrimonialSQL env question ctx intent)
         (fun raw => pending k raw) (fun _ => logged k).
Proof.
  intros st H. unfold generateMatrimonialSQL, bind, call, emit, ret, throw.
  destruct (0 <? List.length (normalizeAll intent)).
  - destruct (buildSqlFromIntent intent); cbn; [apply logged_pending |]; exact H.
  - destruct (generateText env _ (world st)) as [w1 [t | text]]; cbn;
      [| apply logged_pending]; exact H.
Qed.

Lemma validated_logged k raw :
  triple (pending k raw) (validated (W := W) raw intent)
         (fun v evs => v = validateAndFixSql raw intent /\ checked k raw evs)
         (fun _ _ => False).
Proof.
  intros st H. unfold validated, bind, emit, ret. cbn.
  split; [reflexivity | apply pending_checked; exact H].
Qed.

(** The end of an attempt in the loop: the query is run unless the
    validator rejected it. *)
Lemma attemptAfter_logged k raw :
  triple (checked k raw) (attemptAfter env (validateAndFixSql raw intent))
         (fun _ => logged (S k)) (fun _ _ => False).
Proof.
  unfold attemptAfter. destruct (rejected (validateAndFixSql raw intent)) eqn:Hrej.
  - intros st H. cbn. apply (checked_withheld k raw). exact H.
  - intros st H. rewrite executeMatrimonialQuery_run. cbn.
    apply checked_forwarded; [apply rejected_none_valid; exact Hrej | exact H].
Qed.

Lemma correctionLoop_logged fuel :
  forall question ctx sql results attempts,
    attempts <= MAX -> MAX <= fuel + attempts ->
    triple (logged attempts)
           (correctionLoop env fuel question ctx intent (sql, results, attempts))
           (fun _ => upTo MAX) (fun _ => upTo MAX).
Proof.
  induction fuel as [| fuel IH]; intros question ctx sql results attempts Hle Hfuel.
  - cbn [correctionLoop]. destruct (failing results) as [err |].
    + destruct (attempts <? MAX) eqn:Hlt.
      * apply Nat.ltb_lt in Hlt. lia.
      * intros st H. exists attempts. split; [exact Hle | exact H].
    + intros st H. exists attempts. split; [exact Hle | exact H].
  - cbn [correctionLoop]. destruct (failing results) as [err |].
    + destruct (attempts <? MAX) eqn:Hlt.
      * apply Nat.ltb_lt in Hlt.
        eapply triple_bind with (R := fun raw => pending attempts raw).
        { eapply triple_conseq;
            [apply generateCorrectedSQL_logged | intros evs H; exact H
            | intros a evs H; exact H |].
          intros t evs H. exists attempts. split; [exact Hle | exact H]. }
        intros corrected.
        eapply triple_bind
          with (R := fun v evs => v = validateAndFixSql corrected intent
                                  /\ checked attempts corrected evs).
        { eapply triple_conseq;
            [apply validated_logged | intros evs H; exact H | intros a evs H; exact H
            | intros t evs []]. }
        intros revalidate.
        eapply triple_bind with (R := fun _ => logged (S attempts)).
        { intros st [-> H]. revert st H.
          change (triple (checked attempts corrected)
                         (attemptAfter env (validateAndFixSql corrected intent))
                         (fun _ => logged (S attempts)) (fun _ => upTo MAX)).
          eapply triple_conseq;
            [apply attemptAfter_logged | intros evs H; exact H | intros a evs H; exact H
            | intros t evs []]. }
        intros results'. apply IH; lia.
      * intros st H. exists attempts. split; [exact Hle | exact H].
    + intros st H. exists attempts. split; [exact Hle | exact H].
Qed.

End Attempts.

(** The log and the response of a request. *)
Definition asked (resp : Response) (evs : list Event) : Prop :=
  (exists intent, upTo intent MAX evs) /\ askShape resp.

Lemma base_logged intent : logged intent 0 base.
Proof. exists []. rewrite app_nil_r. split; [reflexivity | constructor]. Qed.

Lemma askBody_asked fuel question :
  MAX <= S fuel ->
  triple (fun evs => evs = base) (askBody env fuel question)
         asked (fun _ evs => exists intent, upTo intent MAX evs).
Proof.
  intros Hfuel. unfold askBody.
  assert (Hbase : forall evs, evs = base -> exists intent, upTo intent MAX evs).
  { intros evs ->. exists []. exists 0. split; [lia | apply base_logged]. }
  eapply triple_bind with (R := fun _ evs => evs = base).
  { eapply triple_conseq;
      [apply triple_call | intros evs H; exact H | intros a evs H; exact H |].
    intros t evs H. apply Hbase. exact H. }
  intros context.
  eapply triple_bind with (R := fun _ evs => evs = base).
  { intros st H. unfold extractIntentFromQuestion, bind, call, ret.
    destruct (generateText env _ (world st)) as [w1 [t | text]]; cbn.
    - apply Hbase. exact H.
    - destruct (parseIntentArray env (stripFences text)); exact H. }
  intros intent.
  assert (Hup : forall k evs, k <= MAX -> logged intent k evs ->
                              exists intent', upTo intent' MAX evs).
  { intros k evs Hk H. exists intent, k. auto. }
  eapply triple_bind with (R := fun raw => pending intent 0 raw).
  { eapply triple_conseq;
      [apply generateMatrimonialSQL_logged | | intros a evs H; exact H |].
    - intros evs ->. apply base_logged.
    - intros t evs H. apply (Hup 0); [lia | exact H]. }
  intros sql.
  eapply triple_bind
    with (R := fun v evs => v = validateAndFixSql sql intent /\ checked intent 0 sql evs).
  { eapply triple_conseq;
      [apply validated_logged | intros evs H; exact H | intros a evs H; exact H
      | intros t evs []]. }
  intros validation.
  eapply triple_bind with (R := fun _ => logged intent 1).
  { intros st [-> H]. destruct (rejected (validateAndFixSql sql intent)) eqn:Hrej.
    - cbn. apply (checked_withheld intent 0 sql). exact H.
    - destruct ((0 <? List.length intent) && _).
      + cbn. apply (checked_withheld intent 0 sql). exact H.
      + rewrite executeMatrimonialQuery_run. cbn.
        apply checked_forwarded; [apply rejected_none_valid; exact Hrej | exact H]. }
  intros results.
  eapply triple_bind with (R := fun _ => upTo intent MAX).
  { eapply triple_conseq;
      [apply correctionLoop_logged with (attempts := 1)
      | intros evs H; exact H | intros a evs H; exact H |];
      [unfold MAX_CORRECTION_ATTEMPTS; lia | unfold MAX_CORRECTION_ATTEMPTS in *; lia |].
    intros t evs H. exists intent. exact H. }
  intros [[sql' results'] attempts'].
  destruct (failing results') as [err |] eqn:Hfail.
  - intros st H. cbn. split; [exists intent; exact H |].
    right. right. left. cbn. repeat split; try discriminate; eauto.
    exists err. split; [reflexivity |].
    unfold failing in Hfail. destruct results' as [rows | e]; [discriminate |].
    destruct (truthy e) eqn:He; [| discriminate]. injection Hfail as <-. exact He.
  - eapply triple_bind with (R := fun _ => upTo intent MAX).
    + destruct (THESYS_API_KEY env).
      * eapply triple_conseq;
          [apply triple_call with (P := upTo intent MAX)
          | intros evs H; exact H | intros a evs H; exact H |].
        intros t evs H. exists intent. exact H.
      * intros st H. exact H.
    + intros c1 st H. cbn. split; [exists intent; exact H |].
      right. left. cbn. repeat split; try discriminate; eauto.
      destruct c1 as [txt |]; [| discriminate].
      destruct txt; cbn; discriminate.
Qed.

Lemma askHandler_asked fuel question :
  MAX <= S fuel ->
  triple (fun evs => evs = base) (askHandler env fuel question)
         asked (fun _ _ => False).
Proof.
  intros Hfuel. unfold askHandler.
  destruct (negb (truthy question)).
  - intros st H. cbn. rewrite H. split.
    + exists [], 0. split; [lia | apply base_logged].
    + left. cbn. repeat split; discriminate.
  - eapply triple_catch; [apply askBody_asked; exact Hfuel |].
    intros t.
    destruct (test true (rx "429|quota|rate limit|Too Many Requests") (messageOf t)) eqn:Hrate;
      intros st H; cbv beta iota delta [ret]; (split; [exact H |]).
    + right. right. right. left.
      cbn [status success generated_sql data resp_error detail]. repeat split.
      eexists. split; [reflexivity | apply take_length].
    + right. right. right. right.
      cbn [status success generated_sql data resp_error detail]. repeat split.
      eexists. split; [reflexivity | exact Hrate].
Qed.

End Shape.

(** X13. What a request to POST /api/ask adds to the log is a sequence of
    at most [MAX_CORRECTION_ATTEMPTS] complete attempts under one intent:
    each attempt is a synthesis, the validation of the synthesised text
    and, only when the validator accepted it, the execution of the text the
    validator returned.  A collaborator that throws never leaves an attempt
    half done. *)
Theorem askHandler_log_is_a_sequence_of_attempts :
  forall (W : Type) (env : Collaborators W) (fuel : nat) (question : string) (st : PState W),
    MAX_CORRECTION_ATTEMPTS <= S fuel ->
    exists st' resp intent n new,
      askHandler env fuel question st = (st', Val resp)
      /\ events st' = (events st ++ new)%list
      /\ attempts intent n new
      /\ n <= MAX_CORRECTION_ATTEMPTS.
Proof.
  intros W env fuel question st Hfuel.
  pose proof (askHandler_asked env (events st) fuel question Hfuel st eq_refl) as H.
  destruct (askHandler env fuel question st) as [st' [resp | t |]]; [| destruct H ..].
  destruct H as [(intent & n & Hn & new & Hev & Hat) _].
  exists st', resp, intent, n, new. auto.
Qed.

Lemma askHandler_log_witness :
  exists st' resp intent n new,
    askHandler Scenario.alwaysFailing 2 "show everyone" Scenario.start = (st', Val resp)
    /\ events st' = (events Scenario.start ++ new)%list
    /\ attempts intent n new
    /\ n <= MAX_CORRECTION_ATTEMPTS.
Proof.
  exact (askHandler_log_is_a_sequence_of_attempts unit Scenario.alwaysFailing 2
           "show everyone" Scenario.start (le_n 3)).
Defined.

(** X14. Every response of POST /api/ask has one of five shapes: 400
    (no question); 200 with [success = true], no error, the rows with
    their count, the query and its rendering by [sqlToSupabaseQuery], the
    intent, and never an empty [c1_response]; 422 with [success = false],
    a non-empty error, the query, the intent, and no rows; 429 with the
    rate-limit message and a detail of at most 500 characters; 500 with a
    detail that does not mention a rate limit. *)
Theorem askHandler_response_shape :
  forall (W : Type) (env : Collaborators W) (fuel : nat) (question : string) (st : PState W),
    MAX_CORRECTION_ATTEMPTS <= S fuel ->
    exists st' resp,
      askHandler env fuel question st = (st', Val resp) /\ askShape env resp.
Proof.
  intros W env fuel question st Hfuel.
  pose proof (askHandler_asked env (events st) fuel question Hfuel st eq_refl) as H.
  destruct (askHandler env fuel question st) as [st' [resp | t |]]; [| destruct H ..].
  exists st', resp. split; [reflexivity | apply H].
Qed.

Lemma askHandler_response_witness :
  exists st' resp,
    askHandler Scenario.contextDown 2 "show everyone" Scenario.start = (st', Val resp)
    /\ askShape Scenario.contextDown resp.
Proof.
  exact (askHandler_response_shape unit Scenario.contextDown 2 "show everyone"
           Scenario.start (le_n 3)).
Defined.

End AppMore.

(** * Text rewriting: quotes and code fences *)

Module TextFacts.
Import JsString Regex Planner App.

(** Every occurrence of the character [q] replaced by [text]. *)
Fixpoint substChar (q : ascii) (text : string) (s : string) : string :=
  match s with
  | EmptyString => EmptyString
  | String c r =>
      if Ascii.eqb q c then text ++ substChar q text r else String c (substChar q text r)
  end.

(** The text before and after the first occurrence of [q]. *)
Fixpoint cut (q : ascii) (s : string) : option (string * string) :=
  match s with
  | EmptyString => None
  | String c r =>
      if Ascii.eqb q c then Some (EmptyString, r)
      else match cut q r with
           | Some (pre, post) => Some (String c pre, post)
           | None => None
           end
  end.

(** The body of a SQL string literal, read back: a doubled quote stands
    for one quote, a single one ends the literal. *)
Fixpoint sqlLiteralText (body : string) : option string :=
  match body with
  | EmptyString => Some EmptyString
  | String c r =>
      if Ascii.eqb c "'" then
        match r with
        | String c' r' =>
            if Ascii.eqb c' "'" then option_map (String c) (sqlLiteralText r') else None
        | EmptyString => None
        end
      else option_map (String c) (sqlLiteralText r)
  end.

(** The pattern of [stripFences], read once. *)
Definition fence : regex := Eval vm_compute in rx "^```\w*\n?|```\s*$".

Definition ticks : string := "```".

Definition lf : ascii := ascii_of_nat 10.

(** No backtick in the text. *)
Fixpoint plain (s : string) : bool :=
  match s with
  | EmptyString => true
  | String c r => negb (Ascii.eqb "`" c) && plain r
  end.

(** Word characters only. *)
Fixpoint wordy (s : string) : bool :=
  match s with
  | EmptyString => true
  | String c r => is_word c && wordy r
  end.

(** The loop that [run] makes for a quantifier, by name. *)
Definition star (ci : bool) (greedy : bool) (lo : nat) (hi : option nat) (r1 : regex)
           (k : mstate -> option mstate) : nat -> nat -> mstate -> option mstate :=
  fix loop (fuel : nat) (n : nat) (st0 : mstate) {struct fuel} : option mstate :=
    match fuel with
    | 0 => None
    | S f =>
        let more :=
          if below n hi then
            run ci r1 st0 (fun st1 =>
              if (n <? lo) || (String.length (rest st1) <? String.length (rest st0))
              then loop f (S n) st1 else None)
          else None in
        let stop := if lo <=? n then k st0 else None in
        if greedy then orelse more stop else orelse stop more
    end.

(** *** Strings *)

Lemma append_assoc (a b c : string) : (a ++ b) ++ c = a ++ (b ++ c).
Proof. induction a as [| x a IH]; cbn; [| rewrite IH]; reflexivity. Qed.

Lemma append_nil_r s : s ++ EmptyString = s.
Proof. induction s as [| c r IH]; cbn; [| rewrite IH]; reflexivity. Qed.

Lemma append_length a b : String.length (a ++ b) = String.length a + String.length b.
Proof. induction a as [| x a IH]; cbn; [| rewrite IH]; reflexivity. Qed.

Lemma take_prefix a b : take (String.length (a ++ b) - String.length b) (a ++ b) = a.
Proof.
  rewrite append_length. replace (String.length a + String.length b - String.length b)
    with (String.length a) by lia.
  induction a as [| x a IH]; cbn [append String.length take].
  - destruct b; reflexivity.
  - rewrite IH. reflexivity.
Qed.

Lemma rev_onto_append a : forall b, rev_onto a b = rev_onto a EmptyString ++ b.
Proof.
  induction a as [| x a IH]; intros b; cbn; [reflexivity |].
  rewrite (IH (String x b)), (IH (String x EmptyString)), append_assoc. reflexivity.
Qed.

Lemma rev_onto_twice a : forall b c, rev_onto (rev_onto a b) c = rev_onto b (a ++ c).
Proof.
  induction a as [| x a IH]; intros b c; cbn [rev_onto append]; [reflexivity |].
  rewrite IH. reflexivity.
Qed.

(** *** The matcher, step by step *)

Lemma run_Cat ci r1 r2 st k :
  run ci (Cat r1 r2) st k = run ci r1 st (fun st1 => run ci r2 st1 k).
Proof. reflexivity. Qed.

Lemma run_Rep ci greedy lo hi r1 st k :
  run ci (Rep greedy lo hi r1) st k
  = star ci greedy lo hi r1 k (S (String.length (rest st) + lo)) 0 st.
Proof. reflexivity. Qed.

Lemma run_Lit_same c p r cs k :
  run false (Lit c) (MState p (String c r) cs) k = k (MState (Some c) r cs).
Proof. cbn [run rest caps char_eq]. rewrite Ascii.eqb_refl. reflexivity. Qed.

Lemma advance_one p c r cs : advance (MState p (String c r) cs) r = MState (Some c) r cs.
Proof.
  unfold advance. cbn [rest prev caps String.length].
  replace (S (String.length r) - String.length r) with 1 by lia. reflexivity.
Qed.

Lemma search_hit ci r p acc s txt post cs :
  match_here ci r p s = Some (txt, post, cs) ->
  search ci r p acc s = Some (RMatch (rev_onto acc EmptyString) txt post cs).
Proof. intros H. destruct s; cbn [search]; rewrite H; reflexivity. Qed.

(** *** A literal character as the pattern *)

Lemma match_here_Lit q p s :
  match_here false (Lit q) p s =
  match s with
  | String x r => if Ascii.eqb q x then Some (String x EmptyString, r, []) else None
  | EmptyString => None
  end.
Proof.
  unfold match_here. destruct s as [| x r]; cbn [run rest char_eq]; [reflexivity |].
  destruct (Ascii.eqb q x); [| reflexivity].
  cbn [rest caps String.length]. replace (S (String.length r) - String.length r) with 1 by lia.
  reflexivity.
Qed.

Lemma search_Lit q s : forall p acc,
  search false (Lit q) p acc s =
  match cut q s with
  | Some (pre, post) =>
      Some (RMatch (rev_onto acc EmptyString ++ pre) (String q EmptyString) post [])
  | None => None
  end.
Proof.
  induction s as [| x r IH]; intros p acc; cbn [search cut]; rewrite match_here_Lit.
  - reflexivity.
  - destruct (Ascii.eqb q x) eqn:Hx.
    + apply Ascii.eqb_eq in Hx. subst x. rewrite append_nil_r. reflexivity.
    + rewrite IH. destruct (cut q r) as [[pre post] |]; [| reflexivity].
      cbn [rev_onto]. rewrite (rev_onto_append acc (String x EmptyString)), append_assoc.
      reflexivity.
Qed.

Lemma cut_none q text s : cut q s = None -> substChar q text s = s.
Proof.
  induction s as [| x r IH]; cbn; [reflexivity |].
  destruct (Ascii.eqb q x); [discriminate |].
  destruct (cut q r) as [[pre post] |]; [discriminate |].
  intros _. rewrite IH; reflexivity.
Qed.

Lemma cut_some q text s : forall pre post,
  cut q s = Some (pre, post) ->
  substChar q text s = pre ++ text ++ substChar q text post
  /\ String.length post < String.length s.
Proof.
  induction s as [| x r IH]; intros pre post; cbn; [discriminate |].
  destruct (Ascii.eqb q x).
  - intros [= <- <-]. split; [reflexivity | lia].
  - destruct (cut q r) as [[pre' post'] |]; [| discriminate].
    intros [= <- <-]. destruct (IH pre' post' eq_refl) as [-> Hlen].
    split; [reflexivity | lia].
Qed.

(** A global replacement of one literal character by a fixed text. *)
Lemma replace_all_from_Lit q text (f : unit -> rmatch -> unit * string) :
  (forall u m, f u m = (tt, text)) ->
  forall fuel s p done,
    String.length s < fuel ->
    replace_all_from fuel false (Lit q) f tt p done s = (tt, substChar q text s).
Proof.
  intros Hf. induction fuel as [| fuel IH]; intros s p done Hlen; [lia |].
  cbn [replace_all_from]. rewrite search_Lit. cbn [rev_onto].
  destruct (cut q s) as [[pre post] |] eqn:Hcut.
  - destruct (cut_some q text s pre post Hcut) as [-> Hpost].
    cbn [m_pre m_text m_post m_caps]. rewrite Hf.
    rewrite IH by lia. reflexivity.
  - rewrite (cut_none q text s Hcut). reflexivity.
Qed.

Lemma replace_all_Lit q tmpl s :
  (forall m, expand tmpl m = tmpl) ->
  replace_all false (Lit q) tmpl s = substChar q tmpl s.
Proof.
  intros Htmpl. unfold replace_all, replace_all_fn, replace_all_st.
  rewrite (replace_all_from_Lit q tmpl); [reflexivity | | lia].
  intros u m. rewrite Htmpl. reflexivity.
Qed.

Lemma escapeQuotes_doubles v : escapeQuotes v = substChar "'" "''" v.
Proof.
  unfold escapeQuotes. change (rx "'") with (Lit "'").
  apply replace_all_Lit. reflexivity.
Qed.

(** *** Code fences *)

Lemma fence_eq : rx "^```\w*\n?|```\s*$" = fence.
Proof. vm_compute. reflexivity. Qed.

Lemma match_here_fence p s :
  match s with String c _ => Ascii.eqb "`" c = false | EmptyString => True end ->
  match_here false fence p s = None.
Proof.
  unfold match_here, fence. destruct s as [| c r]; intros H.
  - destruct p; reflexivity.
  - destruct p; cbn -[Nat.sub Ascii.eqb]; rewrite H; reflexivity.
Qed.

Lemma search_fence s : forall p acc, plain s = true -> search false fence p acc s = None.
Proof.
  induction s as [| c r IH]; intros p acc H; cbn [search].
  - rewrite match_here_fence; [reflexivity | exact I].
  - cbn [plain] in H. apply andb_true_iff in H. destruct H as [Hc Hr].
    apply negb_true_iff in Hc.
    rewrite match_here_fence; [| exact Hc]. apply IH. exact Hr.
Qed.

(** X16. A reply of the text generator without a backtick passes through
    [stripFences] unchanged but for the white space around it. *)
Theorem stripFences_plain_text :
  forall text : string, plain text = true -> stripFences text = trim text.
Proof.
  intros text H. unfold stripFences, replace_all, replace_all_fn, replace_all_st.
  rewrite fence_eq. cbn [replace_all_from]. rewrite (search_fence text None _ H). reflexivity.
Qed.

Lemma stripFences_plain_witness :
  stripFences " SELECT 1 " = trim " SELECT 1 ".
Proof. apply (stripFences_plain_text " SELECT 1 "). reflexivity. Defined.

(** A search passes over text that holds no backtick. *)
Lemma search_fence_skip pre : forall p acc s,
  plain pre = true ->
  search false fence p acc (pre ++ s)
  = search false fence (last_char p pre) (rev_onto pre acc) s.
Proof.
  induction pre as [| c r IH]; intros p acc s Hplain; [reflexivity |].
  cbn [plain] in Hplain. apply andb_true_iff in Hplain. destruct Hplain as [Hc Hr].
  apply negb_true_iff in Hc.
  cbn [append search]. rewrite match_here_fence; [| exact Hc].
  rewrite (IH _ _ _ Hr). reflexivity.
Qed.

(** [\w*] reads a run of word characters that ends before a line feed. *)
Lemma star_word tag : forall k fuel n p cs post res,
  wordy tag = true ->
  String.length tag < fuel ->
  k (MState (last_char p tag) (String lf post) cs) = Some res ->
  star false true 0 None (Cls false [CWord]) k fuel n (MState p (tag ++ String lf post) cs)
  = Some res.
Proof.
  induction tag as [| c r IH]; intros k fuel n p cs post res Hw Hfuel Hk;
    (destruct fuel as [| fuel]; [cbn in Hfuel; lia |]).
  - cbn [append last_char] in *. cbn -[Nat.sub]. exact Hk.
  - cbn [wordy] in Hw. apply andb_true_iff in Hw. destruct Hw as [Hc Hr].
    cbn [append last_char String.length] in *.
    cbn [star below run rest class_step item_match item_has].
    rewrite Hc. rewrite advance_one. cbn [rest String.length].
    replace (String.length (r ++ String lf post) <? S (String.length (r ++ String lf post)))
      with true by (symmetry; apply Nat.ltb_lt; lia).
    rewrite orb_true_r.
    fold (star false true 0 None (Cls false [CWord]) k).
    rewrite (IH k fuel (S n) (Some c) cs post res Hr); [reflexivity | lia | exact Hk].
Qed.

Lemma match_here_opening tag post :
  wordy tag = true ->
  match_here false fence None (ticks ++ tag ++ String lf post)
  = Some (ticks ++ tag ++ String lf EmptyString, post, []).
Proof.
  intros Hw. unfold match_here.
  assert (Hrun : run false fence (MState None (ticks ++ tag ++ String lf post) [])
                     (fun st => Some st)
                 = Some (MState (Some lf) post [])).
  { unfold fence, ticks. cbn [append].
    change (run false (Alt ?a ?b) ?st ?k) with (orelse (run false a st k) (run false b st k)).
    rewrite run_Cat. change (run false Bos (MState None ?r ?cs) ?k) with (k (MState None r cs)).
    cbv beta. rewrite run_Cat, run_Lit_same, run_Cat, run_Lit_same, run_Cat, run_Lit_same.
    rewrite run_Cat, run_Rep.
    erewrite star_word;
      [reflexivity | exact Hw | cbn [rest]; rewrite append_length; lia |].
    rewrite run_Rep. cbn -[Nat.sub]. rewrite Nat.leb_refl. reflexivity. }
  rewrite Hrun. cbn [rest caps].
  replace (ticks ++ tag ++ String lf post)
    with ((ticks ++ tag ++ String lf EmptyString) ++ post).
  - rewrite take_prefix. reflexivity.
  - rewrite !append_assoc. reflexivity.
Qed.

Lemma match_here_closing p :
  match_here false fence p ticks = Some (ticks, EmptyString, []).
Proof. destruct p; reflexivity. Qed.

(** X17. [stripFences] unwraps a fenced block: three backticks, a
    language tag of word characters (possibly none), a line feed, a body
    without backticks and three closing backticks give the body, trimmed. *)
Theorem stripFences_unwraps_fenced_text :
  forall tag body : string,
    wordy tag = true -> plain body = true ->
    stripFences (ticks ++ tag ++ String lf (body ++ ticks)) = trim body.
Proof.
  intros tag body Hw Hplain. unfold stripFences. f_equal.
  unfold replace_all, replace_all_fn, replace_all_st. rewrite fence_eq.
  remember (fun (_ : unit) (m : rmatch) => (tt, expand EmptyString m)) as f eqn:Hf.
  assert (Hout : forall u m, f u m = (tt, EmptyString)) by (intros u m; rewrite Hf; reflexivity).
  clear Hf.
  assert (Hlast : forall p acc, search false fence p acc EmptyString = None).
  { intros p acc. cbn [search]. rewrite match_here_fence; [reflexivity | exact I]. }
  assert (Hclose : forall fuel p done,
             replace_all_from (S fuel) false fence f tt p done (body ++ ticks) = (tt, body)).
  { intros fuel p done. cbn [replace_all_from].
    rewrite (search_fence_skip body p EmptyString ticks Hplain).
    rewrite (search_hit _ _ _ _ _ _ _ _ (match_here_closing (last_char p body))).
    rewrite rev_onto_twice. cbn [rev_onto m_pre m_text m_post m_caps].
    rewrite Hout. unfold ticks.
    destruct fuel as [| fuel]; cbn [replace_all_from]; [| rewrite Hlast];
      rewrite !append_nil_r; reflexivity. }
  cbn [replace_all_from].
  rewrite (search_hit _ _ _ _ _ _ _ _ (match_here_opening tag (body ++ ticks) Hw)).
  cbn [rev_onto append m_pre m_text m_post m_caps]. rewrite Hout.
  change (ticks ++ tag ++ String lf EmptyString)
    with (String "`" ("``" ++ tag ++ String lf EmptyString)).
  change (String.length (ticks ++ tag ++ String lf (body ++ ticks)))
    with (S (String.length ("``" ++ tag ++ String lf (body ++ ticks)))).
  cbv iota. rewrite Hclose. reflexivity.
Qed.

Lemma stripFences_unwraps_witness :
  stripFences (ticks ++ "sql" ++ String lf ("SELECT 1" ++ ticks)) = trim "SELECT 1".
Proof.
  apply (stripFences_unwraps_fenced_text "sql" "SELECT 1"); reflexivity.
Defined.

End TextFacts.

(** * Global replacement, written out *)

Module Rewriting.
Import JsString Regex TextFacts.

(** A matcher by length: [m s = Some n] when the pattern matches the
    first [n] characters of [s]. *)
Definition matcher : Type := string -> option nat.

(** The match is not empty and lies within the text. *)
Definition bounded (m : matcher) : Prop :=
  forall s n, m s = Some n -> 1 <= n <= String.length s.

(** The matcher reads the engine's pattern [r]. *)
Definition reads (ci : bool) (r : regex) (m : matcher) : Prop :=
  forall p s,
    match_here ci r p s =
    match m s with
    | Some n => Some (take n s, drop n s, [])
    | None => None
    end.

(** Global replacement by a fixed text, written directly: [skip] counts
    the characters of the current match still to drop. *)
Fixpoint rewrite_go (m : matcher) (t : string) (skip : nat) (s : string) : string :=
  match s with
  | EmptyString => EmptyString
  | String c r =>
      match skip with
      | S k => rewrite_go m t k r
      | 0 =>
          match m s with
          | Some (S n) => t ++ rewrite_go m t n r
          | _ => String c (rewrite_go m t 0 r)
          end
      end
  end.

(** The first match: the text before it, its length, the text after. *)
Fixpoint locate (m : matcher) (s : string) : option (string * nat * string) :=
  match m s with
  | Some n => Some (EmptyString, n, drop n s)
  | None =>
      match s with
      | EmptyString => None
      | String c r =>
          match locate m r with
          | Some (pre, n, post) => Some (String c pre, n, post)
          | None => None
          end
      end
  end.

Lemma drop_length n : forall s, String.length (drop n s) = String.length s - n.
Proof.
  induction n as [| n IH]; intros s; cbn [drop]; [lia |].
  destruct s as [| c r]; cbn [String.length]; [reflexivity | apply IH].
Qed.

Lemma take_drop n : forall s, take n s ++ drop n s = s.
Proof.
  induction n as [| n IH]; intros s; cbn [take drop]; [reflexivity |].
  destruct s as [| c r]; cbn; [reflexivity | rewrite IH; reflexivity].
Qed.

Lemma rewrite_go_skip m t n : forall s,
  rewrite_go m t n s = rewrite_go m t 0 (drop n s).
Proof.
  induction n as [| n IH]; intros s; [reflexivity |].
  destruct s as [| c r]; cbn [rewrite_go drop]; [reflexivity | apply IH].
Qed.

Lemma locate_none m t s : bounded m -> locate m s = None -> rewrite_go m t 0 s = s.
Proof.
  intros Hb. induction s as [| c r IH]; cbn [locate rewrite_go]; [reflexivity |].
  destruct (m (String c r)) as [n |]; [discriminate |].
  destruct (locate m r) as [[[pre n] post] |]; [discriminate |].
  intros _. rewrite IH; reflexivity.
Qed.

Lemma locate_some m t s : bounded m -> forall pre n post,
  locate m s = Some (pre, n, post) ->
  rewrite_go m t 0 s = pre ++ t ++ rewrite_go m t 0 post
  /\ String.length post < String.length s
  /\ 1 <= n.
Proof.
  intros Hb. induction s as [| c r IH]; intros pre n post; cbn [locate].
  - destruct (m EmptyString) as [k |] eqn:Hm; [| discriminate].
    apply Hb in Hm. cbn in Hm. lia.
  - destruct (m (String c r)) as [k |] eqn:Hm.
    + intros [= <- <- <-]. pose proof (Hb _ _ Hm) as Hk. cbn [String.length] in Hk.
      cbn [rewrite_go]. rewrite Hm. destruct k as [| k]; [lia |].
      cbn [drop append]. rewrite rewrite_go_skip, drop_length.
      repeat split; [cbn [String.length]; lia | lia].
    + destruct (locate m r) as [[[pre' n'] post'] |]; [| discriminate].
      intros [= <- <- <-]. destruct (IH pre' n' post' eq_refl) as (Heq & Hlen & Hn).
      cbn [rewrite_go]. rewrite Hm, Heq. cbn [String.length append].
      repeat split; [lia | exact Hn].
Qed.

Lemma search_locate ci r m : reads ci r m -> forall s p acc,
  search ci r p acc s =
  match locate m s with
  | Some (pre, n, post) =>
      Some (RMatch (rev_onto acc EmptyString ++ pre)
                   (take n (drop (String.length pre) s)) post [])
  | None => None
  end.
Proof.
  intros Hr. induction s as [| c s IH]; intros p acc; cbn [search locate]; rewrite Hr.
  - destruct (m EmptyString); cbn; [rewrite append_nil_r |]; reflexivity.
  - destruct (m (String c s)) as [n |].
    + cbn [String.length drop]. rewrite append_nil_r. reflexivity.
    + rewrite IH. destruct (locate m s) as [[[pre n] post] |]; [| reflexivity].
      cbn [rev_onto String.length drop].
      rewrite (rev_onto_append acc (String c EmptyString)), append_assoc. reflexivity.
Qed.

Lemma locate_text m s : bounded m -> forall pre n post,
  locate m s = Some (pre, n, post) ->
  exists c txt, take n (drop (String.length pre) s) = String c txt.
Proof.
  intros Hb. induction s as [| c r IH]; intros pre n post; cbn [locate].
  - destruct (m EmptyString) as [k |] eqn:Hm; [| discriminate].
    apply Hb in Hm. cbn in Hm. lia.
  - destruct (m (String c r)) as [k |] eqn:Hm.
    + intros [= <- <- <-]. apply Hb in Hm. destruct k as [| k]; [lia |].
      cbn. eauto.
    + destruct (locate m r) as [[[pre' n'] post'] |]; [| discriminate].
      intros [= <- <- <-]. cbn [String.length drop]. apply (IH pre' n' post' eq_refl).
Qed.

(** The engine's global replacement by a fixed text is [rewrite_go]. *)
Lemma replace_all_from_rewrite ci r m t (f : unit -> rmatch -> unit * string) :
  reads ci r m -> bounded m ->
  (forall u x, f u x = (tt, t)) ->
  forall fuel s p done,
    String.length s < fuel ->
    replace_all_from fuel ci r f tt p done s = (tt, rewrite_go m t 0 s).
Proof.
  intros Hr Hb Hf. induction fuel as [| fuel IH]; intros s p done Hlen; [lia |].
  cbn [replace_all_from]. rewrite (search_locate ci r m Hr). cbn [rev_onto append].
  destruct (locate m s) as [[[pre n] post] |] eqn:Hloc.
  - destruct (locate_some m t s Hb pre n post Hloc) as (-> & Hpost & Hn).
    destruct (locate_text m s Hb pre n post Hloc) as (c & txt & ->).
    cbn [m_pre m_text m_post m_caps]. rewrite Hf. rewrite IH by lia. reflexivity.
  - rewrite (locate_none m t s Hb Hloc). reflexivity.
Qed.

Lemma replace_all_rewrite ci r m tmpl s :
  reads ci r m -> bounded m ->
  (forall x, expand tmpl x = tmpl) ->
  replace_all ci r tmpl s = rewrite_go m tmpl 0 s.
Proof.
  intros Hr Hb Htmpl. unfold replace_all, replace_all_fn, replace_all_st.
  rewrite (replace_all_from_rewrite ci r m tmpl); [reflexivity | assumption .. | | lia].
  intros u x. rewrite Htmpl. reflexivity.
Qed.


(** *** Characters *)

(** Every character of [s] satisfies [ok]. *)
Fixpoint every (ok : ascii -> bool) (s : string) : bool :=
  match s with
  | EmptyString => true
  | String c r => ok c && every ok r
  end.

Lemma every_append ok a b : every ok (a ++ b) = every ok a && every ok b.
Proof. induction a as [| c a IH]; cbn; [| rewrite IH, andb_assoc]; reflexivity. Qed.

Lemma rewrite_go_every ok m t :
  every ok t = true ->
  forall s k, every ok s = true -> every ok (rewrite_go m t k s) = true.
Proof.
  intros Ht. induction s as [| c r IH]; intros k Hs; [reflexivity |].
  cbn [every] in Hs. apply andb_true_iff in Hs. destruct Hs as [Hc Hr].
  cbn [rewrite_go]. destruct k as [| k]; [| apply IH; exact Hr].
  destruct (m (String c r)) as [[| n] |].
  - cbn [every]. rewrite Hc, IH; auto.
  - rewrite every_append, Ht, IH; auto.
  - cbn [every]. rewrite Hc, IH; auto.
Qed.

(** *** Barriers: a character no match can hold *)

(** No match of [m] holds [c]: what follows a [c] does not change what
    is matched before it. *)
Definition barrier (m : matcher) (c : ascii) : Prop :=
  forall a b, m (a ++ String c b) = m a.

Lemma bounded_empty m : bounded m -> m EmptyString = None.
Proof.
  intros Hb. destruct (m EmptyString) as [n |] eqn:Hm; [| reflexivity].
  apply Hb in Hm. cbn in Hm. lia.
Qed.

Lemma rewrite_go_barrier m t c :
  bounded m -> barrier m c ->
  forall a k b,
    k <= String.length a ->
    rewrite_go m t k (a ++ String c b)
    = rewrite_go m t k a ++ String c (rewrite_go m t 0 b).
Proof.
  intros Hb Hc. induction a as [| x a IH]; intros k b Hk.
  - cbn [String.length] in Hk. assert (k = 0) by lia. subst k.
    pose proof (Hc EmptyString b) as H0. cbn [append] in H0.
    cbn [append rewrite_go]. rewrite H0, (bounded_empty m Hb). reflexivity.
  - cbn [append rewrite_go]. cbn [String.length] in Hk. destruct k as [| k].
    + change (String x (a ++ String c b)) with (String x a ++ String c b).
      rewrite (Hc (String x a) b).
      destruct (m (String x a)) as [[| n] |] eqn:Hm.
      * cbn [append]. rewrite IH by lia. reflexivity.
      * apply Hb in Hm. cbn [String.length] in Hm.
        rewrite IH by lia. rewrite append_assoc. reflexivity.
      * cbn [append]. rewrite IH by lia. reflexivity.
    + apply IH. lia.
Qed.

(** *** Literal words, matched without regard to case *)

(** The pattern of the word [c w], as the reader of patterns builds it. *)
Fixpoint lits (c : ascii) (w : string) : regex :=
  match w with
  | EmptyString => Lit c
  | String d w' => Cat (Lit c) (lits d w')
  end.

(** [s] begins with [w], letters compared without regard to case. *)
Fixpoint prefix_ci (w s : string) : bool :=
  match w, s with
  | EmptyString, _ => true
  | String a w', String b s' => char_eq true a b && prefix_ci w' s'
  | String _ _, EmptyString => false
  end.

(** The matcher of the word [w] under the flag [i]. *)
Definition m_word (w : string) : matcher :=
  fun s => if prefix_ci w s then Some (String.length w) else None.

Lemma prefix_ci_length w : forall s, prefix_ci w s = true -> String.length w <= String.length s.
Proof.
  induction w as [| a w IH]; intros s H; [cbn; lia |].
  destruct s as [| b s]; [discriminate |].
  cbn in H. apply andb_true_iff in H. destruct H as [_ H]. apply IH in H. cbn. lia.
Qed.

Lemma run_lits w : forall c p s cs k,
  run true (lits c w) (MState p s cs) k =
  if prefix_ci (String c w) s
  then k (MState (last_char p (take (S (String.length w)) s))
                 (drop (S (String.length w)) s) cs)
  else None.
Proof.
  induction w as [| d w IH]; intros c p s cs k.
  - cbn [lits run rest caps prefix_ci String.length]. destruct s as [| x r]; [reflexivity |].
    rewrite andb_true_r. destruct (char_eq true c x); [| reflexivity].
    cbn. destruct r; reflexivity.
  - cbn [lits]. rewrite run_Cat. cbn [run rest caps]. destruct s as [| x r]; [reflexivity |].
    cbn [prefix_ci]. destruct (char_eq true c x); [| reflexivity].
    rewrite IH. cbn [andb]. cbn [prefix_ci String.length take drop last_char]. reflexivity.
Qed.

Lemma take_length_sub n s :
  n <= String.length s ->
  take (String.length s - String.length (drop n s)) s = take n s.
Proof. intros H. rewrite drop_length. f_equal. lia. Qed.

Lemma m_word_reads c w : reads true (lits c w) (m_word (String c w)).
Proof.
  intros p s. unfold match_here, m_word. rewrite run_lits.
  destruct (prefix_ci (String c w) s) eqn:Hp; [| reflexivity].
  cbn [rest caps String.length]. apply prefix_ci_length in Hp. cbn [String.length] in Hp.
  rewrite take_length_sub by exact Hp. reflexivity.
Qed.

Lemma m_word_bounded c w : bounded (m_word (String c w)).
Proof.
  intros s n. unfold m_word. destruct (prefix_ci (String c w) s) eqn:Hp; [| discriminate].
  intros [= <-]. apply prefix_ci_length in Hp. cbn [String.length] in *. lia.
Qed.

Lemma m_word_barrier w c :
  every (fun a => negb (char_eq true a c)) w = true -> barrier (m_word w) c.
Proof.
  intros Hw a b. unfold m_word. f_equal.
  assert (H : prefix_ci w (a ++ String c b) = prefix_ci w a); [| rewrite H; reflexivity].
  revert a Hw. induction w as [| x w IH]; intros a Hw; [reflexivity |].
  cbn [every] in Hw. apply andb_true_iff in Hw. destruct Hw as [Hx Hw].
  apply negb_true_iff in Hx.
  destruct a as [| y a]; cbn [append prefix_ci].
  - rewrite Hx. reflexivity.
  - rewrite (IH a Hw). reflexivity.
Qed.


(** *** The pattern [\s+or\s+] *)

(** The length of the white space that [s] begins with. *)
Fixpoint spaces (s : string) : nat :=
  match s with
  | String c r => if is_space c then S (spaces r) else 0
  | EmptyString => 0
  end.

(** The matcher of [\s+or\s+]: white space, a lower-case [or], white
    space, all of it taken. *)
Definition m_or : matcher :=
  fun s =>
    let j := spaces s in
    match drop j s with
    | String x (String y s2) =>
        if Ascii.eqb "o" x && Ascii.eqb "r" y && (1 <=? j) && (1 <=? spaces s2)
        then Some (j + 2 + spaces s2)
        else None
    | _ => None
    end.

Definition r_or : regex := Eval vm_compute in rx "\s+or\s+".

Lemma r_or_eq : rx "\s+or\s+" = r_or.
Proof. vm_compute. reflexivity. Qed.

Lemma spaces_length s : spaces s <= String.length s.
Proof. induction s as [| c r IH]; cbn; [lia |]. destruct (is_space c); lia. Qed.

Lemma orelse_none_r {A : Type} (a : option A) : orelse a None = a.
Proof. destruct a; reflexivity. Qed.

Definition spaceClass : regex := Cls false [CSpace].

(** [\s+] before a continuation that cannot start on white space: all
    the white space is read. *)
Lemma star_space_strict k cs :
  (forall p c r, is_space c = true -> k (MState p (String c r) cs) = None) ->
  forall s fuel n p,
    spaces s < fuel ->
    star false true 1 None spaceClass k fuel n (MState p s cs)
    = if 1 <=? n + spaces s
      then k (MState (last_char p (take (spaces s) s)) (drop (spaces s) s) cs)
      else None.
Proof.
  intros Hk. induction s as [| c r IH]; intros fuel n p Hfuel;
    (destruct fuel as [| fuel]; [lia |]).
  - cbn [spaces take drop last_char]. rewrite Nat.add_0_r.
    cbn [star below spaceClass run rest class_step]. cbn [orelse]. reflexivity.
  - cbn [spaces] in *. cbn [star below spaceClass run rest class_step item_match item_has].
    destruct (is_space c) eqn:Hc.
    + rewrite advance_one. cbn [rest String.length].
      replace (String.length r <? S (String.length r)) with true
        by (symmetry; apply Nat.ltb_lt; lia).
      rewrite orb_true_r.
      fold spaceClass. fold (star false true 1 None spaceClass k).
      rewrite (IH fuel (S n) (Some c)) by lia.
      replace (1 <=? S n + spaces r) with true by (symmetry; apply Nat.leb_le; lia).
      replace (1 <=? n + S (spaces r)) with true by (symmetry; apply Nat.leb_le; lia).
      rewrite (Hk p c r Hc). destruct (1 <=? n); rewrite orelse_none_r;
        cbn [take drop last_char]; reflexivity.
    + cbn [orelse take drop last_char]. rewrite Nat.add_0_r. reflexivity.
Qed.

(** [\s+] before the end of the pattern. *)
Lemma star_space_last cs :
  forall s fuel n p,
    spaces s < fuel ->
    star false true 1 None spaceClass (fun st => Some st) fuel n (MState p s cs)
    = if 1 <=? n + spaces s
      then Some (MState (last_char p (take (spaces s) s)) (drop (spaces s) s) cs)
      else None.
Proof.
  induction s as [| c r IH]; intros fuel n p Hfuel;
    (destruct fuel as [| fuel]; [lia |]).
  - cbn [spaces take drop last_char]. rewrite Nat.add_0_r.
    cbn [star below spaceClass run rest class_step]. cbn [orelse]. reflexivity.
  - cbn [spaces] in *. cbn [star below spaceClass run rest class_step item_match item_has].
    destruct (is_space c) eqn:Hc.
    + rewrite advance_one. cbn [rest String.length].
      replace (String.length r <? S (String.length r)) with true
        by (symmetry; apply Nat.ltb_lt; lia).
      rewrite orb_true_r.
      fold spaceClass. fold (star false true 1 None spaceClass (fun st => Some st)).
      rewrite (IH fuel (S n) (Some c)) by lia.
      replace (1 <=? S n + spaces r) with true by (symmetry; apply Nat.leb_le; lia).
      replace (1 <=? n + S (spaces r)) with true by (symmetry; apply Nat.leb_le; lia).
      cbn [orelse take drop last_char]. reflexivity.
    + cbn [orelse take drop last_char]. rewrite Nat.add_0_r. reflexivity.
Qed.

Lemma drop_add a : forall b s, drop (a + b) s = drop b (drop a s).
Proof.
  induction a as [| a IH]; intros b s; [reflexivity |].
  destruct s as [| c r]; cbn [Nat.add drop]; [destruct b; reflexivity | apply IH].
Qed.

Lemma run_Lit_cons c p x r cs k :
  run false (Lit c) (MState p (String x r) cs) k
  = if Ascii.eqb c x then k (MState (Some x) r cs) else None.
Proof. reflexivity. Qed.

Lemma m_or_reads : reads false r_or m_or.
Proof.
  intros p s. unfold match_here, r_or.
  rewrite run_Cat, run_Rep. fold spaceClass.
  rewrite star_space_strict; [| | cbn [rest]; pose proof (spaces_length s); lia].
  2: { intros p' c r Hc. cbn [run rest char_eq].
       destruct (Ascii.eqb "o" c) eqn:Ho; [| reflexivity].
       apply Ascii.eqb_eq in Ho. subst c. discriminate Hc. }
  unfold m_or. cbn [Nat.add].
  pose proof (drop_length (spaces s) s) as Hlen.
  destruct (drop (spaces s) s) as [| x [| y s2]] eqn:Hdrop.
  - destruct (1 <=? spaces s); reflexivity.
  - destruct (1 <=? spaces s); [| reflexivity].
    rewrite run_Cat, run_Lit_cons.
    destruct (Ascii.eqb "o" x); [| reflexivity].
    rewrite run_Cat. reflexivity.
  - rewrite run_Cat, run_Lit_cons.
    destruct (Ascii.eqb "o" x); cbn [andb];
      [| destruct (1 <=? spaces s); reflexivity].
    rewrite run_Cat, run_Lit_cons.
    destruct (Ascii.eqb "r" y); cbn [andb];
      [| destruct (1 <=? spaces s); reflexivity].
    rewrite run_Rep. fold spaceClass. cbn [rest].
    rewrite star_space_last by (pose proof (spaces_length s2); lia).
    cbn [Nat.add]. cbn [String.length] in Hlen.
    pose proof (spaces_length s2) as Hk. pose proof (spaces_length s) as Hj.
    destruct (1 <=? spaces s) eqn:Hj1; cbn [andb]; [| reflexivity].
    destruct (1 <=? spaces s2) eqn:Hk1; [| reflexivity].
    cbn [rest caps].
    assert (Hd : drop (spaces s + 2 + spaces s2) s = drop (spaces s2) s2).
    { rewrite drop_add, drop_add, Hdrop. reflexivity. }
    rewrite <- Hd. rewrite take_length_sub by lia. reflexivity.
Qed.

Lemma m_or_bounded : bounded m_or.
Proof.
  intros s n. unfold m_or.
  pose proof (drop_length (spaces s) s) as Hlen.
  pose proof (spaces_length s) as Hj.
  destruct (drop (spaces s) s) as [| x [| y s2]]; try discriminate.
  destruct (_ && _); [| discriminate]. intros [= <-].
  pose proof (spaces_length s2). cbn [String.length] in Hlen. lia.
Qed.

Lemma spaces_barrier c a b : is_space c = false -> spaces (a ++ String c b) = spaces a.
Proof.
  intros Hc. induction a as [| x a IH]; cbn [append spaces]; [rewrite Hc; reflexivity |].
  rewrite IH. reflexivity.
Qed.

Lemma drop_append n : forall a b,
  n <= String.length a -> drop n (a ++ b) = drop n a ++ b.
Proof.
  induction n as [| n IH]; intros a b H; [reflexivity |].
  destruct a as [| x a]; cbn [String.length] in H; [lia |].
  cbn [append drop]. apply IH. lia.
Qed.

Lemma m_or_barrier c :
  is_space c = false -> Ascii.eqb "o" c = false -> Ascii.eqb "r" c = false ->
  barrier m_or c.
Proof.
  intros Hs Ho Hr a b. unfold m_or.
  rewrite (spaces_barrier c a b Hs).
  rewrite drop_append by apply spaces_length.
  destruct (drop (spaces a) a) as [| x [| y s2]]; cbn [append].
  - destruct b; [reflexivity |]. rewrite Ho. reflexivity.
  - rewrite Hr, andb_false_r. reflexivity.
  - rewrite (spaces_barrier c s2 b Hs). reflexivity.
Qed.

End Rewriting.

(** * Reading SQL text: literals and parentheses *)

Module SqlText.
Import JsString Regex TextFacts Rewriting.

(** Where a reader of SQL text stands: outside string literals, inside
    one, or inside one just after a quote (which closes the literal unless
    another quote follows). *)
Inductive mode : Type := Outside | Inside | Closing.

(** The character [c] in front of [out] when it stands at depth 0; inside
    parentheses nothing shows. *)
Definition shown (depth : nat) (c : ascii) (out : string) : string :=
  match depth with
  | 0 => String c out
  | S _ => out
  end.

(** One character read outside a literal: the new mode and depth and
    what shows at the top level; [None] on a closing parenthesis that
    closes nothing. *)
Definition step_out (depth : nat) (c : ascii) : option (mode * nat * string) :=
  if Ascii.eqb c "'" then Some (Inside, depth, shown depth c EmptyString)
  else if Ascii.eqb c "(" then Some (Outside, S depth, shown depth c EmptyString)
  else if Ascii.eqb c ")" then
    match depth with
    | 0 => None
    | S d => Some (Outside, d, shown d c EmptyString)
    end
  else Some (Outside, depth, shown depth c EmptyString).

(** One character read in mode [m]: inside a literal only a quote
    matters; after a quote, a second quote is a quote of the literal and
    anything else is read outside. *)
Definition step (m : mode) (depth : nat) (c : ascii) : option (mode * nat * string) :=
  match m with
  | Inside => if Ascii.eqb c "'" then Some (Closing, depth, EmptyString)
          else Some (Inside, depth, EmptyString)
  | Closing => if Ascii.eqb c "'" then Some (Inside, depth, EmptyString) else step_out depth c
  | Outside => step_out depth c
  end.

(** Reading a text: the state reached and the text that stands outside
    literals and parentheses (a literal shows as its opening quote, a
    parenthesised group as its two parentheses). *)
Fixpoint scan (m : mode) (depth : nat) (s : string) : option (mode * nat * string) :=
  match s with
  | EmptyString => Some (m, depth, EmptyString)
  | String c r =>
      match step m depth c with
      | Some (m1, d1, o1) =>
          match scan m1 d1 r with
          | Some (m2, d2, o2) => Some (m2, d2, o1 ++ o2)
          | None => None
          end
      | None => None
      end
  end.

(** The top-level text of a complete piece of SQL. *)
Definition outerText (s : string) : option string :=
  match scan Outside 0 s with
  | Some (Outside, 0, o) => Some o
  | Some (Closing, 0, o) => Some o
  | _ => None
  end.

Lemma scan_app a : forall m d b,
  scan m d (a ++ b) =
  match scan m d a with
  | Some (m1, d1, o1) =>
      match scan m1 d1 b with
      | Some (m2, d2, o2) => Some (m2, d2, o1 ++ o2)
      | None => None
      end
  | None => None
  end.
Proof.
  induction a as [| c a IH]; intros m d b; cbn [append scan].
  - destruct (scan m d b) as [[[m2 d2] o2] |]; reflexivity.
  - destruct (step m d c) as [[[m1 d1] o1] |]; [| reflexivity].
    rewrite IH. destruct (scan m1 d1 a) as [[[m2 d2] o2] |]; [| reflexivity].
    destruct (scan m2 d2 b) as [[[m3 d3] o3] |]; [| reflexivity].
    rewrite TextFacts.append_assoc. reflexivity.
Qed.

(** Any character but the single quote. *)
Definition notQuote (c : ascii) : bool := negb (Ascii.eqb c "'").

(** Neither a quote nor a parenthesis. *)
Definition inert (c : ascii) : bool :=
  negb (Ascii.eqb c "'") && negb (Ascii.eqb c "(") && negb (Ascii.eqb c ")").

(** Inside a literal, text without quotes changes nothing. *)
Lemma scan_Inside_plain s : forall d, every notQuote s = true -> scan Inside d s = Some (Inside, d, EmptyString).
Proof.
  induction s as [| c r IH]; intros d H; [reflexivity |].
  cbn [every] in H. apply andb_true_iff in H. destruct H as [Hc Hr].
  unfold notQuote in Hc. apply negb_true_iff in Hc.
  cbn [scan step]. rewrite Hc, (IH d Hr). reflexivity.
Qed.

(** Inside parentheses, text without quotes and parentheses changes
    nothing. *)
Lemma scan_deep_inert s : forall m d,
  m <> Inside -> every inert s = true -> s <> EmptyString ->
  scan m (S d) s = Some (Outside, S d, EmptyString).
Proof.
  induction s as [| c r IH]; intros m d Hm H Hne; [contradiction |].
  cbn [every] in H. apply andb_true_iff in H. destruct H as [Hc Hr].
  unfold inert in Hc. apply andb_true_iff in Hc. destruct Hc as [Hc Hc3].
  apply andb_true_iff in Hc. destruct Hc as [Hc1 Hc2].
  apply negb_true_iff in Hc1, Hc2, Hc3.
  assert (Hstep : step m (S d) c = Some (Outside, S d, EmptyString)).
  { destruct m; [| contradiction |]; cbn [step]; unfold step_out; rewrite ?Hc1, Hc2, Hc3;
      try rewrite Hc1; reflexivity. }
  cbn [scan]. rewrite Hstep.
  destruct r as [| c' r']; [reflexivity |].
  rewrite (IH Outside d); [reflexivity | discriminate | exact Hr | discriminate].
Qed.

(** At the top level, such text shows as it is. *)
Lemma scan_top_inert s :
  every inert s = true -> scan Outside 0 s = Some (Outside, 0, s).
Proof.
  induction s as [| c r IH]; intros H; [reflexivity |].
  cbn [every] in H. apply andb_true_iff in H. destruct H as [Hc Hr].
  unfold inert in Hc. apply andb_true_iff in Hc. destruct Hc as [Hc Hc3].
  apply andb_true_iff in Hc. destruct Hc as [Hc1 Hc2].
  apply negb_true_iff in Hc1, Hc2, Hc3.
  cbn [scan step]. unfold step_out. rewrite Hc1, Hc2, Hc3, (IH Hr). reflexivity.
Qed.

(** *** Text whose quotes come in pairs *)

(** [paired x]: every quote of [x] is followed by a second one. *)
Inductive paired : string -> Prop :=
| paired_plain a : every notQuote a = true -> paired a
| paired_cons a x :
    every notQuote a = true -> paired x -> paired (a ++ "''" ++ x).

Lemma paired_String c x : notQuote c = true -> paired x -> paired (String c x).
Proof.
  intros Hc [a Ha | a y Ha Hy].
  - apply paired_plain. cbn [every]. rewrite Hc, Ha. reflexivity.
  - apply (paired_cons (String c a) y); [cbn [every]; rewrite Hc, Ha; reflexivity | exact Hy].
Qed.

Lemma paired_plain_app a : forall x, every notQuote a = true -> paired x -> paired (a ++ x).
Proof.
  induction a as [| c a IH]; intros x Ha Hx; [exact Hx |].
  cbn [every] in Ha. apply andb_true_iff in Ha. destruct Ha as [Hc Ha].
  cbn [append]. apply paired_String; [exact Hc | apply IH; assumption].
Qed.

Lemma paired_app x y : paired x -> paired y -> paired (x ++ y).
Proof.
  intros Hx Hy. induction Hx as [a Ha | a x' Ha Hx' IH].
  - apply paired_plain_app; assumption.
  - rewrite !TextFacts.append_assoc. apply paired_cons; assumption.
Qed.

Lemma paired_doubled v : paired (substChar "'" "''" v).
Proof.
  induction v as [| c r IH]; [apply paired_plain; reflexivity |].
  cbn [substChar]. destruct (Ascii.eqb "'" c) eqn:Hc.
  - apply (paired_cons EmptyString); [reflexivity | exact IH].
  - apply paired_String; [| exact IH].
    unfold notQuote. rewrite Ascii.eqb_sym, Hc. reflexivity.
Qed.

Lemma scan_Inside_paired x : paired x -> forall d, scan Inside d x = Some (Inside, d, EmptyString).
Proof.
  induction 1 as [a Ha | a x Ha Hx IH]; intros d.
  - apply scan_Inside_plain. exact Ha.
  - rewrite scan_app, (scan_Inside_plain a d Ha). cbn [append scan step Ascii.eqb Bool.eqb].
    rewrite IH. reflexivity.
Qed.

Lemma rewrite_plain_paired m t a : forall k,
  paired t -> every notQuote a = true -> paired (rewrite_go m t k a).
Proof.
  induction a as [| c a IH]; intros k Ht Ha; [apply paired_plain; reflexivity |].
  cbn [every] in Ha. apply andb_true_iff in Ha. destruct Ha as [Hc Ha].
  cbn [rewrite_go]. destruct k as [| k]; [| apply IH; assumption].
  destruct (m (String c a)) as [[| n] |].
  - apply paired_String; [exact Hc | apply IH; assumption].
  - apply paired_app; [exact Ht | apply IH; assumption].
  - apply paired_String; [exact Hc | apply IH; assumption].
Qed.

Lemma rewrite_go_quote m t x :
  bounded m -> barrier m "'" ->
  rewrite_go m t 0 (String "'" x) = String "'" (rewrite_go m t 0 x).
Proof.
  intros Hb Hq.
  change (String "'" x) with (EmptyString ++ String "'" x).
  rewrite (rewrite_go_barrier m t "'" Hb Hq EmptyString 0 x) by (cbn; lia). reflexivity.
Qed.

(** A global replacement that cannot match a quote keeps quotes paired. *)
Lemma rewrite_paired m t x :
  bounded m -> barrier m "'" -> paired t -> paired x -> paired (rewrite_go m t 0 x).
Proof.
  intros Hb Hq Ht Hx. induction Hx as [a Ha | a x Ha Hx IH].
  - apply rewrite_plain_paired; assumption.
  - change (a ++ "''" ++ x) with (a ++ String "'" (String "'" x)).
    rewrite (rewrite_go_barrier m t "'" Hb Hq a 0) by lia.
    rewrite (rewrite_go_quote m t x Hb Hq).
    apply paired_app; [apply rewrite_plain_paired; assumption |].
    apply (paired_cons EmptyString); [reflexivity | exact IH].
Qed.

End SqlText.

(** * The predicate of an intent item *)

Module Rendering.
Import JsString Regex Planner TextFacts Rewriting SqlText.

(** *** The three passes of the builder over a pattern *)

(** The matchers of [/%<value>%/gi] and [/<value>/gi]. *)
Definition m_pct : matcher := m_word "%<value>%".
Definition m_val : matcher := m_word "<value>".

Lemma rx_pct : rx "%<value>%" = lits "%" "<value>%".
Proof. vm_compute. reflexivity. Qed.

Lemma rx_val : rx "<value>" = lits "<" "value>".
Proof. vm_compute. reflexivity. Qed.

(** [.replace(/\s+or\s+/g, " OR ")] *)
Definition upOr (s : string) : string := rewrite_go m_or " OR " 0 s.

(** The three replacements, for the escaped value [ev]. *)
Definition passes (ev : string) (s : string) : string :=
  upOr (rewrite_go m_val ev 0 (rewrite_go m_pct ("%" ++ ev ++ "%") 0 s)).

(** Any character but [$]. *)
Definition noDollar (c : ascii) : bool := negb (Ascii.eqb c "$").

Lemma expand_plain t x : every noDollar t = true -> expand t x = t.
Proof.
  induction t as [| c r IH]; intros H; [reflexivity |].
  cbn [every] in H. apply andb_true_iff in H. destruct H as [Hc Hr].
  unfold noDollar in Hc. apply negb_true_iff in Hc.
  assert (Hstep : expand (String c r) x = String c (expand r x)).
  { cbn [expand]. destruct c as [[] [] [] [] [] [] [] []]; try reflexivity. discriminate Hc. }
  rewrite Hstep, (IH Hr). reflexivity.
Qed.

Lemma every_substChar ok q t v :
  every ok t = true -> every ok v = true -> every ok (substChar q t v) = true.
Proof.
  intros Ht. induction v as [| c r IH]; intros H; [reflexivity |].
  cbn [every] in H. apply andb_true_iff in H. destruct H as [Hc Hr].
  cbn [substChar]. destruct (Ascii.eqb q c).
  - rewrite every_append, Ht, (IH Hr). reflexivity.
  - cbn [every]. rewrite Hc, (IH Hr). reflexivity.
Qed.

(** X15. The quoting step [value.replace(/'/g, "''")] doubles every
    single quote of the value and changes nothing else, so the escaped
    text, read as the body of a SQL string literal, is the value itself.
    The builder then hands the escaped text to [String.replace] as a
    replacement: when the value holds no [$], the text inserted is the
    escaped text unchanged, bare or between [%] signs. (A value with [$]
    is read as a replacement pattern; nothing is said of it here.) *)
Theorem escapeQuotes_reads_back :
  forall v : string,
    escapeQuotes v = substChar "'" "''" v
    /\ sqlLiteralText (escapeQuotes v) = Some v
    /\ (every noDollar v = true ->
        forall m : rmatch,
          expand (escapeQuotes v) m = escapeQuotes v
          /\ expand ("%" ++ escapeQuotes v ++ "%") m = "%" ++ escapeQuotes v ++ "%").
Proof.
  intros v. split; [apply escapeQuotes_doubles |]. split.
  - rewrite escapeQuotes_doubles.
    induction v as [| c r IH]; [reflexivity |].
    cbn [substChar]. destruct (Ascii.eqb "'" c) eqn:Hc.
    + apply Ascii.eqb_eq in Hc. subst c. cbn. rewrite IH. reflexivity.
    + cbn [sqlLiteralText]. rewrite Ascii.eqb_sym, Hc, IH. reflexivity.
  - intros Hv m. rewrite escapeQuotes_doubles.
    assert (Hev : every noDollar (substChar "'" "''" v) = true)
      by (apply every_substChar; [reflexivity | exact Hv]).
    split; apply expand_plain; [exact Hev |].
    cbn [append every]. rewrite every_append, Hev. reflexivity.
Qed.

Lemma escapeQuotes_reads_back_witness :
  escapeQuotes "O'Brien" = substChar "'" "''" "O'Brien"
  /\ sqlLiteralText (escapeQuotes "O'Brien") = Some "O'Brien"
  /\ forall m : rmatch,
       expand (escapeQuotes "O'Brien") m = escapeQuotes "O'Brien"
       /\ expand ("%" ++ escapeQuotes "O'Brien" ++ "%") m = "%" ++ escapeQuotes "O'Brien" ++ "%".
Proof.
  destruct (escapeQuotes_reads_back "O'Brien") as (Hdoubled & Hback & Hplain).
  split; [exact Hdoubled |]. split; [exact Hback |].
  apply Hplain. reflexivity.
Defined.

Lemma pct_barrier : barrier m_pct "'".
Proof. apply m_word_barrier. reflexivity. Qed.
Lemma val_barrier : barrier m_val "'".
Proof. apply m_word_barrier. reflexivity. Qed.
Lemma or_barrier : barrier m_or "'".
Proof. apply m_or_barrier; reflexivity. Qed.

Lemma pct_bounded : bounded m_pct.
Proof. apply m_word_bounded. Qed.
Lemma val_bounded : bounded m_val.
Proof. apply m_word_bounded. Qed.

(** The non-income, non-age branch of [renderCondition], for a value
    without [$]. *)
Lemma replacements_are_passes v pattern :
  every noDollar v = true ->
  replace_all false (rx "\s+or\s+") " OR "
    (replace_all true (rx "<value>") (escapeQuotes v)
       (replace_all true (rx "%<value>%") ("%" ++ escapeQuotes v ++ "%") pattern))
  = passes (escapeQuotes v) pattern.
Proof.
  intros Hv. rewrite escapeQuotes_doubles.
  assert (Hev : every noDollar (substChar "'" "''" v) = true)
    by (apply every_substChar; [reflexivity | exact Hv]).
  rewrite rx_pct, rx_val, r_or_eq.
  rewrite (replace_all_rewrite true (lits "%" "<value>%") m_pct);
    [| apply m_word_reads | apply pct_bounded |].
  2: { intros x. apply expand_plain. cbn [append every]. rewrite every_append, Hev. reflexivity. }
  rewrite (replace_all_rewrite true (lits "<" "value>") m_val);
    [| apply m_word_reads | apply val_bounded |].
  2: { intros x. apply expand_plain. exact Hev. }
  rewrite (replace_all_rewrite false r_or m_or); [| apply m_or_reads | apply m_or_bounded |].
  2: { intros x. reflexivity. }
  reflexivity.
Qed.

(** *** A pattern cut at its quotes *)

(** The pieces of [s] between its quotes: text, literal, text, ... *)
Fixpoint segs (s : string) : list string :=
  match s with
  | EmptyString => [EmptyString]
  | String c r =>
      if Ascii.eqb c "'" then EmptyString :: segs r
      else match segs r with
           | x :: xs => String c x :: xs
           | [] => [String c EmptyString]
           end
  end.

Definition quote : string := "'".

Lemma segs_not_nil s : segs s <> [].
Proof.
  destruct s as [| c r]; cbn [segs]; [discriminate |].
  destruct (Ascii.eqb c "'"); [discriminate |]. destruct (segs r); discriminate.
Qed.

Lemma segs_join s : join quote (segs s) = s.
Proof.
  induction s as [| c r IH]; [reflexivity |]. cbn [segs].
  destruct (Ascii.eqb c "'") eqn:Hc.
  - apply Ascii.eqb_eq in Hc. subst c.
    pose proof (segs_not_nil r) as Hne. destruct (segs r) as [| y ys]; [contradiction |].
    cbn [join] in *. rewrite IH. reflexivity.
  - pose proof (segs_not_nil r) as Hne. destruct (segs r) as [| y ys]; [contradiction |].
    destruct ys as [| z zs]; cbn [join] in *; rewrite <- IH; reflexivity.
Qed.

Lemma segs_plain s : Forall (fun x => every notQuote x = true) (segs s).
Proof.
  induction s as [| c r IH]; [repeat constructor |]. cbn [segs].
  destruct (Ascii.eqb c "'") eqn:Hc; [constructor; [reflexivity | exact IH] |].
  assert (Hq : notQuote c = true) by (unfold notQuote; rewrite Hc; reflexivity).
  destruct (segs r) as [| y ys].
  - constructor; [cbn [every]; rewrite Hq; reflexivity | constructor].
  - inversion IH as [| ? ? Hy Hys]; subst. constructor; [| exact Hys].
    cbn [every]. rewrite Hq, Hy. reflexivity.
Qed.

Lemma rewrite_join m t :
  bounded m -> barrier m "'" ->
  forall xs, rewrite_go m t 0 (join quote xs) = join quote (map (rewrite_go m t 0) xs).
Proof.
  intros Hb Hq. induction xs as [| x [| y r] IH]; [reflexivity | reflexivity |].
  change (join quote (x :: y :: r)) with (x ++ String "'" (join quote (y :: r))).
  rewrite (rewrite_go_barrier m t "'" Hb Hq x 0) by lia. rewrite IH. reflexivity.
Qed.

Lemma passes_join ev xs : passes ev (join quote xs) = join quote (map (passes ev) xs).
Proof.
  unfold passes, upOr.
  rewrite (rewrite_join m_pct _ pct_bounded pct_barrier).
  rewrite (rewrite_join m_val _ val_bounded val_barrier).
  rewrite (rewrite_join m_or _ m_or_bounded or_barrier).
  rewrite !map_map. reflexivity.
Qed.

(** A text segment holds no hole. *)
Definition noHole (x : string) : bool :=
  match locate m_pct x, locate m_val x with
  | None, None => true
  | _, _ => false
  end.

Lemma passes_noHole ev x : noHole x = true -> passes ev x = upOr x.
Proof.
  unfold noHole, passes. intros H.
  destruct (locate m_pct x) eqn:Hp; [discriminate |].
  destruct (locate m_val x) eqn:Hv; [discriminate |].
  rewrite (locate_none m_pct _ x pct_bounded Hp), (locate_none m_val _ x val_bounded Hv).
  reflexivity.
Qed.

Lemma passes_paired ev x : paired ev -> every notQuote x = true -> paired (passes ev x).
Proof.
  intros Hev Hx. unfold passes, upOr.
  apply (rewrite_paired m_or _ _ m_or_bounded or_barrier); [apply paired_plain; reflexivity |].
  apply (rewrite_paired m_val _ _ val_bounded val_barrier); [exact Hev |].
  apply rewrite_plain_paired; [| exact Hx].
  apply paired_String; [reflexivity |].
  apply paired_app; [exact Hev | apply paired_plain; reflexivity].
Qed.

(** The segments outside literals ([lit = false]) and inside them, in
    turn. *)
Fixpoint mapAlt (f g : string -> string) (lit : bool) (xs : list string) : list string :=
  match xs with
  | [] => []
  | x :: r => (if lit then g x else f x) :: mapAlt f g (negb lit) r
  end.

(** The pieces that stand outside literals. *)
Fixpoint texts (lit : bool) (xs : list string) : list string :=
  match xs with
  | [] => []
  | x :: r => if lit then texts (negb lit) r else x :: texts (negb lit) r
  end.

(** The pattern with its text segments rewritten and its literals
    emptied. *)
Definition skeleton (xs : list string) : string :=
  join quote (mapAlt upOr (fun _ => EmptyString) false xs).

Lemma scan_plain_mode s : forall m d m1 d1 o1,
  every notQuote s = true -> m <> Inside ->
  scan m d s = Some (m1, d1, o1) -> m1 <> Inside.
Proof.
  induction s as [| c r IH]; intros m d m1 d1 o1 H Hm; cbn [scan].
  - intros [= <- <- <-]. exact Hm.
  - cbn [every] in H. apply andb_true_iff in H. destruct H as [Hc Hr].
    unfold notQuote in Hc. apply negb_true_iff in Hc.
    destruct (step m d c) as [[[m2 d2] o2] |] eqn:Hstep; [| discriminate].
    assert (Hm2 : m2 <> Inside).
    { destruct m; [| contradiction |]; cbn [step] in Hstep; unfold step_out in Hstep;
        rewrite ?Hc in Hstep;
        destruct (Ascii.eqb c "("), (Ascii.eqb c ")"), d; inversion Hstep; discriminate. }
    destruct (scan m2 d2 r) as [[[m3 d3] o3] |] eqn:Hscan; [| discriminate].
    intros [= <- <- <-]. apply (IH m2 d2 m3 d3 o3 Hr Hm2 Hscan).
Qed.

Lemma upOr_plain x : every notQuote x = true -> every notQuote (upOr x) = true.
Proof. intros H. apply rewrite_go_every; [reflexivity | exact H]. Qed.

(** Reading the rendered pattern is reading its skeleton. *)
Lemma scan_rendered ev : paired ev -> forall xs lit m d,
  Forall (fun x => every notQuote x = true) xs ->
  forallb noHole (texts lit xs) = true ->
  (if lit then m = Inside else m <> Inside) ->
  scan m d (join quote (map (passes ev) xs))
  = scan m d (join quote (mapAlt upOr (fun _ => EmptyString) lit xs)).
Proof.
  intros Hev. induction xs as [| x r IH]; intros lit m d Hplain Hholes Hm; [reflexivity |].
  inversion Hplain as [| ? ? Hx Hr]; subst.
  destruct lit.
  - subst m. cbn [texts negb] in Hholes.
    pose proof (scan_Inside_paired _ (passes_paired ev x Hev Hx)) as Hlit.
    destruct r as [| y r'].
    + cbn [map mapAlt join]. rewrite Hlit. reflexivity.
    + change (join quote (map (passes ev) (x :: y :: r')))
        with (passes ev x ++ String "'" (join quote (map (passes ev) (y :: r')))).
      change (join quote (mapAlt upOr (fun _ => EmptyString) true (x :: y :: r')))
        with (EmptyString ++ String "'"
                (join quote (mapAlt upOr (fun _ => EmptyString) false (y :: r')))).
      rewrite scan_app, Hlit. cbn [append scan step Ascii.eqb Bool.eqb].
      rewrite (IH false Closing d Hr Hholes); [| discriminate].
      destruct (scan Closing d _) as [[[m2 d2] o2] |]; reflexivity.
  - cbn [texts negb forallb] in Hholes. apply andb_true_iff in Hholes.
    destruct Hholes as [Hhole Hholes].
    destruct r as [| y r'].
    + cbn [map mapAlt join]. rewrite (passes_noHole ev x Hhole). reflexivity.
    + change (join quote (map (passes ev) (x :: y :: r')))
        with (passes ev x ++ String "'" (join quote (map (passes ev) (y :: r')))).
      change (join quote (mapAlt upOr (fun _ => EmptyString) false (x :: y :: r')))
        with (upOr x ++ String "'"
                (join quote (mapAlt upOr (fun _ => EmptyString) true (y :: r')))).
      rewrite (passes_noHole ev x Hhole). rewrite !scan_app.
      destruct (scan m d (upOr x)) as [[[m1 d1] o1] |] eqn:Hscan; [| reflexivity].
      pose proof (scan_plain_mode _ _ _ _ _ _ (upOr_plain x Hx) Hm Hscan) as Hm1.
      assert (Hq : forall tail,
                 scan m1 d1 (String "'" tail) =
                 match scan Inside d1 tail with
                 | Some (m2, d2, o2) => Some (m2, d2, (match m1 with Outside => shown d1 "'" EmptyString | _ => EmptyString end) ++ o2)
                 | None => None
                 end).
      { intros tail. destruct m1; [| contradiction |]; reflexivity. }
      rewrite !Hq. rewrite (IH true Inside d1 Hr Hholes eq_refl). reflexivity.
Qed.

End Rendering.

(** * What a match can have read *)

Module Matching.
Import JsString Regex TextFacts Rewriting.

(** What a successful run of the matcher can have read: a relation
    between the position before and the position after a pattern.  It
    leaves the counts of a quantifier out. *)
Inductive matches (ci : bool) : regex -> mstate -> mstate -> Prop :=
| M_Eps st : matches ci Eps st st
| M_Lit c st x r :
    rest st = String x r -> char_eq ci c x = true ->
    matches ci (Lit c) st (MState (Some x) r (caps st))
| M_Dot st x r :
    rest st = String x r -> matches ci Dot st (MState (Some x) r (caps st))
| M_Cls items st r :
    class_step ci items (rest st) = Some r ->
    matches ci (Cls false items) st (advance st r)
| M_NotCls items st x r :
    rest st = String x r -> matches ci (Cls true items) st (MState (Some x) r (caps st))
| M_Cat r1 r2 st st1 st2 :
    matches ci r1 st st1 -> matches ci r2 st1 st2 -> matches ci (Cat r1 r2) st st2
| M_Alt_l r1 r2 st st1 : matches ci r1 st st1 -> matches ci (Alt r1 r2) st st1
| M_Alt_r r1 r2 st st1 : matches ci r2 st st1 -> matches ci (Alt r1 r2) st st1
| M_Grp i r1 st st1 :
    matches ci r1 st st1 ->
    matches ci (Grp i r1) st
            (MState (prev st1) (rest st1)
                    (set_cap i (take (String.length (rest st) - String.length (rest st1))
                                     (rest st))
                             (caps st1)))
| M_WordB st : matches ci WordB st st
| M_Bos st : matches ci Bos st st
| M_Eos st : matches ci Eos st st
| M_Rep_stop g lo hi r1 st : matches ci (Rep g lo hi r1) st st
| M_Rep_more g lo hi r1 st st1 st2 :
    matches ci r1 st st1 -> matches ci (Rep g lo hi r1) st1 st2 ->
    matches ci (Rep g lo hi r1) st st2.

Lemma star_sound ci g lo hi r1 k res :
  (forall st k' res', run ci r1 st k' = Some res' ->
                      exists st1, matches ci r1 st st1 /\ k' st1 = Some res') ->
  forall fuel n st0,
    star ci g lo hi r1 k fuel n st0 = Some res ->
    exists st1, matches ci (Rep g lo hi r1) st0 st1 /\ k st1 = Some res.
Proof.
  intros Hr1. induction fuel as [| fuel IH]; intros n st0; cbn [star]; [discriminate |].
  fold (star ci g lo hi r1 k).
  set (more := if below n hi
               then run ci r1 st0
                        (fun st1 =>
                           if (n <? lo) || (String.length (rest st1) <? String.length (rest st0))
                           then star ci g lo hi r1 k fuel (S n) st1 else None)
               else None).
  set (stop := if lo <=? n then k st0 else None).
  assert (Hmore : more = Some res ->
                  exists st1, matches ci (Rep g lo hi r1) st0 st1 /\ k st1 = Some res).
  { unfold more. destruct (below n hi); [| discriminate]. intros H.
    apply Hr1 in H. destruct H as (st1 & Hm & H).
    destruct (_ || _); [| discriminate].
    apply IH in H. destruct H as (st2 & Hm2 & Hk).
    exists st2. split; [eapply M_Rep_more; eassumption | exact Hk]. }
  assert (Hstop : stop = Some res ->
                  exists st1, matches ci (Rep g lo hi r1) st0 st1 /\ k st1 = Some res).
  { unfold stop. destruct (lo <=? n); [| discriminate]. intros H.
    exists st0. split; [apply M_Rep_stop | exact H]. }
  destruct g; unfold orelse.
  - destruct more as [x |] eqn:E; [intros [= ->]; apply Hmore; reflexivity | exact Hstop].
  - destruct stop as [x |] eqn:E; [intros [= ->]; apply Hstop; reflexivity | exact Hmore].
Qed.

(** Every result of the matcher comes from a position the pattern can
    reach. *)
Lemma run_sound ci r : forall st k res,
  run ci r st k = Some res ->
  exists st1, matches ci r st st1 /\ k st1 = Some res.
Proof.
  induction r as [| c | | neg items | r1 IH1 r2 IH2 | r1 IH1 r2 IH2 | g lo hi r1 IH1
                  | i r1 IH1 | | | |]; intros st k res.
  - cbn [run]. intros H. exists st. split; [constructor | exact H].
  - cbn [run]. destruct (rest st) as [| x r'] eqn:Hrest; [discriminate |].
    destruct (char_eq ci c x) eqn:Hc; [| discriminate]. intros H.
    eexists. split; [eapply M_Lit; eassumption | exact H].
  - cbn [run]. destruct (rest st) as [| x r'] eqn:Hrest; [discriminate |].
    destruct (_ || _); [discriminate |]. intros H.
    eexists. split; [eapply M_Dot; eassumption | exact H].
  - cbn [run]. destruct (class_step ci items (rest st)) as [r' |] eqn:Hcls; destruct neg;
      try discriminate.
    + intros H. eexists. split; [eapply M_Cls; eassumption | exact H].
    + destruct (rest st) as [| x r'] eqn:Hrest; [discriminate |]. intros H.
      eexists. split; [eapply M_NotCls; eassumption | exact H].
  - rewrite run_Cat. intros H. apply IH1 in H. destruct H as (st1 & Hm1 & H).
    apply IH2 in H. destruct H as (st2 & Hm2 & H).
    exists st2. split; [eapply M_Cat; eassumption | exact H].
  - cbn [run]. unfold orelse.
    destruct (run ci r1 st k) as [x |] eqn:E.
    + intros [= ->]. apply IH1 in E. destruct E as (st1 & Hm & H).
      exists st1. split; [apply M_Alt_l; exact Hm | exact H].
    + intros H. apply IH2 in H. destruct H as (st1 & Hm & H).
      exists st1. split; [apply M_Alt_r; exact Hm | exact H].
  - rewrite run_Rep. apply star_sound. exact IH1.
  - cbn [run]. intros H. apply IH1 in H. destruct H as (st1 & Hm & H).
    eexists. split; [apply M_Grp; exact Hm | exact H].
  - cbn [run]. destruct (at_boundary st); [| discriminate]. intros H.
    exists st. split; [constructor | exact H].
  - cbn [run]. destruct (prev st); [discriminate |]. intros H.
    exists st. split; [constructor | exact H].
  - cbn [run]. destruct (is_empty (rest st)); [| discriminate]. intros H.
    exists st. split; [constructor | exact H].
  - cbn [run]. discriminate.
Qed.

Lemma search_sound ci r s : forall p acc m,
  search ci r p acc s = Some m ->
  exists p' s' st1,
    matches ci r (MState p' s' []) st1 /\ m_caps m = caps st1.
Proof.
  induction s as [| c s IH]; intros p acc m; cbn [search]; unfold match_here.
  - destruct (run ci r (MState p EmptyString []) (fun st => Some st)) as [st |] eqn:E;
      [| discriminate].
    intros [= <-]. apply run_sound in E. destruct E as (st1 & Hm & [= <-]).
    exists p, EmptyString, st1. split; [exact Hm | reflexivity].
  - destruct (run ci r (MState p (String c s) []) (fun st => Some st)) as [st |] eqn:E.
    + intros [= <-]. apply run_sound in E. destruct E as (st1 & Hm & [= <-]).
      exists p, (String c s), st1. split; [exact Hm | reflexivity].
    + apply IH.
Qed.

(** *** Runs of digits *)

Definition digitClass : regex := Cls false [CDigit].

Lemma matches_digits g lo hi st st1 :
  matches false (Rep g lo hi digitClass) st st1 ->
  exists ds, rest st = ds ++ rest st1 /\ every is_digit ds = true /\ caps st1 = caps st.
Proof.
  intros H. remember (Rep g lo hi digitClass) as r eqn:Hr.
  induction H; try discriminate Hr.
  - exists EmptyString. repeat split.
  - injection Hr as -> -> -> ->. specialize (IHmatches2 eq_refl).
    destruct IHmatches2 as (ds & Hrest & Hds & Hcaps).
    inversion H as [| | | items st0 r' Hcls | | | | | | | | | |]; subst.
    cbn [class_step] in Hcls.
    destruct (rest st) as [| c tail] eqn:Hst; [discriminate |].
    cbn [item_match item_has] in Hcls.
    destruct (is_digit c) eqn:Hc; [| discriminate]. injection Hcls as <-.
    unfold advance in Hrest, Hcaps. cbn [rest caps] in Hrest, Hcaps.
    exists (String c ds). cbn [append every]. rewrite Hc, Hds, <- Hrest, Hcaps. auto.
Qed.

Lemma matches_class_caps g lo hi neg items st st1 :
  matches false (Rep g lo hi (Cls neg items)) st st1 -> caps st1 = caps st.
Proof.
  intros H. remember (Rep g lo hi (Cls neg items)) as r eqn:Hr.
  induction H; try discriminate Hr; [reflexivity |].
  injection Hr as -> -> -> ->. rewrite (IHmatches2 eq_refl).
  inversion H; subst; reflexivity.
Qed.

Definition r_age : regex := Eval vm_compute in rx "(\d+)\s*[-–]\s*(\d+)".

Lemma r_age_eq : rx "(\d+)\s*[-–]\s*(\d+)" = r_age.
Proof. vm_compute. reflexivity. Qed.

Lemma matches_group_digits i g lo hi st st1 :
  matches false (Grp i (Rep g lo hi digitClass)) st st1 ->
  exists ds, every is_digit ds = true /\ caps st1 = set_cap i ds (caps st).
Proof.
  intros H. inversion H as [| | | | | | | | i' r1 st0 st2 Hm | | | | |]; subst.
  apply matches_digits in Hm. destruct Hm as (ds & Hrest & Hds & Hcaps).
  exists ds. split; [exact Hds |]. cbn [caps]. rewrite Hrest, take_prefix, Hcaps. reflexivity.
Qed.

(** The two bounds captured from an age range are runs of digits. *)
Lemma age_groups v m :
  exec false (rx "(\d+)\s*[-–]\s*(\d+)") v = Some m ->
  exists d1 d2,
    group m 1 = Some d1 /\ group m 2 = Some d2
    /\ every is_digit d1 = true /\ every is_digit d2 = true.
Proof.
  rewrite r_age_eq. unfold exec. intros H.
  apply search_sound in H. destruct H as (p & s & st1 & Hm & Hcaps).
  unfold r_age in Hm.
  inversion Hm as [| | | | | r1 r2 sa sb sc H1 H2 | | | | | | | |]; subst. clear Hm.
  apply matches_group_digits in H1. destruct H1 as (d1 & Hd1 & Hc1). cbn [caps] in Hc1.
  inversion H2 as [| | | | | r1 r2 sa sc sd H3 H4 | | | | | | | |]; subst. clear H2.
  apply matches_class_caps in H3.
  inversion H4 as [| | | | | r1 r2 sa sd se H5 H6 | | | | | | | |]; subst. clear H4.
  inversion H5 as [| | | items s0 r' Hcls | | | | | | | | | |]; subst. clear H5.
  inversion H6 as [| | | | | r1 r2 sa se sf H7 H8 | | | | | | | |]; subst. clear H6.
  apply matches_class_caps in H7.
  apply matches_group_digits in H8. destruct H8 as (d2 & Hd2 & Hc2).
  unfold advance in H7. cbn [caps] in H7. rewrite H7, H3, Hc1 in Hc2.
  exists d1, d2. unfold group. rewrite Hcaps, Hc2. cbn. auto.
Qed.

End Matching.

(** * The WHERE clause of a built query *)

Module Predicates.
Import JsString Regex Planner PlannerFacts PlannerMore TextFacts Rewriting SqlText Rendering Matching.

(** *** Finding a word in a text *)

Lemma starts_with_app p : forall a b, starts_with p a = true -> starts_with p (a ++ b) = true.
Proof.
  induction p as [| x p IH]; intros a b H; [reflexivity |].
  destruct a as [| y a]; [discriminate |].
  cbn [starts_with append] in *. apply andb_true_iff in H. destruct H as [Hxy H].
  rewrite Hxy, (IH a b H). reflexivity.
Qed.

Lemma includes_app_l p a b : includes p a = true -> includes p (a ++ b) = true.
Proof.
  induction a as [| y a IH]; intros H.
  - destruct p; [destruct b; reflexivity | discriminate].
  - pose proof (starts_with_app p (String y a) b) as Hs.
    cbn [includes append] in *. apply orb_true_iff in H. destruct H as [H | H].
    + rewrite (Hs H). reflexivity.
    + rewrite (IH H). apply orb_true_r.
Qed.

Lemma includes_app_r p a b : includes p b = true -> includes p (a ++ b) = true.
Proof.
  intros H. induction a as [| y a IH]; [exact H |].
  cbn [includes append]. rewrite IH. apply orb_true_r.
Qed.

Lemma includes_join p sep x : forall xs,
  In x xs -> includes p x = true -> includes p (join sep xs) = true.
Proof.
  induction xs as [| y [| z r] IH]; intros Hin Hx; [destruct Hin | |].
  - destruct Hin as [<- | []]. exact Hx.
  - change (join sep (y :: z :: r)) with (y ++ sep ++ join sep (z :: r)).
    destruct Hin as [<- | Hin]; [apply includes_app_l; exact Hx |].
    apply includes_app_r, includes_app_r, IH; assumption.
Qed.

Lemma every_impl (p q : ascii -> bool) :
  (forall c, p c = true -> q c = true) ->
  forall s, every p s = true -> every q s = true.
Proof.
  intros Hpq. induction s as [| c r IH]; intros H; [reflexivity |].
  cbn [every] in *. apply andb_true_iff in H. destruct H as [Hc Hr].
  rewrite (Hpq c Hc), (IH Hr). reflexivity.
Qed.

(** *** Blocks of top-level text *)

(** [s.toUpperCase()] on ASCII letters. *)
Fixpoint toUpperCase (s : string) : string :=
  match s with
  | EmptyString => EmptyString
  | String c r => String (upper_char c) (toUpperCase r)
  end.

(** The block names no connective: neither AND nor OR occurs in it, in
    upper or lower case. *)
Definition noConnective (block : string) : bool :=
  negb (includes "AND" (toUpperCase block)) && negb (includes "OR" (toUpperCase block)).

(** [expr.includes(" OR ") ? `(${expr})` : expr] *)
Definition wrapIfOr (expr : string) : string :=
  if includes " OR " expr then "(" ++ expr ++ ")" else expr.

(** *** Nesting *)

Lemma step_nested m d c m1 d1 o k :
  step m d c = Some (m1, d1, o) ->
  step m (d + S k) c = Some (m1, d1 + S k, EmptyString).
Proof.
  assert (Hout : step_out d c = Some (m1, d1, o) ->
                 step_out (d + S k) c = Some (m1, d1 + S k, EmptyString)).
  { unfold step_out. rewrite !Nat.add_succ_r.
    destruct (Ascii.eqb c "'"); [intros [= <- <- _]; reflexivity |].
    destruct (Ascii.eqb c "("); [intros [= <- <- _]; reflexivity |].
    destruct (Ascii.eqb c ")").
    - destruct d as [| d0]; [discriminate |]. intros [= <- <- _].
      cbn [Nat.add shown]. reflexivity.
    - intros [= <- <- _]. reflexivity. }
  destruct m; cbn [step]; [exact Hout | |].
  - destruct (Ascii.eqb c "'"); intros [= <- <- _]; reflexivity.
  - destruct (Ascii.eqb c "'"); [intros [= <- <- _]; reflexivity | exact Hout].
Qed.

(** Text that is complete on its own shows nothing once it stands inside
    parentheses. *)
Lemma scan_nested s k : forall m d m1 d1 o,
  scan m d s = Some (m1, d1, o) ->
  scan m (d + S k) s = Some (m1, d1 + S k, EmptyString).
Proof.
  induction s as [| c r IH]; intros m d m1 d1 o; cbn [scan].
  - intros [= <- <- _]. reflexivity.
  - destruct (step m d c) as [[[m2 d2] o2] |] eqn:Hstep; [| discriminate].
    rewrite (step_nested _ _ _ _ _ _ k Hstep).
    destruct (scan m2 d2 r) as [[[m3 d3] o3] |] eqn:Hscan; [| discriminate].
    intros [= <- <- _]. rewrite (IH _ _ _ _ _ Hscan). reflexivity.
Qed.

Lemma outerText_scan s block :
  outerText s = Some block ->
  exists m, m <> Inside /\ scan Outside 0 s = Some (m, 0, block).
Proof.
  unfold outerText. destruct (scan Outside 0 s) as [[[[] [|]] o] |]; try discriminate;
    intros [= <-]; eexists; (split; [| reflexivity]); discriminate.
Qed.

Lemma outerText_wrapped expr block :
  outerText expr = Some block -> outerText ("(" ++ expr ++ ")") = Some "()".
Proof.
  intros H. apply outerText_scan in H. destruct H as (m & Hm & Hscan).
  apply (scan_nested expr 0) in Hscan. cbn [Nat.add] in Hscan.
  unfold outerText. cbn [append scan step step_out Ascii.eqb Bool.eqb shown].
  rewrite scan_app, Hscan.
  destruct m; [| contradiction |]; reflexivity.
Qed.

Lemma outerText_wrapIfOr expr block :
  outerText expr = Some block ->
  (includes " OR " expr = false -> noConnective block = true) ->
  exists b, outerText (wrapIfOr expr) = Some b /\ noConnective b = true.
Proof.
  intros H Hblock. unfold wrapIfOr. destruct (includes " OR " expr).
  - exists "()". split; [apply (outerText_wrapped expr block H) | reflexivity].
  - exists block. auto.
Qed.

(** *** Patterns whose holes stand inside literals *)

(** Some text piece of the pattern holds an [OR] once the lower-case
    ones are rewritten. *)
Definition orInText (xs : list string) : bool :=
  existsb (fun x => includes " OR " (upOr x)) (texts false xs).

(** A check that runs on a pattern: no hole stands outside a literal,
    the pattern with its literals emptied is complete, and either it
    holds an [OR] outside its literals (it is then wrapped) or it shows
    no connective. *)
Definition quotedOK (pattern : string) : bool :=
  let xs := segs pattern in
  forallb noHole (texts false xs)
  && match outerText (skeleton xs) with
     | Some block => orInText xs || noConnective block
     | None => false
     end.

Lemma texts_In lit xs x : In x (texts lit xs) -> In x xs.
Proof.
  revert lit. induction xs as [| y r IH]; intros lit H; [destruct H |].
  cbn [texts] in H. destruct lit.
  - right. apply (IH _ H).
  - destruct H as [<- | H]; [left; reflexivity | right; apply (IH _ H)].
Qed.

Lemma passes_segs ev pattern :
  passes ev pattern = join quote (map (passes ev) (segs pattern)).
Proof. rewrite <- passes_join, segs_join. reflexivity. Qed.

Lemma quoted_shows pattern ev :
  quotedOK pattern = true -> paired ev ->
  exists block, outerText (wrapIfOr (passes ev pattern)) = Some block
                /\ noConnective block = true.
Proof.
  unfold quotedOK. intros H Hev.
  apply andb_true_iff in H. destruct H as [Hholes Hskel].
  assert (Hscan : outerText (passes ev pattern) = outerText (skeleton (segs pattern))).
  { unfold outerText. rewrite passes_segs.
    rewrite (scan_rendered ev Hev (segs pattern) false Outside 0 (segs_plain pattern) Hholes);
      [reflexivity | discriminate]. }
  destruct (outerText (skeleton (segs pattern))) as [block |] eqn:Hblock; [| discriminate].
  apply (outerText_wrapIfOr _ block Hscan). intros Hinc.
  destruct (orInText (segs pattern)) eqn:Htext; [| exact Hskel].
  exfalso. unfold orInText in Htext. apply existsb_exists in Htext.
  destruct Htext as (x & Hin & Hx).
  assert (Hhole : noHole x = true).
  { rewrite forallb_forall in Hholes. apply Hholes. exact Hin. }
  rewrite passes_segs in Hinc.
  rewrite (includes_join " OR " quote (passes ev x)) in Hinc; [discriminate | |].
  - apply in_map. apply (texts_In _ _ _ Hin).
  - rewrite (passes_noHole ev x Hhole). exact Hx.
Qed.

(** *** Patterns whose hole stands bare: height and weight *)

(** A check that runs on a pattern: it holds no quote and no
    parenthesis, one hole [<value>], and a lower-case [or] after it. *)
Definition bareOK (pattern : string) : bool :=
  every inert pattern
  && match locate m_pct pattern, locate m_val pattern with
     | None, Some (pre, _, post) =>
         noHole post
         && match m_or post with Some (S _) => true | _ => false end
     | _, _ => false
     end.

Lemma upOr_tail tail : forall x,
  (exists n, m_or tail = Some (S n)) ->
  includes " OR " (upOr (x ++ tail)) = true.
Proof.
  intros x (n & Htail). unfold upOr. induction x as [| c x IH].
  - destruct tail as [| c r]; [discriminate Htail |].
    cbn [append rewrite_go]. rewrite Htail. reflexivity.
  - cbn [append rewrite_go].
    destruct (m_or (String c (x ++ tail))) as [[| k] |].
    + cbn [includes]. rewrite IH. apply orb_true_r.
    + reflexivity.
    + cbn [includes]. rewrite IH. apply orb_true_r.
Qed.

Lemma every_drop ok k : forall s, every ok s = true -> every ok (drop k s) = true.
Proof.
  induction k as [| k IH]; intros s H; [destruct s; exact H |].
  destruct s as [| x s]; [reflexivity |]. cbn [drop]. apply IH.
  cbn [every] in H. apply andb_true_iff in H. apply H.
Qed.

Lemma locate_every ok m : forall s pre n post,
  locate m s = Some (pre, n, post) -> every ok s = true ->
  every ok pre = true /\ every ok post = true.
Proof.
  induction s as [| c r IH]; intros pre n post; cbn [locate].
  - destruct (m EmptyString) as [k |]; [| discriminate]. intros [= <- <- <-] _.
    split; [reflexivity | destruct k; reflexivity].
  - intros Hloc Hin.
    destruct (m (String c r)) as [k |].
    + injection Hloc as <- <- <-. split; [reflexivity | apply every_drop; exact Hin].
    + cbn [every] in Hin. apply andb_true_iff in Hin. destruct Hin as [Hc Hr].
      destruct (locate m r) as [[[pre' n'] post'] |]; [| discriminate].
      injection Hloc as <- <- <-. destruct (IH pre' n' post' eq_refl Hr) as [Hp Hq].
      split; [cbn [every]; rewrite Hc, Hp; reflexivity | exact Hq].
Qed.

Lemma outerText_inert s : every inert s = true -> outerText s = Some s.
Proof. intros H. unfold outerText. rewrite (scan_top_inert s H). reflexivity. Qed.

Lemma bare_shows pattern ev :
  bareOK pattern = true -> every inert ev = true ->
  exists block, outerText (wrapIfOr (passes ev pattern)) = Some block
                /\ noConnective block = true.
Proof.
  unfold bareOK. intros H Hev.
  apply andb_true_iff in H. destruct H as [Hinert H].
  destruct (locate m_pct pattern) eqn:Hpct; [discriminate |].
  destruct (locate m_val pattern) as [[[pre n] post] |] eqn:Hval; [| discriminate].
  apply andb_true_iff in H. destruct H as [Hpost Htail].
  destruct (locate_every inert m_val pattern pre n post Hval Hinert) as [Hpre Hpost'].
  assert (Hexpr : passes ev pattern = upOr (pre ++ ev ++ post)).
  { unfold passes. rewrite (locate_none m_pct _ pattern pct_bounded Hpct).
    destruct (locate_some m_val ev pattern val_bounded pre n post Hval) as (Hrw & _).
    rewrite Hrw. f_equal. f_equal. f_equal.
    unfold noHole in Hpost. destruct (locate m_pct post); [discriminate |].
    destruct (locate m_val post) eqn:E; [discriminate |].
    apply (locate_none m_val ev post val_bounded E). }
  assert (Hinc : includes " OR " (passes ev pattern) = true).
  { rewrite Hexpr, <- TextFacts.append_assoc. apply upOr_tail.
    destruct (m_or post) as [[| k] |]; try discriminate. eauto. }
  apply (outerText_wrapIfOr _ (passes ev pattern)).
  - apply outerText_inert. rewrite Hexpr. apply rewrite_go_every; [reflexivity |].
    rewrite !every_append, Hpre, Hev, Hpost'. reflexivity.
  - rewrite Hinc. discriminate.
Qed.

(** *** Numbers *)

Lemma digit_inert c : is_digit c = true -> inert c = true.
Proof. destruct c as [[] [] [] [] [] [] [] []]; vm_compute; intros H; solve [reflexivity | discriminate H]. Qed.

Lemma digit_upper c : is_digit c = true -> upper_char c = c.
Proof. destruct c as [[] [] [] [] [] [] [] []]; vm_compute; intros H; solve [reflexivity | discriminate H]. Qed.

Lemma digit_not_letter c : is_digit c = true -> is_upper c = false.
Proof. destruct c as [[] [] [] [] [] [] [] []]; vm_compute; intros H; solve [reflexivity | discriminate H]. Qed.

Lemma of_uint_digits u : every is_digit (NilEmpty.string_of_uint u) = true.
Proof. induction u; cbn [NilEmpty.string_of_uint every]; [reflexivity | rewrite IHu; reflexivity ..]. Qed.

Lemma of_N_digits n : every is_digit (of_N n) = true.
Proof. apply of_uint_digits. Qed.

Lemma toUpperCase_app a b : toUpperCase (a ++ b) = toUpperCase a ++ toUpperCase b.
Proof. induction a as [| c a IH]; [reflexivity |]. cbn [append toUpperCase]. rewrite IH. reflexivity. Qed.

Lemma toUpperCase_digits ds : every is_digit ds = true -> toUpperCase ds = ds.
Proof.
  induction ds as [| c r IH]; intros H; [reflexivity |].
  cbn [every] in H. apply andb_true_iff in H. destruct H as [Hc Hr].
  cbn [toUpperCase]. rewrite (digit_upper c Hc), (IH Hr). reflexivity.
Qed.

(** A word of letters does not reach into a run of digits. *)
Lemma starts_with_digits ds :
  every is_digit ds = true -> forall w a,
  every is_upper w = true ->
  starts_with w (a ++ ds) = starts_with w a.
Proof.
  intros Hds. induction w as [| c w IH]; intros a Hw; [reflexivity |].
  cbn [every] in Hw. apply andb_true_iff in Hw. destruct Hw as [Hc Hw].
  destruct a as [| y a]; cbn [append starts_with].
  - destruct ds as [| d ds']; [reflexivity |]. cbn [starts_with].
    cbn [every] in Hds. apply andb_true_iff in Hds. destruct Hds as [Hd _].
    destruct (Ascii.eqb c d) eqn:Hcd; [| reflexivity].
    apply Ascii.eqb_eq in Hcd. subst d. rewrite (digit_not_letter c Hd) in Hc. discriminate.
  - rewrite (IH a Hw). reflexivity.
Qed.

Lemma includes_digits w c ds :
  every is_upper (String c w) = true -> every is_digit ds = true ->
  forall a, includes (String c w) (a ++ ds) = includes (String c w) a.
Proof.
  intros Hw Hds.
  assert (Hnone : forall xs, every is_digit xs = true -> includes (String c w) xs = false).
  { induction xs as [| d xs IH]; intros H; [reflexivity |].
    pose proof (starts_with_digits (String d xs) H (String c w) EmptyString Hw) as Hs.
    cbn [append] in Hs. cbn [includes]. rewrite Hs.
    cbn [every] in H. apply andb_true_iff in H. destruct H as [_ H].
    rewrite (IH H). reflexivity. }
  induction a as [| y a IH].
  - cbn [append]. rewrite (Hnone ds Hds). reflexivity.
  - pose proof (starts_with_digits ds Hds (String c w) (String y a) Hw) as Hs.
    cbn [append] in Hs. cbn [append includes]. rewrite Hs, IH. reflexivity.
Qed.

Lemma noConnective_digits a ds :
  every is_digit ds = true -> noConnective (a ++ ds) = noConnective a.
Proof.
  intros Hds. unfold noConnective.
  rewrite toUpperCase_app, (toUpperCase_digits ds Hds).
  rewrite (includes_digits "ND" "A" ds eq_refl Hds), (includes_digits "R" "O" ds eq_refl Hds).
  reflexivity.
Qed.

(** *** The four kinds of predicate *)

(** [parseInt(m[1], 10) * 100000], or one million. *)
Definition incomeFigure (v : string) : N :=
  match exec true (rx "(\d+)\s*LPA") v with
  | Some m => (parseInt (match group m 1 with Some d => d | None => "0" end) * 100000)%N
  | None => 1000000%N
  end.

Lemma income_shows n :
  exists block,
    outerText (wrapIfOr ("c.annual_income >= " ++ of_N n)) = Some block
    /\ noConnective block = true.
Proof.
  pose proof (of_N_digits n) as Hds.
  apply (outerText_wrapIfOr _ ("c.annual_income >= " ++ of_N n)).
  - apply outerText_inert. rewrite every_append.
    rewrite (every_impl _ _ digit_inert _ Hds). reflexivity.
  - intros _. rewrite (noConnective_digits _ _ Hds). reflexivity.
Qed.

(** The text of an age predicate before its lower bound. *)
Definition ageHead : string :=
  "(EXTRACT(YEAR FROM AGE(CURRENT_DATE, p.date_of_birth)) BETWEEN ".

Lemma age_text lo hi :
  every is_digit lo = true -> every is_digit hi = true ->
  outerText (ageHead ++ lo ++ " AND " ++ hi ++ ")") = Some "()".
Proof.
  intros Hlo Hhi. unfold outerText.
  assert (Hhead : scan Outside 0 ageHead = Some (Outside, 1, "(")) by (vm_compute; reflexivity).
  assert (Hmid : every inert (lo ++ " AND " ++ hi) = true).
  { rewrite !every_append, (every_impl _ _ digit_inert _ Hlo), (every_impl _ _ digit_inert _ Hhi).
    reflexivity. }
  replace (ageHead ++ lo ++ " AND " ++ hi ++ ")")
    with (ageHead ++ (lo ++ " AND " ++ hi) ++ ")")
    by (rewrite !TextFacts.append_assoc; reflexivity).
  rewrite scan_app, Hhead, scan_app.
  destruct (lo ++ " AND " ++ hi) as [| c r] eqn:E.
  - destruct lo; discriminate E.
  - rewrite (scan_deep_inert (String c r) Outside 0); [reflexivity | discriminate | exact Hmid | discriminate].
Qed.

Lemma age_shows v :
  let range := exec false (rx "(\d+)\s*[-–]\s*(\d+)") v in
  let min := match range with
             | Some m => match group m 1 with Some d => d | None => "25" end
             | None => "25" end in
  let max := match range with
             | Some m => match group m 2 with Some d => d | None => "30" end
             | None => "30" end in
  exists block,
    outerText (wrapIfOr (ageHead ++ min ++ " AND " ++ max ++ ")")) = Some block
    /\ noConnective block = true.
Proof.
  intros range min max.
  assert (H : every is_digit min = true /\ every is_digit max = true).
  { subst min max. destruct range as [m |] eqn:Hrange; [| split; reflexivity].
    destruct (age_groups v m Hrange) as (d1 & d2 & -> & -> & H1 & H2). auto. }
  destruct H as [Hmin Hmax].
  apply (outerText_wrapIfOr _ "()" (age_text min max Hmin Hmax)).
  reflexivity.
Qed.

(** The height and weight patterns place the value outside a literal. *)
Definition bare (attr : string) : bool :=
  String.eqb attr "height" || String.eqb attr "weight".

(** A digit or a dot. *)
Definition numeral (c : ascii) : bool := is_digit c || Ascii.eqb c ".".

(** The values for which the text of the predicate is settled here: one
    without [$], which [String.replace] reads as a pattern in a
    replacement; a bare value has to be a number; an income has to stay
    below 2^53, where the arithmetic on numbers is exact. Any age will
    do. *)
Definition plainValue (i : ExtractedIntent) : bool :=
  if String.eqb (attribute i) "income" then (incomeFigure (value i) <? 2 ^ 53)%N
  else if String.eqb (attribute i) "age" then true
  else every noDollar (value i)
       && (if bare (attribute i) then every numeral (value i) else true).

Lemma numeral_inert c : numeral c = true -> inert c = true.
Proof.
  destruct c as [[] [] [] [] [] [] [] []]; vm_compute; intros H;
    solve [reflexivity | discriminate H].
Qed.

(** The check that fits the attribute, run on its pattern. *)
Definition patternOK (kv : string * string) : bool :=
  let attr := fst kv in
  String.eqb attr "income" || String.eqb attr "age"
  || (if bare attr then bareOK (patternOf attr) else quotedOK (patternOf attr)).

Lemma patterns_ok : forallb patternOK INTENT_TO_SQL = true.
Proof. vm_compute. reflexivity. Qed.

Lemma renderCondition_cases i pattern :
  renderCondition i pattern =
  wrapIfOr
    (if String.eqb (attribute i) "income"
     then "c.annual_income >= " ++ of_N (incomeFigure (value i))
     else if String.eqb (attribute i) "age"
     then
       let range := exec false (rx "(\d+)\s*[-–]\s*(\d+)") (value i) in
       ageHead
       ++ match range with
          | Some m => match group m 1 with Some d => d | None => "25" end
          | None => "25" end
       ++ " AND "
       ++ match range with
          | Some m => match group m 2 with Some d => d | None => "30" end
          | None => "30" end
       ++ ")"
     else replace_all false (rx "\s+or\s+") " OR "
            (replace_all true (rx "<value>") (escapeQuotes (value i))
               (replace_all true (rx "%<value>%") ("%" ++ escapeQuotes (value i) ++ "%")
                  pattern))).
Proof. reflexivity. Qed.

Lemma substChar_inert t v : every inert v = true -> substChar "'" t v = v.
Proof.
  induction v as [| c r IH]; intros H; [reflexivity |].
  cbn [every] in H. apply andb_true_iff in H. destruct H as [Hc Hr].
  unfold inert in Hc. apply andb_true_iff in Hc. destruct Hc as [Hc _].
  apply andb_true_iff in Hc. destruct Hc as [Hc _]. apply negb_true_iff in Hc.
  cbn [substChar]. rewrite Ascii.eqb_sym, Hc, (IH Hr). reflexivity.
Qed.

(** Every predicate of the builder is complete on its own, and shows no
    connective outside its literals and parentheses. *)
Lemma predicate_shows i :
  isMapped (attribute i) = true -> plainValue i = true ->
  exists block, outerText (predicateOf i) = Some block /\ noConnective block = true.
Proof.
  intros Hmapped Hplain. unfold predicateOf. rewrite renderCondition_cases.
  unfold plainValue in Hplain.
  destruct (String.eqb (attribute i) "income") eqn:Hincome; [apply income_shows |].
  destruct (String.eqb (attribute i) "age") eqn:Hage; [apply age_shows |].
  apply andb_true_iff in Hplain. destruct Hplain as [Hdollar Hbare].
  rewrite (replacements_are_passes _ _ Hdollar).
  destruct (mapped_cases _ Hmapped) as (raw & Hin).
  pose proof patterns_ok as Hok. rewrite forallb_forall in Hok.
  specialize (Hok _ Hin). unfold patternOK in Hok. cbn [fst] in Hok.
  rewrite Hincome, Hage in Hok. cbn [orb] in Hok.
  destruct (bare (attribute i)).
  - apply (every_impl _ _ numeral_inert) in Hbare.
    apply (bare_shows _ _ Hok). rewrite escapeQuotes_doubles, (substChar_inert _ _ Hbare).
    exact Hbare.
  - apply (quoted_shows _ _ Hok). rewrite escapeQuotes_doubles. apply paired_doubled.
Qed.

(** *** The WHERE clause *)

Lemma outerText_and cond block rest blocks :
  outerText cond = Some block -> outerText rest = Some blocks ->
  outerText (cond ++ " AND " ++ rest) = Some (block ++ " AND " ++ blocks).
Proof.
  intros Hc Hr. apply outerText_scan in Hc. destruct Hc as (m & Hm & Hc).
  unfold outerText in *. rewrite scan_app, Hc.
  assert (Hand : scan m 0 (" AND " ++ rest)
                 = match scan Outside 0 rest with
                   | Some (m2, d2, o2) => Some (m2, d2, " AND " ++ o2)
                   | None => None
                   end).
  { destruct m; [| contradiction |];
      cbn [append scan step step_out Ascii.eqb Bool.eqb shown];
      destruct (scan Outside 0 rest) as [[[m2 d2] o2] |]; reflexivity. }
  rewrite Hand. destruct (scan Outside 0 rest) as [[[[] [|]] o] |]; try discriminate;
    injection Hr as <-; reflexivity.
Qed.

Lemma outerText_join conds : forall blocks,
  map outerText conds = map Some blocks ->
  conds <> [] ->
  outerText (join " AND " conds) = Some (join " AND " blocks).
Proof.
  induction conds as [| c [| c' more] IH]; intros blocks H Hne; [contradiction | |].
  - destruct blocks as [| b [| b' bs]]; try discriminate H. injection H as H. exact H.
  - destruct blocks as [| b [| b' bs]]; try discriminate H.
    injection H as Hb Hb' Hbs.
    change (join " AND " (c :: c' :: more)) with (c ++ " AND " ++ join " AND " (c' :: more)).
    change (join " AND " (b :: b' :: bs)) with (b ++ " AND " ++ join " AND " (b' :: bs)).
    apply (outerText_and _ _ _ _ Hb). apply IH; [| discriminate].
    cbn [map]. rewrite Hb', Hbs. reflexivity.
Qed.

Lemma predicates_show items :
  forallb (fun i => isMapped (attribute i) && plainValue i) items = true ->
  exists blocks,
    map outerText (map predicateOf items) = map Some blocks
    /\ forallb noConnective blocks = true.
Proof.
  induction items as [| i more IH]; cbn [forallb]; intros H.
  - exists []. split; reflexivity.
  - apply andb_true_iff in H. destruct H as [Hi Hmore].
    apply andb_true_iff in Hi. destruct Hi as [Hmapped Hplain].
    destruct (predicate_shows i Hmapped Hplain) as (b & Hb & Hnone).
    destruct (IH Hmore) as (bs & Hbs & Hnones).
    exists (b :: bs). cbn [map forallb]. rewrite Hb, Hbs, Hnone, Hnones. split; reflexivity.
Qed.

Lemma mapped_of_covered items :
  forallb (fun i => isMapped (attribute i) && plainValue i) items = true ->
  forallb (fun i => isMapped (attribute i)) items = true.
Proof.
  induction items as [| i more IH]; cbn [forallb]; intros H; [reflexivity |].
  apply andb_true_iff in H. destruct H as [Hi Hmore].
  apply andb_true_iff in Hi. destruct Hi as [Hi _]. rewrite Hi, (IH Hmore). reflexivity.
Qed.

(** C4 (as amended). For every intent list with two or more items whose
    attributes all have a pattern and whose values are plain, the builder
    returns a query whose WHERE clause joins by AND the predicates of the
    items, one per item and in the order of the list (an attribute given
    twice has two predicates). Read outside string literals and
    parentheses, the clause is as many blocks as there are items,
    separated by AND, and no block holds an AND or an OR: whatever OR a
    predicate holds stands inside its own parentheses. *)
Theorem buildSqlFromIntent_joins_predicates_by_and :
  forall intent : list ExtractedIntent,
    2 <= List.length intent ->
    forallb (fun i => isMapped (attribute i) && plainValue i) (normalizeAll intent) = true ->
    exists joins blocks,
      collectJoins (normalizeAll intent) [] = Ok joins
      /\ buildConditions (normalizeAll intent) = Ok (map predicateOf (normalizeAll intent))
      /\ buildSqlFromIntent intent
         = Ok (queryText (selectColumnsForIntent (map attribute (normalizeAll intent)) joins)
                         (joinLinesFor joins) (map predicateOf (normalizeAll intent)))
      /\ whereOf (map predicateOf (normalizeAll intent))
         = " WHERE " ++ join " AND " (map predicateOf (normalizeAll intent))
      /\ List.length blocks = List.length intent
      /\ map outerText (map predicateOf (normalizeAll intent)) = map Some blocks
      /\ forallb noConnective blocks = true
      /\ outerText (join " AND " (map predicateOf (normalizeAll intent)))
         = Some (join " AND " blocks).
Proof.
  intros intent Hlen Hcovered.
  assert (Hne : intent <> []) by (intros ->; cbn in Hlen; lia).
  destruct (buildSqlFromIntent_mapped intent Hne (mapped_of_covered _ Hcovered))
    as (joins & Hjoins & Hconds & Hsql).
  destruct (predicates_show _ Hcovered) as (blocks & Hblocks & Hnone).
  assert (Hcount : List.length blocks = List.length intent).
  { apply (f_equal (@List.length _)) in Hblocks.
    unfold normalizeAll in Hblocks. rewrite !length_map in Hblocks. congruence. }
  exists joins, blocks. repeat (split; [assumption |]).
  split; [| split; [exact Hcount | split; [exact Hblocks | split; [exact Hnone |]]]].
  - unfold whereOf. rewrite length_map. unfold normalizeAll. rewrite length_map.
    destruct intent; [contradiction | reflexivity].
  - apply outerText_join; [exact Hblocks |].
    destruct intent; [contradiction | discriminate].
Qed.

Lemma buildSqlFromIntent_by_and_witness :
  exists joins blocks,
    collectJoins (normalizeAll doctorInPune) [] = Ok joins
    /\ buildConditions (normalizeAll doctorInPune)
       = Ok (map predicateOf (normalizeAll doctorInPune))
    /\ buildSqlFromIntent doctorInPune
       = Ok (queryText
               (selectColumnsForIntent (map attribute (normalizeAll doctorInPune)) joins)
               (joinLinesFor joins) (map predicateOf (normalizeAll doctorInPune)))
    /\ whereOf (map predicateOf (normalizeAll doctorInPune))
       = " WHERE " ++ join " AND " (map predicateOf (normalizeAll doctorInPune))
    /\ List.length blocks = List.length doctorInPune
    /\ map outerText (map predicateOf (normalizeAll doctorInPune)) = map Some blocks
    /\ forallb noConnective blocks = true
    /\ outerText (join " AND " (map predicateOf (normalizeAll doctorInPune)))
       = Some (join " AND " blocks).
Proof.
  apply (buildSqlFromIntent_joins_predicates_by_and doctorInPune).
  - cbn. lia.
  - vm_compute. reflexivity.
Defined.


(** Why the values have to be plain. A parenthesis in a bare value
    closes the group of its predicate, and the OR after it stands at the
    top level; a [$] followed by a backtick inserts the text before the
    hole, quote included, and the literal ends inside the value. *)
Lemma bare_value_closes_its_group :
  predicateOf (Intent "height" "1) OR (1=1") = "(p.height_cm >= 1) OR (1=1 OR BETWEEN)"
  /\ outerText (predicateOf (Intent "height" "1) OR (1=1")) = Some "() OR ()".
Proof. split; vm_compute; reflexivity. Qed.

Lemma dollar_value_ends_its_literal :
  predicateOf (Intent "smoking" "x$`) OR 1=1) --")
  = "(LOWER(lh.smoking) = LOWER('xLOWER(lh.smoking) = LOWER(') OR 1=1) --'))"
  /\ outerText (predicateOf (Intent "smoking" "x$`) OR 1=1) --")) = None.
Proof. split; vm_compute; reflexivity. Qed.

End Predicates.


(** * supabase-query.service.ts: the helpers of the rendering step *)

Module SupabaseQuery.
Import JsString Regex Planner.

Definition ALIAS_TO_TABLE : list (string * string) :=
  [ ("p", "profiles"); ("pl", "profile_locations"); ("c", "career_details");
    ("sb", "social_background"); ("lh", "lifestyle_habits"); ("ed", "education_details");
    ("f", "family_origin"); ("uh", "user_horoscopes") ].

(** [ALIAS_TO_TABLE[alias] ?? alias]; [None] stands for the function or
    object that the lookup finds on [Object.prototype]. *)
Definition aliasToTable (alias : string) : option string :=
  match js_get ALIAS_TO_TABLE alias with
  | Own table => Some table
  | Inherited => None
  | Missing => Some alias
  end.

(** Escape single quotes for use inside a single-quoted JS string. *)
Definition escapeForJs (s : string) : string :=
  replace_all false (rx "'") "\'" (replace_all false (rx "\\") "\\" s).

End SupabaseQuery.

Module SupabaseQueryFacts.
Import JsString Regex Planner SupabaseQuery TextFacts PlannerMore.

(** A line feed or a carriage return: the line terminators that a
    JavaScript string literal cannot hold unescaped. *)
Definition lineBreak (c : ascii) : bool :=
  (code c =? 10) || (code c =? 13).

Fixpoint singleLine (s : string) : bool :=
  match s with
  | EmptyString => true
  | String c r => negb (lineBreak c) && singleLine r
  end.

(** The body of a single-quoted JavaScript string literal, read back: a
    backslash escapes the backslash or the quote after it, a bare quote
    ends the literal, and a line break is not allowed in it. *)
Fixpoint jsLiteralText (body : string) : option string :=
  match body with
  | EmptyString => Some EmptyString
  | String c r =>
      if Ascii.eqb c "\" then
        match r with
        | String c' r' =>
            if Ascii.eqb c' "\" || Ascii.eqb c' "'"
            then option_map (String c') (jsLiteralText r')
            else None
        | EmptyString => None
        end
      else if Ascii.eqb c "'" then None
      else if lineBreak c then None
      else option_map (String c) (jsLiteralText r)
  end.

Lemma escapeForJs_by_character s :
  escapeForJs s = substChar "'" "\'" (substChar "\" "\\" s).
Proof.
  unfold escapeForJs. change (rx "'") with (Lit "'"). change (rx "\\") with (Lit "\").
  rewrite !replace_all_Lit by reflexivity. reflexivity.
Qed.

(** X18. The two passes of [escapeForJs] do not interfere: for a text
    without line break, the escaped text, read as the body of a
    single-quoted JavaScript string literal, is the text itself; no quote
    of the text ends the literal and no backslash of the text escapes
    what follows it. A line feed or a carriage return is left as it is,
    and the escaped text is then no literal body at all. *)
Theorem escapeForJs_reads_back :
  forall s : string,
    jsLiteralText (escapeForJs s) = if singleLine s then Some s else None.
Proof.
  intros s. rewrite escapeForJs_by_character.
  induction s as [| c r IH]; [reflexivity |].
  cbn [substChar singleLine]. destruct (Ascii.eqb "\" c) eqn:Hb.
  - apply Ascii.eqb_eq in Hb. subst c. cbn. rewrite IH.
    destruct (singleLine r); reflexivity.
  - cbn [substChar]. destruct (Ascii.eqb "'" c) eqn:Hq.
    + apply Ascii.eqb_eq in Hq. subst c. cbn. rewrite IH.
      destruct (singleLine r); reflexivity.
    + cbn [jsLiteralText]. rewrite (Ascii.eqb_sym c "\"), Hb, (Ascii.eqb_sym c "'"), Hq, IH.
      destruct (lineBreak c); [reflexivity |]. cbn [negb andb].
      destruct (singleLine r); reflexivity.
Qed.

(** X19. The rendering step knows every table the builder joins: each
    JOIN line of a built query joins, under its alias, the table that
    [aliasToTable] gives for that alias. *)
Theorem aliasToTable_knows_every_join :
  forall (joins : list string) (line : string),
    In line (joinLinesFor joins) ->
    exists alias table,
      has alias joins = true
      /\ aliasToTable alias = Some table
      /\ line = "LEFT JOIN " ++ table ++ " " ++ alias ++ " ON p.profile_id = "
                ++ alias ++ ".profile_id".
Proof.
  intros joins line H. rewrite joinLinesFor_catalogue in H.
  apply in_map_iff in H. destruct H as ([alias table] & <- & Hin).
  apply filter_In in Hin. destruct Hin as [Hcat Hjoined]. cbn [fst] in Hjoined.
  exists alias, table. split; [exact Hjoined |].
  unfold joinCatalogue in Hcat. cbn [In] in Hcat.
  repeat (destruct Hcat as [Hcat | Hcat]; [injection Hcat as <- <-; split; reflexivity |]).
  destruct Hcat.
Qed.

Lemma aliasToTable_witness :
  exists alias table,
    has alias ["uh"] = true
    /\ aliasToTable alias = Some table
    /\ "LEFT JOIN user_horoscopes uh ON p.profile_id = uh.profile_id"
       = "LEFT JOIN " ++ table ++ " " ++ alias ++ " ON p.profile_id = "
         ++ alias ++ ".profile_id".
Proof.
  apply (aliasToTable_knows_every_join ["uh"]
           "LEFT JOIN user_horoscopes uh ON p.profile_id = uh.profile_id").
  cbn. auto.
Defined.

End SupabaseQueryFacts.
